(** * mpllayout: a shallow embedding of the placement solver

    The development follows the package layout of [src/mpllayout]:
    [base.py] (elements, the recursive solver), [pin.py], [ruler.py],
    [frame.py] and [layout.py].  Python objects live in a heap of frames;
    a frame owns its two rulers and a ruler owns its three pins, so a pin
    is addressed by the frame that holds it, the axis and the pin name.
    Coordinates are IEEE binary64 numbers, as Python's [float]; an
    integer given where a coordinate or a length is expected is taken at
    the float it converts to in the arithmetic it enters.  The solver is
    recursive over a graph that may have cycles, so its model takes a
    recursion budget; it is shown below that a budget above the number
    of nodes is never exhausted. *)

From Stdlib Require Import Floats.PrimFloat.
From Stdlib Require Import Ascii String List Bool Arith Lia Permutation.
From stdpp Require Import base list strings.

Set Default Proof Using "Type".
Open Scope string_scope.

(** ** Python numbers and comparisons *)

Module Py.

(** [x < y], [x > y], [x == y] on floats; every comparison with a NaN is
    false. *)
Definition lt (x y : float) : bool := PrimFloat.ltb x y.
Definition gt (x y : float) : bool := PrimFloat.ltb y x.
Definition eq (x y : float) : bool := PrimFloat.eqb x y.
Definition le (x y : float) : bool := PrimFloat.leb x y.

Definition zero : float := 0%float.

(** [math.isinf] *)
Definition isinf (x : float) : bool :=
  PrimFloat.eqb x infinity || PrimFloat.eqb x neg_infinity.

(** The default relative tolerance [1e-09] of [math.isclose], as the
    binary64 number that literal denotes. *)
Definition rel_tol : float := 0x1.12e0be826d695p-30%float.

(** [math.isclose(a, b)] with the default [rel_tol] and [abs_tol = 0.0]. *)
Definition isclose (a b : float) : bool :=
  if eq a b then true
  else if isinf a || isinf b then false
  else
    let diff := PrimFloat.abs (PrimFloat.sub b a) in
    le diff (PrimFloat.abs (PrimFloat.mul rel_tol b))
    || le diff (PrimFloat.abs (PrimFloat.mul rel_tol a))
    || le diff zero.

(** [max(a, b, c)]: the first argument is kept until a later one is
    strictly greater. *)
Definition max2 (acc item : float) : float := if gt item acc then item else acc.
Definition max3 (a b c : float) : float := max2 (max2 a b) c.
Definition min2 (acc item : float) : float := if lt item acc then item else acc.

(** ASCII part of [str.lower]. *)
Definition lower_ascii (c : ascii) : ascii :=
  let n := nat_of_ascii c in
  if (65 <=? n)%nat && (n <=? 90)%nat then ascii_of_nat (n + 32) else c.

Fixpoint lower (s : string) : string :=
  match s with
  | EmptyString => EmptyString
  | String c s' => String (lower_ascii c) (lower s')
  end.

(** [c in s] for a one-character string [c]. *)
Fixpoint contains_char (c : ascii) (s : string) : bool :=
  match s with
  | EmptyString => false
  | String c' s' => if Ascii.eqb c c' then true else contains_char c s'
  end.

(** [sep.join(l)] *)
Fixpoint join (sep : string) (l : list string) : string :=
  match l with
  | [] => ""
  | [x] => x
  | x :: l' => x ++ sep ++ join sep l'
  end.

(** A value handed over where a pair of numbers is expected: a tuple, a
    list, or anything else. *)
Inductive value :=
| Tuple (items : list float)
| List (items : list float)
| Other.

End Py.

(** ** Exceptions and the state-and-exception monad *)

Inductive exn :=
| PlacementError
| CircularDependencyError (msg : string)
| DependencyUnplacedError
| IncomplyingPlacementError
| PlacementUnsolvableError
| ValueError
| TypeError
| NameError
| AttributeError
| AssertionError
| ZeroDivisionError
| RecursionError.

(** The classes under [PlaceableElementBase.PlacementError]. *)
Definition is_placement_error (e : exn) : bool :=
  match e with
  | PlacementError | CircularDependencyError _ | DependencyUnplacedError
  | IncomplyingPlacementError | PlacementUnsolvableError => true
  | _ => false
  end.

(** A call returns, raises, or exhausts the recursion budget of the model. *)
Inductive outcome (A : Type) :=
| Ok (a : A)
| Raise (e : exn)
| OutOfFuel.
Arguments Ok {A} a.
Arguments Raise {A} e.
Arguments OutOfFuel {A}.

Definition M (S A : Type) : Type := S -> outcome A * S.

Definition ret {S A} (a : A) : M S A := fun s => (Ok a, s).
Definition raise {S A} (e : exn) : M S A := fun s => (Raise e, s).
Definition out_of_fuel {S A} : M S A := fun s => (OutOfFuel, s).
Definition bind {S A B} (m : M S A) (k : A -> M S B) : M S B :=
  fun s =>
    match m s with
    | (Ok a, s') => k a s'
    | (Raise e, s') => (Raise e, s')
    | (OutOfFuel, s') => (OutOfFuel, s')
    end.
Definition gets {S A} (f : S -> A) : M S A := fun s => (Ok (f s), s).
Definition modify {S} (f : S -> S) : M S unit := fun s => (Ok tt, f s).

Declare Scope py_scope.
Delimit Scope py_scope with py.
Notation "x <- c1 ;; c2" := (bind c1 (fun x => c2))
  (at level 100, c1 at next level, right associativity) : py_scope.
Notation "c1 ;; c2" := (bind c1 (fun _ => c2))
  (at level 100, right associativity) : py_scope.
Open Scope py_scope.

(** [for x in l: body(x)] *)
Fixpoint for_each {S A} (l : list A) (body : A -> M S unit) : M S unit :=
  match l with
  | [] => ret tt
  | x :: l' => body x ;; for_each l' body
  end.

(** Run a computation on a component of a larger state. *)
Definition zoom {S T A} (get : T -> S) (set : S -> T -> T) (m : M S A) : M T A :=
  fun t => let '(r, s') := m (get t) in (r, set s' t).

(** ** The object graph *)

(** The pins of a ruler, in the insertion order of [pins_dict]
    ([LinearRuler.init_pins]). *)
Inductive PinName := pmax | pmid | pmin.
Inductive Axis := h_ruler | v_ruler.

#[global] Instance PinName_eq_dec : EqDecision PinName.
Proof. solve_decision. Defined.
#[global] Instance Axis_eq_dec : EqDecision Axis.
Proof. solve_decision. Defined.

(** A frame object is identified by its position in the heap (the model of
    [id(self)]); a ruler by its frame and axis; a pin by its ruler and
    name. *)
Abbreviation FrameId := nat.
Abbreviation RulerId := (FrameId * Axis)%type.
Record PinId := mkPin { pin_frame : FrameId; pin_axis : Axis; pin_name : PinName }.

#[global] Instance PinId_eq_dec : EqDecision PinId.
Proof. solve_decision. Defined.

Definition pin_ruler (p : PinId) : RulerId := (pin_frame p, pin_axis p).
Definition pin_of (r : RulerId) (n : PinName) : PinId := mkPin (fst r) (snd r) n.

(** [PinBase]/[RulerPin] attributes; [ruler_pos] is fixed by the pin name. *)
Record RulerPin := mkRulerPin {
  figpos : option float;
  figpos_ref : option PinId;
  figpos_offset : float
}.

(** [LinearRuler] attributes. *)
Record LinearRuler := mkRuler {
  pmax_pin : RulerPin;
  pmid_pin : RulerPin;
  pmin_pin : RulerPin;
  _ruler_length : option float
}.

(** [Frame2DBase] attributes, with the name and parent of [ElementBase]. *)
Record Frame := mkFrame {
  name : string;
  parent : option FrameId;
  _h_ruler : LinearRuler;
  _v_ruler : LinearRuler
}.

Abbreviation Heap := (list Frame).

(** Nodes of the dependency graph: the placeable elements. *)
Inductive Node :=
| NFrame (f : FrameId)
| NRuler (r : RulerId)
| NPin (p : PinId).

#[global] Instance Node_eq_dec : EqDecision Node.
Proof. solve_decision. Defined.

Module Pin.

Definition ruler_pos (n : PinName) : float :=
  match n with
  | pmax => 1.0%float
  | pmid => 0.5%float
  | pmin => 0.0%float
  end.

Definition name_of (n : PinName) : string :=
  match n with pmax => "pmax" | pmid => "pmid" | pmin => "pmin" end.

(** [PinBase.__init__]: [clear_placement()] then [clear_placement_ref()]. *)
Definition init : RulerPin := mkRulerPin None None 0.0%float.

Definition is_placeable (p : RulerPin) : bool :=
  match figpos_ref p with Some _ => true | None => false end.

Definition is_placed (p : RulerPin) : bool :=
  match figpos p with Some _ => true | None => false end.

Definition get_placement (p : RulerPin) : option float := figpos p.

Definition set_placement (value : option float) (p : RulerPin) : RulerPin :=
  mkRulerPin value (figpos_ref p) (figpos_offset p).

Definition clear_placement (p : RulerPin) : RulerPin := set_placement None p.

Definition set_placement_ref (ref : option PinId) (offset : float)
    (p : RulerPin) : RulerPin :=
  mkRulerPin (figpos p) ref offset.

Definition clear_placement_ref (p : RulerPin) : RulerPin :=
  set_placement_ref None 0.0%float p.

End Pin.

Module Ruler.

Definition name_of (a : Axis) : string :=
  match a with h_ruler => "h_ruler" | v_ruler => "v_ruler" end.

(** [RulerBase.iter_pin_names] *)
Definition iter_pin_names : list PinName := [pmax; pmid; pmin].

(** [RulerBase.get_pin] *)
Definition get_pin (n : PinName) (r : LinearRuler) : RulerPin :=
  match n with
  | pmax => pmax_pin r
  | pmid => pmid_pin r
  | pmin => pmin_pin r
  end.

Definition upd_pin (n : PinName) (f : RulerPin -> RulerPin)
    (r : LinearRuler) : LinearRuler :=
  match n with
  | pmax => mkRuler (f (pmax_pin r)) (pmid_pin r) (pmin_pin r) (_ruler_length r)
  | pmid => mkRuler (pmax_pin r) (f (pmid_pin r)) (pmin_pin r) (_ruler_length r)
  | pmin => mkRuler (pmax_pin r) (pmid_pin r) (f (pmin_pin r)) (_ruler_length r)
  end.

(** [LinearRuler.__init__] *)
Definition init : LinearRuler := mkRuler Pin.init Pin.init Pin.init None.

(** [RulerBase.set_ruler_length] on the ruler's own attributes; the sign
    check is in [set_ruler_length] below. *)
Definition with_length (value : option float) (r : LinearRuler) : LinearRuler :=
  mkRuler (pmax_pin r) (pmid_pin r) (pmin_pin r) value.

(** [RulerBase.is_placed] *)
Definition is_placed (r : LinearRuler) : bool :=
  forallb (fun n => Pin.is_placed (get_pin n r)) iter_pin_names.

(** [RulerBase.clear_placement] *)
Definition clear_placement (r : LinearRuler) : LinearRuler :=
  fold_left (fun r n => upd_pin n Pin.clear_placement r) iter_pin_names r.

(** The filters of [_get_anchorable_pins]. *)
Inductive filt := both | placed | placeable.

Definition cond (f : filt) (p : RulerPin) : bool :=
  match f with
  | both => Pin.is_placed p || Pin.is_placeable p
  | placed => Pin.is_placed p
  | placeable => Pin.is_placeable p
  end.

(** The pins passed to [set(...)] by [_get_anchorable_pins], in the order
    they are inserted. *)
Definition anchorable_names (f : filt) (r : LinearRuler) : list PinName :=
  List.filter (fun n => cond f (get_pin n r)) iter_pin_names.

End Ruler.

Module Frame.

Definition get_ruler (a : Axis) (f : Frame) : LinearRuler :=
  match a with h_ruler => _h_ruler f | v_ruler => _v_ruler f end.

Definition upd_ruler (a : Axis) (g : LinearRuler -> LinearRuler) (f : Frame) : Frame :=
  match a with
  | h_ruler => mkFrame (name f) (parent f) (g (_h_ruler f)) (_v_ruler f)
  | v_ruler => mkFrame (name f) (parent f) (_h_ruler f) (g (_v_ruler f))
  end.

(** [Frame2DBase.__init__] after [ElementBase.__init__]. *)
Definition init (nm : string) (par : option FrameId) : Frame :=
  mkFrame nm par Ruler.init Ruler.init.

End Frame.

(** An identifier outside the heap denotes no object; reading through it
    sees a pristine anonymous frame and writing through it changes nothing. *)
#[global] Instance Frame_inhabited : Inhabited Frame :=
  populate (Frame.init "" None).

Section HeapAccess.

Definition ruler_at (h : Heap) (r : RulerId) : LinearRuler :=
  Frame.get_ruler (snd r) (h !!! fst r).

Definition pin_at (h : Heap) (p : PinId) : RulerPin :=
  Ruler.get_pin (pin_name p) (ruler_at h (pin_ruler p)).

Definition upd_ruler_at (r : RulerId) (g : LinearRuler -> LinearRuler)
    (h : Heap) : Heap :=
  alter (Frame.upd_ruler (snd r) g) (fst r) h.

Definition upd_pin_at (p : PinId) (g : RulerPin -> RulerPin) (h : Heap) : Heap :=
  upd_ruler_at (pin_ruler p) (Ruler.upd_pin (pin_name p) g) h.

End HeapAccess.

(** ** [base.py]: names *)

Module Element.

(** [ElementBase.set_name]: the name must not contain a slash. *)
Definition valid_name (nm : string) : bool := negb (Py.contains_char "/" nm).

(** [ElementBase.global_name] of a frame: the names along the parent
    chain, joined by slashes.  A chain longer than the heap runs through
    some frame twice, where Python recurses without end; that is [None]
    here. *)
Fixpoint frame_global_name_aux (fuel : nat) (h : Heap) (f : FrameId) : option string :=
  match fuel with
  | 0 => None
  | S fuel' =>
    let fr := h !!! f in
    match parent fr with
    | None => Some (name fr)
    | Some p =>
      match frame_global_name_aux fuel' h p with
      | Some s => Some (s ++ "/" ++ name fr)
      | None => None
      end
    end
  end.

Definition frame_global_name (h : Heap) (f : FrameId) : option string :=
  frame_global_name_aux (S (length h)) h f.

Definition ruler_global_name (h : Heap) (r : RulerId) : option string :=
  match frame_global_name h (fst r) with
  | Some s => Some (s ++ "/" ++ Ruler.name_of (snd r))
  | None => None
  end.

Definition pin_global_name (h : Heap) (p : PinId) : option string :=
  match ruler_global_name h (pin_ruler p) with
  | Some s => Some (s ++ "/" ++ Pin.name_of (pin_name p))
  | None => None
  end.

Definition node_global_name (h : Heap) (n : Node) : option string :=
  match n with
  | NFrame f => frame_global_name h f
  | NRuler r => ruler_global_name h r
  | NPin p => pin_global_name h p
  end.

(** [map(lambda x: x.global_name, l)] *)
Fixpoint global_names (h : Heap) (l : list Node) : option (list string) :=
  match l with
  | [] => Some []
  | n :: l' =>
    match node_global_name h n with
    | Some s =>
      match global_names h l' with
      | Some ss => Some (s :: ss)
      | None => None
      end
    | None => None
    end
  end.

(** Reading [x.global_name] inside a computation. *)
Definition global_name (n : Node) : M Heap string :=
  fun h =>
    match node_global_name h n with
    | Some s => (Ok s, h)
    | None => (Raise RecursionError, h)
    end.

End Element.

(** ** [pin.py], [ruler.py], [frame.py] on the heap *)

Section Placement.

(** [LinearRuler._get_anchorable_pins] returns a [set] of pins, which
    hash by address: the order in which such a set is iterated is not
    fixed by the program.  [set_iter r l] is the order in which the set
    built from the pins [l] of ruler [r] is iterated. *)
Variable set_iter : RulerId -> list PinName -> list PinName.

Definition set_iter_ok : Prop :=
  forall r l, Permutation (set_iter r l) l.

(** *** Pins *)

(** [PinBase.solve_placement] *)
Definition pin_solve_placement (p : PinId) : M Heap unit :=
  self <- gets (fun h => pin_at h p) ;;
  match figpos_ref self with
  | None => raise AttributeError
  | Some ref =>
    rpin <- gets (fun h => pin_at h ref) ;;
    match figpos rpin with
    | None =>
      Element.global_name (NPin ref) ;;
      Element.global_name (NPin p) ;;
      raise PlacementUnsolvableError
    | Some rpos =>
      modify (upd_pin_at p
        (Pin.set_placement (Some (PrimFloat.add rpos (figpos_offset self)))))
    end
  end.

(** [PinBase.verify_placement] *)
Definition pin_verify_placement (p : PinId) : M Heap unit :=
  self <- gets (fun h => pin_at h p) ;;
  match figpos_ref self with
  | None => ret tt
  | Some ref =>
    rpin <- gets (fun h => pin_at h ref) ;;
    match figpos self, figpos rpin with
    | Some pos, Some rpos =>
      let offset := PrimFloat.sub pos rpos in
      if negb (Py.isclose offset (figpos_offset self)) then
        Element.global_name (NPin p) ;;
        Element.global_name (NPin ref) ;;
        raise IncomplyingPlacementError
      else ret tt
    | _, _ => raise PlacementError
    end
  end.

(** [RulerPin._get_dependency] as used by [PinBase.get_dependencies] *)
Definition pin_get_dependencies (h : Heap) (p : PinId) : list Node :=
  match figpos_ref (pin_at h p) with
  | Some ref => [NPin ref]
  | None => [NRuler (pin_ruler p)]
  end.

(** *** Rulers *)

(** [LinearRuler.calc_ruler_length].  The literal [0] of the source is
    the integer zero; it only ever enters float arithmetic, where it
    converts to [0.0]. *)
Definition calc_ruler_length (rid : RulerId) (r : LinearRuler) : outcome float :=
  let placed_pins := Ruler.anchorable_names Ruler.placed r in
  if (length placed_pins <? 2)%nat then Ok Py.zero
  else
    match set_iter rid placed_pins with
    | rp1 :: rp2 :: _ =>
      if Py.eq (Pin.ruler_pos rp1) (Pin.ruler_pos rp2) then Ok Py.zero
      else
        match figpos (Ruler.get_pin rp1 r), figpos (Ruler.get_pin rp2 r) with
        | Some x1, Some x2 =>
          let den := PrimFloat.sub (Pin.ruler_pos rp1) (Pin.ruler_pos rp2) in
          if Py.eq den Py.zero then Raise ZeroDivisionError
          else Ok (PrimFloat.div (PrimFloat.sub x1 x2) den)
        | _, _ => Raise TypeError
        end
    | _ => Raise ValueError
    end.

(** [RulerBase.get_ruler_length] *)
Definition get_ruler_length (allow_calculated : bool) (rid : RulerId)
    (r : LinearRuler) : outcome (option float) :=
  match _ruler_length r with
  | Some v => Ok (Some v)
  | None =>
    if allow_calculated then
      match calc_ruler_length rid r with
      | Ok v => Ok (Some v)
      | Raise e => Raise e
      | OutOfFuel => OutOfFuel
      end
    else Ok None
  end.

(** [RulerBase.set_ruler_length] *)
Definition set_ruler_length (rid : RulerId) (value : option float) : M Heap unit :=
  match value with
  | Some v =>
    if Py.lt v Py.zero then raise ValueError
    else modify (upd_ruler_at rid (Ruler.with_length value))
  | None => modify (upd_ruler_at rid (Ruler.with_length value))
  end.

(** [RulerBase.clear_ruler_length] *)
Definition clear_ruler_length (rid : RulerId) : M Heap unit :=
  set_ruler_length rid None.

(** [LinearRuler.is_placeable] *)
Definition ruler_is_placeable (r : LinearRuler) : bool :=
  let count := length (Ruler.anchorable_names Ruler.both r) in
  let count :=
    match _ruler_length r with
    | Some _ => (count + 1)%nat
    | None => count
    end in
  (2 <=? count)%nat.

(** [RulerBase.get_dependencies] *)
Definition ruler_get_dependencies (h : Heap) (rid : RulerId) : list Node :=
  map (fun n => NPin (pin_of rid n))
    (Ruler.anchorable_names Ruler.placeable (ruler_at h rid)).

(** The body of the loop of [LinearRuler.solve_placement]. *)
Definition place_from (rid : RulerId) (rp : PinName) (rlen : float)
    (n : PinName) : M Heap unit :=
  p <- gets (fun h => pin_at h (pin_of rid n)) ;;
  if Pin.is_placed p then ret tt
  else
    rpin <- gets (fun h => pin_at h (pin_of rid rp)) ;;
    match figpos rpin with
    | None => raise TypeError
    | Some x =>
      modify (upd_pin_at (pin_of rid n)
        (Pin.set_placement (Some
          (PrimFloat.add x
            (PrimFloat.mul (PrimFloat.sub (Pin.ruler_pos n) (Pin.ruler_pos rp))
               rlen)))))
    end.

(** [LinearRuler.solve_placement] *)
Definition ruler_solve_placement (rid : RulerId) : M Heap unit :=
  r <- gets (fun h => ruler_at h rid) ;;
  if negb (ruler_is_placeable r) then
    Element.global_name (NRuler rid) ;;
    raise PlacementUnsolvableError
  else
    match get_ruler_length true rid r with
    | Raise e => raise e
    | OutOfFuel => out_of_fuel
    | Ok None => raise DependencyUnplacedError
    | Ok (Some rlen) =>
      match set_iter rid (Ruler.anchorable_names Ruler.placed r) with
      | [] => raise ValueError
      | rp :: _ => for_each Ruler.iter_pin_names (place_from rid rp rlen)
      end
    end.

(** [LinearRuler.verify_placement] *)
Definition ruler_verify_placement (rid : RulerId) : M Heap unit :=
  for_each Ruler.iter_pin_names
    (fun n => pin_verify_placement (pin_of rid n)) ;;
  r <- gets (fun h => ruler_at h rid) ;;
  match figpos (pmax_pin r), figpos (pmin_pin r), figpos (pmid_pin r) with
  | Some xmax, Some xmin, Some xmid =>
    if negb (Py.isclose (PrimFloat.add xmax xmin)
               (PrimFloat.mul xmid 2%float)) then
      for_each [pmin; pmid; pmax]
        (fun n => Element.global_name (NPin (pin_of rid n)) ;; ret tt) ;;
      raise IncomplyingPlacementError
    else if Py.lt xmax xmin then
      for_each [pmax; pmin]
        (fun n => Element.global_name (NPin (pin_of rid n)) ;; ret tt) ;;
      raise IncomplyingPlacementError
    else ret tt
  | _, _, _ => raise TypeError
  end.

(** *** Frames *)

(** [RectangularFrame.__anchors_getter]: the horizontal and the vertical
    pin behind each anchor, in the order of the dictionary. *)
Definition anchors_table : list (string * (PinName * PinName)) :=
  [ ("bottomleft", (pmin, pmin)); ("bottom", (pmid, pmin));
    ("bottomright", (pmax, pmin));
    ("left", (pmin, pmid)); ("center", (pmid, pmid)); ("right", (pmax, pmid));
    ("topleft", (pmin, pmax)); ("top", (pmid, pmax)); ("topright", (pmax, pmax)) ].

Fixpoint assoc {B} (k : string) (l : list (string * B)) : option B :=
  match l with
  | [] => None
  | (k', v) :: l' => if String.eqb k k' then Some v else assoc k l'
  end.

(** [RectangularFrame.iter_anchor_names] *)
Definition iter_anchor_names : list string := map fst anchors_table.

(** [RectangularFrame.get_ruler_pins_by_anchor_name] *)
Definition get_ruler_pins_by_anchor_name (f : FrameId) (anchor : string)
    : outcome (PinId * PinId) :=
  match assoc (Py.lower anchor) anchors_table with
  | None => Raise ValueError
  | Some (ph, pv) => Ok (mkPin f h_ruler ph, mkPin f v_ruler pv)
  end.

Definition pins_by_anchor {S} (f : FrameId) (anchor : string) : M S (PinId * PinId) :=
  match get_ruler_pins_by_anchor_name f anchor with
  | Ok ps => ret ps
  | Raise e => raise e
  | OutOfFuel => out_of_fuel
  end.

(** [Frame2DBase.get_extent] *)
Definition get_extent (h : Heap) (f : FrameId)
    : option float * option float * option float * option float :=
  (figpos (pmin_pin (ruler_at h (f, h_ruler))),
   figpos (pmax_pin (ruler_at h (f, h_ruler))),
   figpos (pmin_pin (ruler_at h (f, v_ruler))),
   figpos (pmax_pin (ruler_at h (f, v_ruler)))).

(** [Frame2DBase.get_dependencies] *)
Definition frame_get_dependencies (f : FrameId) : list RulerId :=
  [(f, h_ruler); (f, v_ruler)].

(** [Frame2DBase.is_placeable] *)
Definition frame_is_placeable (h : Heap) (f : FrameId) : bool :=
  forallb (fun r => ruler_is_placeable (ruler_at h r)) (frame_get_dependencies f).

(** [Frame2DBase.is_placed] *)
Definition frame_is_placed (h : Heap) (f : FrameId) : bool :=
  forallb (fun r => Ruler.is_placed (ruler_at h r)) (frame_get_dependencies f).

(** [Frame2DBase.get_placement] *)
Definition get_placement (h : Heap) (f : FrameId) (anchor : string)
    : outcome (option float * option float) :=
  match get_ruler_pins_by_anchor_name f anchor with
  | Ok (p1, p2) => Ok (figpos (pin_at h p1), figpos (pin_at h p2))
  | Raise e => Raise e
  | OutOfFuel => OutOfFuel
  end.

(** [Frame2DBase.set_placement].  The test of the source is
    [isinstance(position, tuple) or isinstance(offsets, list)], and this
    method binds no name [offsets]: the second disjunct is reached for
    every [position] that is not a tuple, and evaluating it raises
    [NameError]. *)
Definition set_placement (f : FrameId) (anchor : string) (position : Py.value)
    : M Heap unit :=
  is_seq <- match position with
            | Py.Tuple _ => ret true
            | _ => raise NameError
            end ;;
  let len := match position with
             | Py.Tuple items | Py.List items => length items
             | Py.Other => 0
             end in
  if negb (is_seq && (len =? 2)%nat) then raise TypeError
  else
    pins <- pins_by_anchor f anchor ;;
    match position with
    | Py.Tuple [x; y] | Py.List [x; y] =>
      modify (upd_pin_at (fst pins) Pin.clear_placement_ref) ;;
      modify (upd_pin_at (fst pins) (Pin.set_placement (Some x))) ;;
      modify (upd_pin_at (snd pins) Pin.clear_placement_ref) ;;
      modify (upd_pin_at (snd pins) (Pin.set_placement (Some y)))
    | _ => ret tt
    end.

(** [Frame2DBase.clear_placement]; [anchor = None] clears every anchor. *)
Definition clear_placement (f : FrameId) (anchor : option string) : M Heap unit :=
  let _it := match anchor with
             | None => iter_anchor_names
             | Some a => [a]
             end in
  for_each _it (fun a =>
    pins <- pins_by_anchor f a ;;
    modify (upd_pin_at (fst pins) Pin.clear_placement) ;;
    modify (upd_pin_at (snd pins) Pin.clear_placement)).

(** [Frame2DBase.set_anchor].  [ref_frame] is a frame or [None]; the
    [TypeError] for a reference that is no frame has no counterpart
    here. *)
Definition set_anchor (f : FrameId) (anchor : string)
    (ref_frame : option FrameId) (ref_anchor : option string)
    (offsets : option Py.value) : M Heap unit :=
  self <- gets (fun h => h !!! f) ;;
  ref_frame <- match ref_frame with
               | Some rf => ret rf
               | None =>
                 match parent self with
                 | None => Element.global_name (NFrame f) ;; raise ValueError
                 | Some p => ret p
                 end
               end ;;
  let offsets := match offsets with
                 | None => Py.Tuple [0.0%float; 0.0%float]
                 | Some o => o
                 end in
  match offsets with
  | Py.Tuple [dx; dy] | Py.List [dx; dy] =>
    let ref_anchor := match ref_anchor with
                      | None => anchor
                      | Some a => a
                      end in
    pins <- pins_by_anchor f anchor ;;
    prefs <- pins_by_anchor ref_frame ref_anchor ;;
    modify (upd_pin_at (fst pins) (Pin.set_placement_ref (Some (fst prefs)) dx)) ;;
    modify (upd_pin_at (snd pins) (Pin.set_placement_ref (Some (snd prefs)) dy))
  | _ => raise TypeError
  end.

(** [Frame2DBase.clear_anchor] *)
Definition clear_anchor (f : FrameId) (anchor : string) : M Heap unit :=
  pins <- pins_by_anchor f anchor ;;
  modify (upd_pin_at (fst pins) Pin.clear_placement_ref) ;;
  modify (upd_pin_at (snd pins) Pin.clear_placement_ref).

(** [Frame2DBase.solve_placement] *)
Definition frame_solve_placement (f : FrameId) : M Heap unit :=
  for_each (frame_get_dependencies f) ruler_solve_placement.

(** [Frame2DBase.verify_placement] *)
Definition frame_verify_placement (f : FrameId) : M Heap unit :=
  for_each (frame_get_dependencies f) ruler_verify_placement.

(** [RectangularFrame.set_width], [set_height], [set_size] *)
Definition set_width (f : FrameId) (value : option float) : M Heap unit :=
  set_ruler_length (f, h_ruler) value.
Definition set_height (f : FrameId) (value : option float) : M Heap unit :=
  set_ruler_length (f, v_ruler) value.
Definition set_size (f : FrameId) (width height : option float) : M Heap unit :=
  set_width f width ;; set_height f height.

(** [RectangularFrame.get_width], [get_height] *)
Definition get_width (h : Heap) (f : FrameId) : outcome (option float) :=
  get_ruler_length true (f, h_ruler) (ruler_at h (f, h_ruler)).
Definition get_height (h : Heap) (f : FrameId) : outcome (option float) :=
  get_ruler_length true (f, v_ruler) (ruler_at h (f, v_ruler)).

(** [RectangularFrame(nm, parent = par)]: the new object gets the next
    free identifier. *)
Definition new_frame (nm : string) (par : option FrameId) : M Heap FrameId :=
  if negb (Element.valid_name nm) then raise ValueError
  else fun h => (Ok (length h), (h ++ [Frame.init nm par])%list).

(** ** [base.py]: the recursive solver *)

(** The methods of [PlaceableElementBase], by the class of the node. *)
Definition is_placed (h : Heap) (n : Node) : bool :=
  match n with
  | NFrame f => frame_is_placed h f
  | NRuler r => Ruler.is_placed (ruler_at h r)
  | NPin p => Pin.is_placed (pin_at h p)
  end.

Definition is_placeable (h : Heap) (n : Node) : bool :=
  match n with
  | NFrame f => frame_is_placeable h f
  | NRuler r => ruler_is_placeable (ruler_at h r)
  | NPin p => Pin.is_placeable (pin_at h p)
  end.

Definition get_dependencies (h : Heap) (n : Node) : list Node :=
  match n with
  | NFrame f => map NRuler (frame_get_dependencies f)
  | NRuler r => ruler_get_dependencies h r
  | NPin p => pin_get_dependencies h p
  end.

Definition solve_placement (n : Node) : M Heap unit :=
  match n with
  | NFrame f => frame_solve_placement f
  | NRuler r => ruler_solve_placement r
  | NPin p => pin_solve_placement p
  end.

Definition verify_placement (n : Node) : M Heap unit :=
  match n with
  | NFrame f => frame_verify_placement f
  | NRuler r => ruler_verify_placement r
  | NPin p => pin_verify_placement p
  end.

(** The solver mutates the heap and the list [dep_path], which the
    caller and every recursive call share. *)
Record SolverState := mkSolver { st_heap : Heap; dep_path : list Node }.

Definition on_heap {A} (m : M Heap A) : M SolverState A :=
  zoom st_heap (fun h st => mkSolver h (dep_path st)) m.

Definition path_append (n : Node) (st : SolverState) : SolverState :=
  mkSolver (st_heap st) (dep_path st ++ [n])%list.

Definition path_pop (st : SolverState) : SolverState :=
  mkSolver (st_heap st) (removelast (dep_path st)).

Definition circular_message (names : list string) : string :=
  "circular dependency found: " ++ Py.join "=>" names.

(** The body of [PlaceableElementBase.solve_placement_resursive], with
    [dep_path] given; [recur] stands for the method itself in the call
    [dep.solve_placement_resursive(dep_path = dep_path)]. *)
Definition solve_body (recur : Node -> M SolverState unit) (self : Node)
    : M SolverState unit :=
  path <- gets dep_path ;;
  if bool_decide (self ∈ path) then
    h <- gets st_heap ;;
    match Element.global_names h (path ++ [self])%list with
    | Some names => raise (CircularDependencyError (circular_message names))
    | None => raise RecursionError
    end
  else
    placed <- gets (fun st => is_placed (st_heap st) self) ;;
    if negb placed then
      modify (path_append self) ;;
      deps <- gets (fun st => get_dependencies (st_heap st) self) ;;
      for_each deps recur ;;
      placed <- gets (fun st => is_placed (st_heap st) self) ;;
      (if negb placed then on_heap (solve_placement self) else ret tt) ;;
      modify path_pop
    else ret tt.

(** [PlaceableElementBase.solve_placement_resursive]; [fuel] bounds the
    depth of the recursion. *)
Fixpoint solve_placement_resursive (fuel : nat) (self : Node) : M SolverState unit :=
  match fuel with
  | 0 => out_of_fuel
  | S fuel' => solve_body (solve_placement_resursive fuel') self
  end.

(** [solve_placement_resursive()] without [dep_path]: a fresh list, which
    is dropped at the end. *)
Definition solve (fuel : nat) (self : Node) : M Heap unit :=
  zoom (fun h => mkSolver h []) (fun st _ => st_heap st)
    (solve_placement_resursive fuel self).

End Placement.

(** ** [layout.py]: the layout creator *)

(** The attributes of a [LayoutCreator]; [frames] is the insertion-ordered
    dictionary [__frames]. *)
Record LayoutCreator := mkLayout {
  layout_name : string;
  origin : string;
  left_margin : float;
  right_margin : float;
  top_margin : float;
  bottom_margin : float;
  canvas_frame : FrameId;
  frames : list (string * FrameId)
}.

(** The heap together with the warnings issued so far. *)
Record World := mkWorld { heap : Heap; warnings : list string }.

(** The classes [add_frame] can be asked to instantiate: the default
    [LayoutAxesFrame], or a class outside [LayoutElementFrameBase]. *)
Inductive FrameClass := LayoutAxesFrame | NotLayoutElement.

Section Layout.

Variable set_iter : RulerId -> list PinName -> list PinName.

Definition in_heap {A} (m : M Heap A) : M World A :=
  zoom heap (fun h w => mkWorld h (warnings w)) m.

(** [warnings.warn] *)
Definition warn (msg : string) : M World unit :=
  modify (fun w => mkWorld (heap w) (warnings w ++ [msg])%list).

(** [LayoutCreator.__init__]; the canvas frame is made on first use of
    the property [canvas_frame], which is here. *)
Definition new_layout (nm : string) (orig : string)
    (canvas_width canvas_height : option float)
    (lm rm tm bm : float) : M Heap LayoutCreator :=
  c <- new_frame "canvas" None ;;
  set_size c canvas_width canvas_height ;;
  ret (mkLayout nm orig lm rm tm bm c []).

(** [LayoutCreator.iter_frames] *)
Definition iter_frames (lc : LayoutCreator) : list FrameId := map snd (frames lc).

(** [name in self.__frames] *)
Definition registered (nm : string) (lc : LayoutCreator) : bool :=
  existsb (fun kv => String.eqb nm (fst kv)) (frames lc).

(** [self.__frames[name] = frame] for a name that is not a key yet. *)
Definition register (nm : string) (f : FrameId) (lc : LayoutCreator) : LayoutCreator :=
  mkLayout (layout_name lc) (origin lc) (left_margin lc) (right_margin lc)
    (top_margin lc) (bottom_margin lc) (canvas_frame lc)
    (frames lc ++ [(nm, f)])%list.

(** [LayoutCreator.get_frame] *)
Definition get_frame (lc : LayoutCreator) (nm : string) : option FrameId :=
  assoc nm (frames lc).

(** [LayoutCreator.add_frame]; the result carries the updated creator. *)
Definition add_frame (lc : LayoutCreator) (nm : string) (frame_class : FrameClass)
    : M Heap (FrameId * LayoutCreator) :=
  if registered nm lc then raise ValueError
  else if String.eqb nm "figure" then raise ValueError
  else
    match frame_class with
    | NotLayoutElement => raise TypeError
    | LayoutAxesFrame =>
      f <- new_frame nm (Some (canvas_frame lc)) ;;
      ret (f, register nm f lc)
    end.

(** [min(...)] and [max(...)] over an iterable whose items may be [None]:
    no item raises [ValueError], and comparing with [None] raises
    [TypeError]. *)
Fixpoint py_fold (pick : float -> float -> float) (acc : option float)
    (l : list (option float)) : outcome (option float) :=
  match l with
  | [] => Ok acc
  | item :: l' =>
    match acc, item with
    | Some a, Some i => py_fold pick (Some (pick a i)) l'
    | _, _ => Raise TypeError
    end
  end.

Definition py_min (l : list (option float)) : outcome (option float) :=
  match l with
  | [] => Raise ValueError
  | x :: l' => py_fold Py.min2 x l'
  end.

Definition py_max (l : list (option float)) : outcome (option float) :=
  match l with
  | [] => Raise ValueError
  | x :: l' => py_fold Py.max2 x l'
  end.

(** [LayoutCreator._calc_inclusive_rlen] *)
Definition _calc_inclusive_rlen (pin_placement : option float) (rpos : float)
    (inc_min inc_max : option float) : outcome float :=
  match pin_placement with
  | None => Raise AssertionError
  | Some x =>
    if negb (Py.eq x Py.zero) then Raise AssertionError
    else
      let rlen_u :=
        if Py.eq rpos 1.0%float then Ok Py.zero
        else
          match inc_max with
          | None => Raise TypeError
          | Some hi =>
            let den := PrimFloat.sub 1.0%float rpos in
            if Py.eq den Py.zero then Raise ZeroDivisionError
            else Ok (PrimFloat.div hi den)
          end in
      match rlen_u with
      | Ok rlen_u =>
        let rlen_l :=
          if Py.eq rpos 0.0%float then Ok Py.zero
          else
            match inc_min with
            | None => Raise TypeError
            | Some lo =>
              if Py.eq rpos Py.zero then Raise ZeroDivisionError
              else Ok (PrimFloat.div (PrimFloat.opp lo) rpos)
            end in
        match rlen_l with
        | Ok rlen_l => Ok (Py.max3 rlen_u rlen_l Py.zero)
        | e => e
        end
      | e => e
      end
  end.

Definition lift_outcome {S A} (o : outcome A) : M S A :=
  match o with
  | Ok a => ret a
  | Raise e => raise e
  | OutOfFuel => out_of_fuel
  end.

(** The low and the high extent of a frame on an axis:
    [f.get_extent()[idx * 2]] and [f.get_extent()[idx * 2 + 1]]. *)
Definition extent_low (h : Heap) (a : Axis) (f : FrameId) : option float :=
  figpos (pmin_pin (ruler_at h (f, a))).
Definition extent_high (h : Heap) (a : Axis) (f : FrameId) : option float :=
  figpos (pmax_pin (ruler_at h (f, a))).

(** The pin of the origin anchor on an axis:
    [get_ruler_pins_by_anchor_name(self.origin)[idx]]. *)
Definition origin_pin (lc : LayoutCreator) (a : Axis) : outcome PinId :=
  match get_ruler_pins_by_anchor_name (canvas_frame lc) (origin lc) with
  | Ok (p1, p2) => Ok (match a with h_ruler => p1 | v_ruler => p2 end)
  | Raise e => Raise e
  | OutOfFuel => OutOfFuel
  end.

(** The arguments and the call of [_calc_inclusive_rlen] in the last
    branch of [_solve_canvas_ruler_placement]. *)
Definition auto_rlen (lc : LayoutCreator) (a : Axis) (h : Heap) : outcome float :=
  match origin_pin lc a with
  | Ok rp =>
    match py_min (map (extent_low h a) (iter_frames lc)) with
    | Ok inc_min =>
      match py_max (map (extent_high h a) (iter_frames lc)) with
      | Ok inc_max =>
        _calc_inclusive_rlen (figpos (pin_at h rp)) (Pin.ruler_pos (pin_name rp))
          inc_min inc_max
      | Raise e => Raise e
      | OutOfFuel => OutOfFuel
      end
    | Raise e => Raise e
    | OutOfFuel => OutOfFuel
    end
  | Raise e => Raise e
  | OutOfFuel => OutOfFuel
  end.

Definition size_warning (dim : string) : string :=
  "canvas " ++ dim ++ " cannot be determined automatically. "
  ++ "try manually set using set_canvas_" ++ dim ++ "() or "
  ++ "set_canvas_size() instead".

(** The last branch of [_solve_canvas_ruler_placement]: the ruler is
    neither placed nor placeable. *)
Definition auto_size (fuel : nat) (lc : LayoutCreator) (dim : string) (a : Axis)
    : M World unit :=
  let ruler := (canvas_frame lc, a) in
  rlen <- (h <- gets heap ;; lift_outcome (auto_rlen lc a h)) ;;
  (if Py.eq rlen Py.zero then warn (size_warning dim) else ret tt) ;;
  in_heap (set_ruler_length ruler (Some rlen)) ;;
  in_heap (solve set_iter fuel (NRuler ruler)) ;;
  in_heap (clear_ruler_length ruler).

(** [LayoutCreator._solve_canvas_ruler_placement] *)
Definition _solve_canvas_ruler_placement (fuel : nat) (lc : LayoutCreator)
    (dim : string) : M World unit :=
  a <- (if String.eqb dim "width" then ret h_ruler
        else if String.eqb dim "height" then ret v_ruler
        else raise ValueError) ;;
  let ruler := (canvas_frame lc, a) in
  r <- gets (fun w => ruler_at (heap w) ruler) ;;
  (if Ruler.is_placed r then ret tt
   else if ruler_is_placeable r then in_heap (solve set_iter fuel (NRuler ruler))
   else auto_size fuel lc dim a) ;;
  in_heap (ruler_verify_placement ruler).

(** [LayoutCreator.place_all_frames] *)
Definition place_all_frames (fuel : nat) (lc : LayoutCreator) : M World unit :=
  in_heap (clear_placement (canvas_frame lc) None) ;;
  in_heap (set_placement (canvas_frame lc) (origin lc)
             (Py.Tuple [0.0%float; 0.0%float])) ;;
  for_each (iter_frames lc) (fun f => in_heap (clear_placement f None)) ;;
  for_each (iter_frames lc) (fun f => in_heap (solve set_iter fuel (NFrame f))) ;;
  for_each (iter_frames lc) (fun f => in_heap (frame_verify_placement f)) ;;
  _solve_canvas_ruler_placement fuel lc "width" ;;
  _solve_canvas_ruler_placement fuel lc "height".

End Layout.

(** ** The properties as the specification words them *)

Module Spec.

(** A pin counts when it is already placed or reference-constrained. *)
Definition pin_counts (p : RulerPin) : nat :=
  match figpos p, figpos_ref p with
  | None, None => 0
  | _, _ => 1
  end.

(** The number of the three pins that count. *)
Definition anchorable_pins (r : LinearRuler) : nat :=
  pin_counts (pmax_pin r) + pin_counts (pmid_pin r) + pin_counts (pmin_pin r).

(** One virtual count when an explicit length is set. *)
Definition explicit_length_slot (r : LinearRuler) : nat :=
  match _ruler_length r with
  | Some _ => 1
  | None => 0
  end.

(** The names the specification reserves: the token the factory rejects,
    and the name of the canvas. *)
Definition reserved_tokens : list string := ["figure"; "canvas"].





End Spec.

(** ** Notions used in the statements *)

(** What a call of the solver does to the shared path: restored on
    return, only extended when the call does not return. *)
Definition path_effect (r : outcome unit) (p p' : list Node) : Prop :=
  match r with
  | Ok _ => p' = p
  | _ => p `prefix_of` p'
  end.

(** *** The nodes the solver can reach *)













(** What the loop of [LinearRuler.solve_placement] does to the ruler
    itself: every pin without a position gets the one interpolated from
    the anchor pin [rp], placed at [x], and the length [rlen]. *)
Definition place_pin (rp : PinName) (x rlen : float) (n : PinName)
    (r : LinearRuler) : LinearRuler :=
  if Pin.is_placed (Ruler.get_pin n r) then r
  else
    Ruler.upd_pin n
      (Pin.set_placement (Some
        (PrimFloat.add x
          (PrimFloat.mul (PrimFloat.sub (Pin.ruler_pos n) (Pin.ruler_pos rp)) rlen))))
      r.

Definition place_pins (rp : PinName) (x rlen : float) (r : LinearRuler) : LinearRuler :=
  fold_left (fun r n => place_pin rp x rlen n r) Ruler.iter_pin_names r.

(** A computation that leaves the state as it is, whatever it returns. *)
Definition readonly {S A} (m : M S A) : Prop := forall s, snd (m s) = s.

(** The axis a dimension name selects in
    [_solve_canvas_ruler_placement]. *)
Definition axis_of_dim (dim : string) : option Axis :=
  if String.eqb dim "width" then Some h_ruler
  else if String.eqb dim "height" then Some v_ruler
  else None.

(** *** Constraints and placements *)

(** A frame with every position forgotten: what is left are the declared
    constraints (references, offsets, explicit lengths). *)
Definition erase_frame (fr : Frame) : Frame :=
  mkFrame (name fr) (parent fr)
    (Ruler.clear_placement (_h_ruler fr)) (Ruler.clear_placement (_v_ruler fr)).

(** The heap with all placements cleared. *)
Definition erase (h : Heap) : Heap := map erase_frame h.


(** What [set_placement(anchor, (x, y))] does to the frame, for the pins
    [ph] and [pv] behind the anchor. *)
Definition place_at (x : float) (p : RulerPin) : RulerPin :=
  Pin.set_placement (Some x) (Pin.clear_placement_ref p).

Definition anchor_frame (ph pv : PinName) (x y : float) (fr : Frame) : Frame :=
  Frame.upd_ruler v_ruler (Ruler.upd_pin pv (place_at y))
    (Frame.upd_ruler h_ruler (Ruler.upd_pin ph (place_at x)) fr).

(** The canvas frame with its origin put at (0, 0). *)
Definition origin_frame (ph pv : PinName) (fr : Frame) : Frame :=
  anchor_frame ph pv 0.0%float 0.0%float fr.

(** The first part of [place_all_frames]: the placements are cleared and
    the origin is put at (0, 0). *)
Definition prepare (lc : LayoutCreator) : M Heap unit :=
  clear_placement (canvas_frame lc) None ;;
  set_placement (canvas_frame lc) (origin lc) (Py.Tuple [0.0%float; 0.0%float]) ;;
  for_each (iter_frames lc) (fun f => clear_placement f None).

(** The second part of [place_all_frames]: the frames are solved and
    verified, then the canvas rulers. *)
Definition solve_all (set_iter : RulerId -> list PinName -> list PinName)
    (fuel : nat) (lc : LayoutCreator) : M World unit :=
  for_each (iter_frames lc) (fun f => in_heap (solve set_iter fuel (NFrame f))) ;;
  for_each (iter_frames lc) (fun f => in_heap (frame_verify_placement f)) ;;
  _solve_canvas_ruler_placement set_iter fuel lc "width" ;;
  _solve_canvas_ruler_placement set_iter fuel lc "height".

(** The heap [prepare] leaves when the origin anchor stands for the pins
    [ph] and [pv]. *)
Definition clear_frames (l : list FrameId) (h : Heap) : Heap :=
  fold_left (fun h f => alter erase_frame f h) l h.

Definition prepared (lc : LayoutCreator) (ph pv : PinName) (h : Heap) : Heap :=
  clear_frames (iter_frames lc)
    (alter (origin_frame ph pv) (canvas_frame lc)
       (alter erase_frame (canvas_frame lc) h)).

(** A computation that leaves an observation of the state as it is,
    whatever it returns. *)
Definition stable {S T A} (obs : S -> T) (m : M S A) : Prop :=
  forall s, obs (snd (m s)) = obs s.



(** ** Objects used as instances *)

Module Examples.

(** Sets iterated in insertion order. *)
Definition insertion_order : RulerId -> list PinName -> list PinName :=
  fun _ l => l.

(** [LayoutCreator()] in an empty heap. *)
Definition default_layout : LayoutCreator :=
  mkLayout "unnamed-layout" "bottomleft" 0.5%float 0.5%float 0.5%float 0.5%float 0 [].
Definition canvas_only : Heap := [Frame.init "canvas" None].


(** A frame with nothing set. *)
Definition bare_frame : Heap := [Frame.init "A" None].

(** A layout with one frame, anchored to the canvas and sized, before
    any solve. *)
Definition one_frame_layout : LayoutCreator :=
  register "A" 1 default_layout.
Definition one_frame_heap : Heap :=
  Eval vm_compute in
    snd ((new_frame "A" (Some 0) ;;
          set_anchor 1 "bottomleft" None None
            (Some (Py.Tuple [1%float; 0.5%float])) ;;
          set_size 1 (Some 4%float) (Some 2.5%float)) canvas_only).

(** The same layout after the frames have been solved and before the
    canvas is sized: the state in which [place_all_frames] reaches
    [_solve_canvas_ruler_placement]. *)
Definition one_frame_solved : Heap :=
  Eval vm_compute in
    snd ((clear_placement 0 None ;;
          set_placement 0 "bottomleft" (Py.Tuple [0%float; 0%float]) ;;
          clear_placement 1 None ;;
          solve insertion_order 5 (NFrame 1)) one_frame_heap).

(** The layout with its frame placed directly instead: [bottomleft] put
    at (0, 0) and the size set to 4 by 2.5. *)
Definition direct_heap : Heap :=
  Eval vm_compute in
    snd ((new_frame "A" (Some 0) ;;
          set_placement 1 "bottomleft" (Py.Tuple [0%float; 0%float]) ;;
          set_size 1 (Some 4%float) (Some 2.5%float)) canvas_only).

(** [LayoutCreator(canvas_width = 4, canvas_height = 2.5)] without frames. *)
Definition sized_canvas : Heap :=
  Eval vm_compute in
    snd (new_layout "unnamed-layout" "bottomleft" (Some 4%float) (Some 2.5%float)
           0.5%float 0.5%float 0.5%float 0.5%float []).


End Examples.

(** ** More of [pin.py], [frame.py] and [layout.py] *)

(** [PinBase.get_placement_ref] *)
Definition pin_get_placement_ref (p : RulerPin) : option PinId * float :=
  (figpos_ref p, figpos_offset p).

(** [Frame2DBase.get_anchor] *)
Definition get_anchor (h : Heap) (f : FrameId) (anchor : string)
    : outcome ((option PinId * float) * (option PinId * float)) :=
  match get_ruler_pins_by_anchor_name f anchor with
  | Ok (p1, p2) =>
    Ok (pin_get_placement_ref (pin_at h p1), pin_get_placement_ref (pin_at h p2))
  | Raise e => Raise e
  | OutOfFuel => OutOfFuel
  end.

(** Sequencing of calls that return or raise without touching the state. *)
Definition and_then {A B} (o : outcome A) (k : A -> outcome B) : outcome B :=
  match o with
  | Ok a => k a
  | Raise e => Raise e
  | OutOfFuel => OutOfFuel
  end.

(** A number where Python may find [None]: arithmetic on [None] raises
    [TypeError]. *)
Definition number (x : option float) : outcome float :=
  match x with
  | Some v => Ok v
  | None => Raise TypeError
  end.

(** [x / y] on floats. *)
Definition truediv (x y : float) : outcome float :=
  if Py.eq y Py.zero then Raise ZeroDivisionError else Ok (PrimFloat.div x y).

Section Sizes.

Variable set_iter : RulerId -> list PinName -> list PinName.

(** [RectangularFrame.get_size] *)
Definition get_size (h : Heap) (f : FrameId) : outcome (option float * option float) :=
  and_then (get_width set_iter h f) (fun w =>
  and_then (get_height set_iter h f) (fun ht =>
  Ok (w, ht))).

(** [LayoutCreator.get_canvas_width], [get_canvas_height],
    [get_canvas_size] *)
Definition get_canvas_width (lc : LayoutCreator) (h : Heap) : outcome (option float) :=
  get_width set_iter h (canvas_frame lc).
Definition get_canvas_height (lc : LayoutCreator) (h : Heap) : outcome (option float) :=
  get_height set_iter h (canvas_frame lc).
Definition get_canvas_size (lc : LayoutCreator) (h : Heap)
    : outcome (option float * option float) :=
  get_size h (canvas_frame lc).

End Sizes.

(** [LayoutCreator.set_canvas_width], [set_canvas_height],
    [set_canvas_size] *)
Definition set_canvas_width (lc : LayoutCreator) (value : option float) : M Heap unit :=
  set_width (canvas_frame lc) value.
Definition set_canvas_height (lc : LayoutCreator) (value : option float) : M Heap unit :=
  set_height (canvas_frame lc) value.
Definition set_canvas_size (lc : LayoutCreator) (width height : option float)
    : M Heap unit :=
  set_size (canvas_frame lc) width height.

(** [LayoutAxesFrame.create_artist], up to the call of
    [figure.add_axes]: the rectangle [[left, bottom, width, height]] handed
    to it, in fractions of the figure.  The statements are evaluated in
    the order of the source, so that the first error is the one raised. *)
Definition create_artist (h : Heap) (f : FrameId)
    (left_margin right_margin bottom_margin top_margin : float)
    : outcome (list float) :=
  match parent (h !!! f) with
  | None => Raise AttributeError
  | Some par =>
    let '(fl, fr, fb, ft) := get_extent h par in
    let '(al, ar, ab, at_) := get_extent h f in
    and_then (number fr) (fun fr =>
    and_then (number fl) (fun fl =>
    let fwidth :=
      PrimFloat.add (PrimFloat.add left_margin (PrimFloat.sub fr fl)) right_margin in
    and_then (number ft) (fun ft =>
    and_then (number fb) (fun fb =>
    let fheight :=
      PrimFloat.add (PrimFloat.add bottom_margin (PrimFloat.sub ft fb)) top_margin in
    and_then (number al) (fun al =>
    and_then (truediv (PrimFloat.add (PrimFloat.sub al fl) left_margin) fwidth)
      (fun left =>
    and_then (number ab) (fun ab =>
    and_then (truediv (PrimFloat.add (PrimFloat.sub ab fb) bottom_margin) fheight)
      (fun bottom =>
    and_then (number ar) (fun ar =>
    and_then (truediv (PrimFloat.sub ar al) fwidth) (fun width =>
    and_then (number at_) (fun at_ =>
    and_then (truediv (PrimFloat.sub at_ ab) fheight) (fun height =>
    Ok [left; bottom; width; height]))))))))))))
  end.

(** *** The figure *)

(** A [matplotlib.figure.Figure] as far as this program deals with it:
    the number of children it has when it is handed over, and what the
    program asks of it, which is a size (the three positional arguments
    of [set_size_inches]) and axes (the rectangle of each [add_axes]). *)
Record Figure := mkFigure {
  n_children : nat;
  size_inches_calls : list (float * float * float);
  axes_added : list (list float)
}.

(** The errors of [create_figure_layout]: the two classes of
    [LayoutCreator], or whatever the placement raises. *)
Inductive layout_exn :=
| NonEmptyFigureError
| ElementNotPlacedError
| Placement (e : exn).

Inductive layout_outcome (A : Type) :=
| Built (a : A)
| Failed (e : layout_exn)
| Exhausted.
Arguments Built {A} a.
Arguments Failed {A} e.
Arguments Exhausted {A}.

(** What [create_figure_layout] touches: the heap with the warnings, and
    the figure. *)
Record Stage := mkStage { world : World; figure : Figure }.

(** The values of the dictionary [create_figure_layout] returns: the
    figure, or the artist made for a frame, which is known here by the
    rectangle it was made with. *)
Inductive layout_item :=
| TheFigure
| Axes (rect : list float).

(** [d[k] = v] on an insertion-ordered dictionary. *)
Fixpoint dict_set {B} (k : string) (v : B) (d : list (string * B)) : list (string * B) :=
  match d with
  | [] => [(k, v)]
  | (k', v') :: d' =>
    if String.eqb k k' then (k, v) :: d' else (k', v') :: dict_set k v d'
  end.

Section FigureLayout.

Variable set_iter : RulerId -> list PinName -> list PinName.

(** [LayoutCreator._is_figure_empty] *)
Definition _is_figure_empty (fig : Figure) : bool := (n_children fig =? 1)%nat.

(** [LayoutCreator._get_figure]; [fresh] is the figure
    [matplotlib.figure.Figure()] makes when none is given. *)
Definition _get_figure (fresh : Figure) (fig : option Figure) (force : bool)
    : layout_outcome Figure :=
  let fig := match fig with
             | None => fresh
             | Some g => g
             end in
  if negb (_is_figure_empty fig || force) then Failed NonEmptyFigureError
  else Built fig.

(** [figure.set_size_inches(w, h, forward)] *)
Definition set_size_inches (w h forward : float) (fig : Figure) : Figure :=
  mkFigure (n_children fig) (size_inches_calls fig ++ [(w, h, forward)])%list
    (axes_added fig).

(** [figure.add_axes(rect, ...)] *)
Definition add_axes (rect : list float) (fig : Figure) : Figure :=
  mkFigure (n_children fig) (size_inches_calls fig) (axes_added fig ++ [rect])%list.

(** [LayoutCreator._update_figure_size].  The call of the source is
    [set_size_inches(left_margin + cwidth + right_margin,
    bottom_margin + cheight, top_margin)]: the top margin is the third
    argument, not a term of the second. *)
Definition _update_figure_size (lc : LayoutCreator) (h : Heap) (fig : Figure)
    : layout_outcome Figure :=
  if negb (frame_is_placed h (canvas_frame lc)) then Failed ElementNotPlacedError
  else
    match get_size set_iter h (canvas_frame lc) with
    | Ok (cwidth, cheight) =>
      match number cwidth with
      | Ok cw =>
        match number cheight with
        | Ok ch =>
          Built (set_size_inches
                   (PrimFloat.add (PrimFloat.add (left_margin lc) cw) (right_margin lc))
                   (PrimFloat.add (bottom_margin lc) ch)
                   (top_margin lc) fig)
        | Raise e => Failed (Placement e)
        | OutOfFuel => Exhausted
        end
      | Raise e => Failed (Placement e)
      | OutOfFuel => Exhausted
      end
    | Raise e => Failed (Placement e)
    | OutOfFuel => Exhausted
    end.

(** The loop of [create_figure_layout] over the registered frames. *)
Fixpoint create_artists (lc : LayoutCreator) (h : Heap) (l : list FrameId)
    (d : list (string * layout_item)) (fig : Figure)
    : layout_outcome (list (string * layout_item)) * Figure :=
  match l with
  | [] => (Built d, fig)
  | f :: l' =>
    match create_artist h f (left_margin lc) (right_margin lc)
            (bottom_margin lc) (top_margin lc) with
    | Ok rect =>
      create_artists lc h l' (dict_set (name (h !!! f)) (Axes rect) d)
        (add_axes rect fig)
    | Raise e => (Failed (Placement e), fig)
    | OutOfFuel => (Exhausted, fig)
    end
  end.

(** [LayoutCreator.create_figure_layout].  The stage it is given holds
    the figure as it was before the call, also when a new one is made. *)
Definition create_figure_layout (fuel : nat) (lc : LayoutCreator) (fresh : Figure)
    (fig : option Figure) (force : bool) (w : World)
    : layout_outcome (list (string * layout_item)) * Stage :=
  let before := match fig with
                | None => fresh
                | Some g => g
                end in
  match _get_figure fresh fig force with
  | Failed e => (Failed e, mkStage w before)
  | Exhausted => (Exhausted, mkStage w before)
  | Built fig =>
    let d := dict_set "figure" TheFigure [] in
    match place_all_frames set_iter fuel lc w with
    | (Raise e, w') => (Failed (Placement e), mkStage w' fig)
    | (OutOfFuel, w') => (Exhausted, mkStage w' fig)
    | (Ok _, w') =>
      match _update_figure_size lc (heap w') fig with
      | Failed e => (Failed e, mkStage w' fig)
      | Exhausted => (Exhausted, mkStage w' fig)
      | Built fig =>
        let '(r, fig) := create_artists lc (heap w') (iter_frames lc) d fig in
        (r, mkStage w' fig)
      end
    end
  end.

End FigureLayout.

(** ** Further notions used in the statements *)

(** No pin that has a position loses or changes it. *)
Definition keeps_placed (h h' : Heap) : Prop :=
  forall p x, figpos (pin_at h p) = Some x -> figpos (pin_at h' p) = Some x.

(** A computation that moves no placed pin, whatever it returns. *)
Definition advances {S A} (get : S -> Heap) (m : M S A) : Prop :=
  forall s, keeps_placed (get s) (get (snd (m s))).

(** What a pin that passes [PinBase.verify_placement] satisfies. *)
Definition pin_complies (h : Heap) (p : PinId) : Prop :=
  forall q, figpos_ref (pin_at h p) = Some q ->
    exists x y,
      figpos (pin_at h p) = Some x
      /\ figpos (pin_at h q) = Some y
      /\ Py.isclose (PrimFloat.sub x y) (figpos_offset (pin_at h p)) = true.

(** What a ruler that passes [LinearRuler.verify_placement] satisfies:
    its pins comply with their references, the middle pin is in the
    middle, and the maximum is not below the minimum. *)
Definition ruler_complies (h : Heap) (rid : RulerId) : Prop :=
  (forall n, pin_complies h (pin_of rid n))
  /\ exists xmax xmid xmin,
       figpos (pmax_pin (ruler_at h rid)) = Some xmax
       /\ figpos (pmid_pin (ruler_at h rid)) = Some xmid
       /\ figpos (pmin_pin (ruler_at h rid)) = Some xmin
       /\ Py.isclose (PrimFloat.add xmax xmin) (PrimFloat.mul xmid 2%float) = true
       /\ Py.lt xmax xmin = false.

(** The heap and the registry of a layout fit together: the canvas is a
    parentless frame named "canvas"; the registered names are distinct
    and none is "figure"; every registered frame is a frame of the heap
    other than the canvas, carries the name it is registered under and
    has the canvas as its parent. *)
Definition layout_ok (lc : LayoutCreator) (h : Heap) : Prop :=
  canvas_frame lc < length h
  /\ name (h !!! canvas_frame lc) = "canvas"
  /\ parent (h !!! canvas_frame lc) = None
  /\ NoDup (map fst (frames lc))
  /\ ~ In "figure" (map fst (frames lc))
  /\ forall nm f, In (nm, f) (frames lc) ->
       f < length h
       /\ f <> canvas_frame lc
       /\ name (h !!! f) = nm
       /\ parent (h !!! f) = Some (canvas_frame lc).

(** The constraints a ruler is left with when its positions are
    forgotten: the pins with a reference, and the explicit length. *)
Definition constraint_count (r : LinearRuler) : nat :=
  length (Ruler.anchorable_names Ruler.placeable r)
  + match _ruler_length r with Some _ => 1 | None => 0 end.

(** The anchor a reference stands for when [ref_anchor] is [None]. *)
Definition anchor_or (anchor : string) (ref_anchor : option string) : string :=
  match ref_anchor with
  | None => anchor
  | Some a => a
  end.

(** A ruler on which only pins with a reference have a position. *)
Definition placed_by_reference (r : LinearRuler) : Prop :=
  forall n, Pin.is_placed (Ruler.get_pin n r) = true ->
            Pin.is_placeable (Ruler.get_pin n r) = true.

(** ** Further objects used as instances *)

Module Cases.

(** The layout with one frame of [Examples], its placements cleared and
    the origin of its canvas put at (0, 0): the state in which
    [place_all_frames] starts to solve. *)
Definition one_frame_prepared : Heap :=
  Eval vm_compute in snd (prepare Examples.one_frame_layout Examples.one_frame_heap).

(** A figure as [matplotlib.figure.Figure()] makes it: its only child is
    the background patch. *)
Definition new_figure : Figure := mkFigure 1 [] [].

(** A figure that already holds an axes. *)
Definition used_figure : Figure := mkFigure 2 [] [].

End Cases.

(** * Properties *)

Open Scope list_scope.

(** ** Reasoning about computations *)

Ltac unfold_monad :=
  unfold bind, ret, raise, out_of_fuel, gets, modify, zoom, lift_outcome in *.

Lemma bind_Ok {S A B} (m : M S A) (k : A -> M S B) s a s' :
  m s = (Ok a, s') -> bind m k s = k a s'.
Proof. intros E. unfold bind. now rewrite E. Qed.

Lemma bind_Raise {S A B} (m : M S A) (k : A -> M S B) s e s' :
  m s = (Raise e, s') -> bind m k s = (Raise e, s').
Proof. intros E. unfold bind. now rewrite E. Qed.

Lemma bind_inv_Ok {S A B} (m : M S A) (k : A -> M S B) s b s2 :
  bind m k s = (Ok b, s2) ->
  exists a s1, m s = (Ok a, s1) /\ k a s1 = (Ok b, s2).
Proof.
  unfold bind. destruct (m s) as [[a | e |] s1]; intros E; try discriminate.
  now exists a, s1.
Qed.


Lemma set_iter_nil set_iter (Hs : set_iter_ok set_iter) r :
  set_iter r [] = [].
Proof. apply Permutation_nil. symmetry. apply Hs. Qed.

Lemma set_iter_singleton set_iter (Hs : set_iter_ok set_iter) r n :
  set_iter r [n] = [n].
Proof. apply Permutation_length_1_inv. symmetry. apply Hs. Qed.

(** ** Rulers *)

Lemma placeable_count (r : LinearRuler) :
  ruler_is_placeable r = true
  <-> 2 <= Spec.anchorable_pins r + Spec.explicit_length_slot r.
Proof.
  destruct r as [[p1 r1 o1] [p2 r2 o2] [p3 r3 o3] len].
  unfold ruler_is_placeable, Spec.anchorable_pins, Spec.explicit_length_slot,
    Spec.pin_counts, Ruler.anchorable_names, Ruler.cond,
    Pin.is_placed, Pin.is_placeable.
  destruct p1, r1, p2, r2, p3, r3, len; simpl; split; intros H;
    first [ reflexivity | lia | discriminate ].
Qed.

(** C5: a linear ruler is placeable exactly when the pins that are placed
    or reference-constrained, plus one for an explicit length, number at
    least two. *)
Theorem is_placeable_iff_two_pieces (r : LinearRuler) :
  ruler_is_placeable r = true
  <-> 2 <= Spec.anchorable_pins r + Spec.explicit_length_slot r.
Proof.
  split; intros H.
  - now apply placeable_count.
  - now apply placeable_count.
Qed.

Lemma place_from_outcome rid rp rlen n h :
  fst (place_from rid rp rlen n h) = Ok tt
  \/ fst (place_from rid rp rlen n h) = Raise TypeError.
Proof.
  unfold place_from. unfold_monad.
  destruct (Pin.is_placed _); [now left |].
  destruct (figpos _); [now left | now right].
Qed.

Lemma for_each_place_from_outcome rid rp rlen l h :
  fst (for_each l (place_from rid rp rlen) h) = Ok tt
  \/ fst (for_each l (place_from rid rp rlen) h) = Raise TypeError.
Proof.
  revert h. induction l as [| n l IH]; intros h; simpl; [now left |].
  unfold bind.
  destruct (place_from_outcome rid rp rlen n h) as [E | E];
    destruct (place_from rid rp rlen n h) as [[[] | e |] h1]; simpl in E;
    try discriminate; [apply IH |].
  inversion E; subst. now right.
Qed.


(** The branch of [solve_placement] that raises [DependencyUnplacedError]
    is dead: a length is always found. *)
Lemma get_ruler_length_calculated set_iter rid r :
  get_ruler_length set_iter true rid r <> Ok None.
Proof.
  unfold get_ruler_length.
  destruct (_ruler_length r); [discriminate |].
  destruct (calc_ruler_length set_iter rid r); discriminate.
Qed.

Lemma solve_placement_never_dependency_unplaced set_iter rid h :
  fst (ruler_solve_placement set_iter rid h) <> Raise DependencyUnplacedError.
Proof.
  unfold ruler_solve_placement. unfold_monad.
  destruct (negb _).
  - unfold Element.global_name. destruct (Element.node_global_name _ _); discriminate.
  - pose proof (get_ruler_length_calculated set_iter rid (ruler_at h rid)) as Hlen.
    destruct (get_ruler_length set_iter true rid (ruler_at h rid)) as [[rlen |] | e |] eqn:E;
      try discriminate; try contradiction.
    + destruct (set_iter _ _) as [| rp l]; [discriminate |].
      destruct (for_each_place_from_outcome rid rp rlen Ruler.iter_pin_names h) as [-> | ->];
        discriminate.
    + simpl. intros Habs; inversion Habs; subst.
      unfold get_ruler_length in E.
      destruct (_ruler_length _); [discriminate |].
      unfold calc_ruler_length in E.
      destruct (_ <? _)%nat; [discriminate |].
      destruct (set_iter _ _) as [| a [| b l]]; try discriminate.
      destruct (Py.eq _ _); [discriminate |].
      destruct (figpos _); [| discriminate].
      destruct (figpos _); [| discriminate].
      destruct (Py.eq _ _); discriminate.
Qed.

Lemma no_pin_placed_names r :
  (forall n, Pin.is_placed (Ruler.get_pin n r) = false) ->
  Ruler.anchorable_names Ruler.placed r = [].
Proof.
  intros H. unfold Ruler.anchorable_names, Ruler.iter_pin_names.
  pose proof (H pmax) as H1. pose proof (H pmid) as H2. pose proof (H pmin) as H3.
  simpl in *. now rewrite H1, H2, H3.
Qed.

(** C10: with an explicit length, a reference-constrained pin and no pin
    placed, the ruler is placeable, and a direct [solve_placement] raises
    [ValueError] from unpacking the empty set of placed pins; that is no
    placement error, the length computed from fewer than two placed pins
    is 0, and [DependencyUnplacedError] is raised by no call at all. *)
Theorem solve_placement_without_placed_pin
    (set_iter : RulerId -> list PinName -> list PinName)
    (Hs : set_iter_ok set_iter) (h : Heap) (rid : RulerId) (len : float) :
  _ruler_length (ruler_at h rid) = Some len ->
  (exists n, Pin.is_placeable (Ruler.get_pin n (ruler_at h rid)) = true) ->
  (forall n, Pin.is_placed (Ruler.get_pin n (ruler_at h rid)) = false) ->
  ruler_is_placeable (ruler_at h rid) = true
  /\ ruler_solve_placement set_iter rid h = (Raise ValueError, h)
  /\ is_placement_error ValueError = false
  /\ calc_ruler_length set_iter rid (ruler_at h rid) = Ok Py.zero
  /\ (forall rid' h',
        fst (ruler_solve_placement set_iter rid' h') <> Raise DependencyUnplacedError).
Proof.
  intros Hlen [n Hn] Hnone.
  assert (Hp : ruler_is_placeable (ruler_at h rid) = true).
  { apply placeable_count.
    unfold Spec.explicit_length_slot. rewrite Hlen.
    unfold Spec.anchorable_pins, Spec.pin_counts.
    unfold Pin.is_placeable in Hn.
    destruct n; simpl in Hn;
      destruct (figpos_ref _) eqn:E in Hn; try discriminate; rewrite E;
      repeat match goal with |- context [figpos ?p] => destruct (figpos p) end;
      repeat match goal with |- context [figpos_ref ?p] => destruct (figpos_ref p) end;
      simpl; lia. }
  split; [exact Hp |]. split; [| split; [reflexivity | split]].
  - unfold ruler_solve_placement. unfold_monad. rewrite Hp. simpl.
    unfold get_ruler_length. rewrite Hlen.
    rewrite (no_pin_placed_names _ Hnone), (set_iter_nil _ Hs). reflexivity.
  - unfold calc_ruler_length. now rewrite (no_pin_placed_names _ Hnone).
  - intros. apply solve_placement_never_dependency_unplaced.
Qed.

(** ** Frames *)

Lemma upd_pin_at_alter f a n g h :
  upd_pin_at (mkPin f a n) g h
  = alter (Frame.upd_ruler a (Ruler.upd_pin n g)) f h.
Proof. reflexivity. Qed.

(** [set_placement] with a pair given as a tuple. *)
Lemma set_placement_tuple c anchor x y h :
  set_placement c anchor (Py.Tuple [x; y]) h
  = match assoc (Py.lower anchor) anchors_table with
    | None => (Raise ValueError, h)
    | Some (ph, pv) => (Ok tt, alter (anchor_frame ph pv x y) c h)
    end.
Proof.
  unfold set_placement, pins_by_anchor, get_ruler_pins_by_anchor_name.
  unfold_monad. cbn [length Nat.eqb andb negb].
  destruct (assoc (Py.lower anchor) anchors_table) as [[ph pv] |]; [| reflexivity].
  cbn [fst snd]. rewrite !upd_pin_at_alter. f_equal.
  rewrite !list_alter_alter_eq. apply list_alter_ext; [| reflexivity].
  intros [nm par [p1 p2 p3 l1] [q1 q2 q3 l2]] _. destruct ph, pv; reflexivity.
Qed.

(** C7: [set_placement] by the kind of value given as the position.  A
    list, of any length, raises [NameError] and changes nothing, and so
    does a value that is no sequence; a tuple of another length than two
    raises [TypeError]; a tuple of two numbers at a valid anchor clears
    the references of the two pins and sets their positions. *)
Theorem set_placement_position_kinds
    (h : Heap) (f : FrameId) (anchor : string) :
  (forall items, set_placement f anchor (Py.List items) h = (Raise NameError, h))
  /\ set_placement f anchor Py.Other h = (Raise NameError, h)
  /\ (forall items, length items <> 2 ->
        set_placement f anchor (Py.Tuple items) h = (Raise TypeError, h))
  /\ (forall x y ph pv,
        assoc (Py.lower anchor) anchors_table = Some (ph, pv) ->
        exists h',
          set_placement f anchor (Py.Tuple [x; y]) h = (Ok tt, h')
          /\ (f < length h ->
                pin_at h' (mkPin f h_ruler ph) = mkRulerPin (Some x) None 0.0%float
                /\ pin_at h' (mkPin f v_ruler pv) = mkRulerPin (Some y) None 0.0%float)).
Proof.
  split; [reflexivity |]. split; [reflexivity |]. split.
  - intros items Hlen. unfold set_placement. unfold_monad.
    destruct items as [| x [| y [| z items]]]; try reflexivity.
    now contradiction Hlen.
  - intros x y ph pv Ha. rewrite set_placement_tuple, Ha.
    eexists. split; [reflexivity |]. intros Hf.
    unfold pin_at, pin_ruler, ruler_at. cbn [fst snd pin_frame pin_axis pin_name].
    rewrite list_lookup_total_alter_eq by exact Hf.
    destruct (h !!! f) as [nm par [p1 p2 p3 l1] [q1 q2 q3 l2]].
    destruct ph, pv; split; reflexivity.
Qed.

(** ** The layout's frame factory *)

Lemma assoc_app_fresh {B} (k : string) (v : B) (l : list (string * B)) :
  existsb (fun kv => String.eqb k (fst kv)) l = false ->
  assoc k (l ++ [(k, v)]) = Some v.
Proof.
  induction l as [| [k' v'] l IH]; simpl.
  - now rewrite String.eqb_refl.
  - intros H. apply orb_false_iff in H as [H1 H2]. rewrite H1. now apply IH.
Qed.

(** C8, as the code has it: with the default frame class the factory
    raises [ValueError] exactly for a name that is registered, is the
    token "figure" or contains a slash; every other name, "canvas"
    included, gives a new frame whose parent is the canvas, appended to
    the registry under that name. *)
Theorem add_frame_outcome (lc : LayoutCreator) (nm : string) (h : Heap) :
  add_frame lc nm LayoutAxesFrame h
  = (if registered nm lc || String.eqb nm "figure" || Py.contains_char "/" nm
     then (Raise ValueError, h)
     else (Ok (length h, register nm (length h) lc),
           (h ++ [Frame.init nm (Some (canvas_frame lc))])%list))
  /\ parent ((h ++ [Frame.init nm (Some (canvas_frame lc))])%list !!! length h)
     = Some (canvas_frame lc)
  /\ iter_frames (register nm (length h) lc) = (iter_frames lc ++ [length h])%list
  /\ get_frame (register nm (length h) lc) nm
     = (if registered nm lc then get_frame lc nm else Some (length h)).
Proof.
  repeat split.
  - unfold add_frame, new_frame, Element.valid_name. unfold_monad.
    destruct (registered nm lc); [reflexivity |].
    destruct (String.eqb nm "figure"); [reflexivity |]. simpl.
    rewrite negb_involutive.
    destruct (Py.contains_char "/" nm); reflexivity.
  - rewrite list_lookup_total_middle by reflexivity. reflexivity.
  - unfold iter_frames, register. simpl. now rewrite map_app.
  - unfold get_frame, register, registered. simpl.
    destruct (existsb _ (frames lc)) eqn:E.
    + revert E. induction (frames lc) as [| [k v] l IH]; simpl; [discriminate |].
      destruct (String.eqb nm k); [reflexivity |]. simpl. exact IH.
    + now apply assoc_app_fresh.
Qed.

(** C8, as stated, fails twice: the name "canvas" is accepted, and a
    name with a slash is refused although it is neither registered nor a
    reserved token. *)
Lemma add_frame_reserved_names_counterexample :
  In "canvas" Spec.reserved_tokens
  /\ add_frame Examples.default_layout "canvas" LayoutAxesFrame Examples.canvas_only
     = (Ok (1, register "canvas" 1 Examples.default_layout),
        (Examples.canvas_only ++ [Frame.init "canvas" (Some 0)])%list)
  /\ registered "a/b" Examples.default_layout = false
  /\ (In "a/b" Spec.reserved_tokens -> False)
  /\ add_frame Examples.default_layout "a/b" LayoutAxesFrame Examples.canvas_only
     = (Raise ValueError, Examples.canvas_only).
Proof.
  repeat split.
  - simpl. auto.
  - simpl. intros [H | [H | []]]; discriminate.
Qed.

(** ** The recursive solver and its path *)

Section Solver.

Variable set_iter : RulerId -> list PinName -> list PinName.

Local Abbreviation solve_rec := (solve_placement_resursive set_iter).

Lemma path_effect_refl r p : path_effect r p p.
Proof. destruct r; simpl; reflexivity. Qed.

Lemma on_heap_path {A} (m : M Heap A) st :
  dep_path (snd (on_heap m st)) = dep_path st.
Proof. unfold on_heap, zoom. now destruct (m (st_heap st)). Qed.

Lemma for_each_path (body : Node -> M SolverState unit) :
  (forall n st, path_effect (fst (body n st)) (dep_path st) (dep_path (snd (body n st)))) ->
  forall l st,
    path_effect (fst (for_each l body st)) (dep_path st)
      (dep_path (snd (for_each l body st))).
Proof.
  intros Hbody l. induction l as [| n l IH]; intros st; simpl.
  - reflexivity.
  - unfold bind. specialize (Hbody n st).
    destruct (body n st) as [[[] | e |] st1]; simpl in *; try exact Hbody.
    specialize (IH st1). rewrite Hbody in IH. exact IH.
Qed.

Lemma solve_body_path (recur : Node -> M SolverState unit) :
  (forall n st, path_effect (fst (recur n st)) (dep_path st) (dep_path (snd (recur n st)))) ->
  forall self st,
    path_effect (fst (solve_body set_iter recur self st)) (dep_path st)
      (dep_path (snd (solve_body set_iter recur self st))).
Proof.
  intros Hrec self st. unfold solve_body. unfold_monad.
  destruct (bool_decide _).
  { destruct (Element.global_names _ _); simpl; reflexivity. }
  destruct (negb (is_placed (st_heap st) self)); [| reflexivity].
  pose proof (for_each_path recur Hrec
                (get_dependencies (st_heap (path_append self st)) self)
                (path_append self st)) as Hdeps.
  destruct (for_each _ recur (path_append self st)) as [[[] | e |] st1];
    simpl in Hdeps.
  - destruct (negb (is_placed (st_heap st1) self)).
    + pose proof (on_heap_path (solve_placement set_iter self) st1) as Hp.
      destruct (on_heap (solve_placement set_iter self) st1) as [[[] | e |] st2];
        simpl in *.
      * rewrite Hp, Hdeps. apply removelast_last.
      * rewrite Hp, Hdeps. now apply prefix_app_r.
      * rewrite Hp, Hdeps. now apply prefix_app_r.
    + simpl. rewrite Hdeps. apply removelast_last.
  - simpl. etransitivity; [| exact Hdeps]. now apply prefix_app_r.
  - simpl. etransitivity; [| exact Hdeps]. now apply prefix_app_r.
Qed.

Lemma solve_rec_path fuel :
  forall self st,
    path_effect (fst (solve_rec fuel self st)) (dep_path st)
      (dep_path (snd (solve_rec fuel self st))).
Proof.
  induction fuel as [| fuel IH]; intros self st.
  - simpl. reflexivity.
  - simpl. now apply solve_body_path.
Qed.

(** A call that returns leaves the shared path as it found it; a call
    that raises leaves the path it found extended by the nodes that were
    active. *)
Lemma dep_path_effect (fuel : nat) (self : Node) (st st' : SolverState)
    (r : outcome unit) :
  solve_rec fuel self st = (r, st') ->
  match r with
  | Ok _ => dep_path st' = dep_path st
  | _ => exists active, dep_path st' = (dep_path st ++ active)%list
  end.
Proof.
  intros E. pose proof (solve_rec_path fuel self st) as H.
  rewrite E in H. simpl in H. destruct r; exact H.
Qed.

End Solver.

(** ** Cycles *)

Section Cycles.

Variable set_iter : RulerId -> list PinName -> list PinName.

Local Abbreviation solve_rec := (solve_placement_resursive set_iter).








End Cycles.

Section MutualAnchoring.

Variable set_iter : RulerId -> list PinName -> list PinName.

Local Abbreviation solve_rec := (solve_placement_resursive set_iter).













End MutualAnchoring.

(** ** A frame at the end of the heap *)

Lemma alter_last {A} (g : A -> A) (l : list A) (x : A) :
  alter g (length l) (l ++ [x]) = l ++ [g x].
Proof.
  replace (length l) with (length l + 0) by lia.
  now rewrite (alter_app_r g l [x] 0).
Qed.

Lemma lookup_total_last (l : list Frame) (x : Frame) :
  (l ++ [x]) !!! length l = x.
Proof. now rewrite list_lookup_total_middle. Qed.

Lemma ruler_at_last h fr a :
  ruler_at (h ++ [fr]) (length h, a) = Frame.get_ruler a fr.
Proof. unfold ruler_at. simpl. now rewrite lookup_total_last. Qed.

Lemma pin_at_last h fr a n :
  pin_at (h ++ [fr]) (mkPin (length h) a n) = Ruler.get_pin n (Frame.get_ruler a fr).
Proof. unfold pin_at, pin_ruler. simpl. now rewrite ruler_at_last. Qed.

Lemma upd_ruler_at_last h fr a g :
  upd_ruler_at (length h, a) g (h ++ [fr]) = h ++ [Frame.upd_ruler a g fr].
Proof. unfold upd_ruler_at. simpl. apply alter_last. Qed.

Lemma upd_pin_at_last h fr a n g :
  upd_pin_at (mkPin (length h) a n) g (h ++ [fr])
  = h ++ [Frame.upd_ruler a (Ruler.upd_pin n g) fr].
Proof. unfold upd_pin_at, pin_ruler. simpl. apply upd_ruler_at_last. Qed.

Lemma pins_bottomleft f :
  get_ruler_pins_by_anchor_name f "bottomleft"
  = Ok (mkPin f h_ruler pmin, mkPin f v_ruler pmin).
Proof. reflexivity. Qed.

Lemma pins_topright f :
  get_ruler_pins_by_anchor_name f "topright"
  = Ok (mkPin f h_ruler pmax, mkPin f v_ruler pmax).
Proof. reflexivity. Qed.

Lemma pins_center f :
  get_ruler_pins_by_anchor_name f "center"
  = Ok (mkPin f h_ruler pmid, mkPin f v_ruler pmid).
Proof. reflexivity. Qed.

#[local] Arguments ruler_at : simpl never.
#[local] Arguments pin_at : simpl never.
#[local] Arguments upd_ruler_at : simpl never.
#[local] Arguments upd_pin_at : simpl never.

(** ** Reading and writing the heap *)

Lemma alter_fixpoint (g : Frame -> Frame) (i : nat) (l : Heap) :
  g (l !!! i) = l !!! i -> alter g i l = l.
Proof.
  intros Hg. rewrite <- (list_alter_id (fun x => x) l i) at 2 by reflexivity.
  apply list_alter_ext; [| reflexivity]. intros x E.
  now rewrite (list_lookup_total_correct l i x E) in Hg.
Qed.

Lemma length_upd_ruler_at rid g h : length (upd_ruler_at rid g h) = length h.
Proof. unfold upd_ruler_at. apply length_alter. Qed.

Lemma get_upd_ruler_same a g fr :
  Frame.get_ruler a (Frame.upd_ruler a g fr) = g (Frame.get_ruler a fr).
Proof. now destruct a. Qed.

Lemma get_upd_ruler_other a a' g fr :
  a <> a' -> Frame.get_ruler a' (Frame.upd_ruler a g fr) = Frame.get_ruler a' fr.
Proof. destruct a, a'; intros; try reflexivity; contradiction. Qed.

Lemma ruler_at_upd_same rid g h :
  fst rid < length h -> ruler_at (upd_ruler_at rid g h) rid = g (ruler_at h rid).
Proof.
  intros Hi. unfold ruler_at, upd_ruler_at.
  rewrite list_lookup_total_alter_eq by exact Hi. apply get_upd_ruler_same.
Qed.

Lemma ruler_at_upd_other rid rid' g h :
  rid <> rid' -> ruler_at (upd_ruler_at rid g h) rid' = ruler_at h rid'.
Proof.
  intros Hne. unfold ruler_at, upd_ruler_at.
  destruct rid as [f a], rid' as [f' a']. simpl.
  destruct (decide (f = f')) as [<- | Hf].
  - destruct (decide (f < length h)) as [Hi | Hi].
    + rewrite list_lookup_total_alter_eq by exact Hi.
      apply get_upd_ruler_other. congruence.
    + rewrite !list_lookup_total_alt, list_lookup_alter_eq.
      rewrite (lookup_ge_None_2 h f) by lia. reflexivity.
  - now rewrite list_lookup_total_alter_ne.
Qed.

Lemma upd_ruler_at_compose rid g1 g2 h :
  upd_ruler_at rid g2 (upd_ruler_at rid g1 h) = upd_ruler_at rid (fun r => g2 (g1 r)) h.
Proof.
  unfold upd_ruler_at. rewrite list_alter_alter_eq.
  apply list_alter_ext; [| reflexivity]. intros fr _. now destruct (snd rid), fr.
Qed.

Lemma upd_ruler_at_ext rid g1 g2 h :
  g1 (ruler_at h rid) = g2 (ruler_at h rid) ->
  upd_ruler_at rid g1 h = upd_ruler_at rid g2 h.
Proof.
  intros Hg. unfold upd_ruler_at. apply list_alter_ext; [| reflexivity].
  intros x E. unfold ruler_at in Hg.
  rewrite (list_lookup_total_correct h _ x E) in Hg.
  destruct (snd rid), x; simpl in *; now rewrite Hg.
Qed.

Lemma upd_ruler_at_id rid g h :
  g (ruler_at h rid) = ruler_at h rid -> upd_ruler_at rid g h = h.
Proof.
  intros Hg. unfold upd_ruler_at. apply alter_fixpoint.
  unfold ruler_at in Hg. destruct (snd rid), (h !!! fst rid); simpl in *; now rewrite Hg.
Qed.

(** Whatever is set lives in the heap: an identifier outside of it reads
    as a pristine frame. *)
Lemma ruler_at_outside h rid : length h <= fst rid -> ruler_at h rid = Ruler.init.
Proof.
  intros Hi. unfold ruler_at. rewrite list_lookup_total_alt.
  rewrite (lookup_ge_None_2 h (fst rid)) by lia. now destruct (snd rid).
Qed.

Lemma placed_pin_in_heap h rid n x :
  figpos (Ruler.get_pin n (ruler_at h rid)) = Some x -> fst rid < length h.
Proof.
  intros E. destruct (decide (fst rid < length h)) as [Hi | Hi]; [exact Hi |].
  rewrite ruler_at_outside in E by lia. now destruct n.
Qed.

Lemma pin_at_of h rid n : pin_at h (pin_of rid n) = Ruler.get_pin n (ruler_at h rid).
Proof. unfold pin_at, pin_of, pin_ruler. simpl. now destruct rid. Qed.

Lemma upd_pin_at_of rid n g h :
  upd_pin_at (pin_of rid n) g h = upd_ruler_at rid (Ruler.upd_pin n g) h.
Proof. unfold upd_pin_at, pin_of, pin_ruler. simpl. now destruct rid. Qed.

(** ** The local solve of a ruler *)

Section RulerSolve.

Variable set_iter : RulerId -> list PinName -> list PinName.

Lemma place_pin_keeps rp x rlen n r m :
  Pin.is_placed (Ruler.get_pin m r) = true ->
  Ruler.get_pin m (place_pin rp x rlen n r) = Ruler.get_pin m r.
Proof.
  intros Hm. unfold place_pin.
  destruct (Pin.is_placed (Ruler.get_pin n r)) eqn:En; [reflexivity |].
  destruct n, m; try reflexivity; congruence.
Qed.

Lemma place_from_step rid rp x rlen n h :
  figpos (Ruler.get_pin rp (ruler_at h rid)) = Some x ->
  place_from rid rp rlen n h = (Ok tt, upd_ruler_at rid (place_pin rp x rlen n) h).
Proof.
  intros Hrp. unfold place_from. unfold_monad. cbv beta iota.
  rewrite !pin_at_of.
  destruct (Pin.is_placed (Ruler.get_pin n (ruler_at h rid))) eqn:En.
  - rewrite upd_ruler_at_id; [reflexivity |]. unfold place_pin. now rewrite En.
  - cbv beta iota. rewrite !pin_at_of, Hrp, upd_pin_at_of. f_equal.
    apply upd_ruler_at_ext. unfold place_pin. now rewrite En.
Qed.

Lemma place_from_all rid rp x rlen h :
  figpos (Ruler.get_pin rp (ruler_at h rid)) = Some x ->
  for_each Ruler.iter_pin_names (place_from rid rp rlen) h
  = (Ok tt, upd_ruler_at rid (place_pins rp x rlen) h).
Proof.
  intros Hrp. pose proof (placed_pin_in_heap h rid rp x Hrp) as Hin.
  assert (Hplaced : Pin.is_placed (Ruler.get_pin rp (ruler_at h rid)) = true).
  { unfold Pin.is_placed. now rewrite Hrp. }
  unfold Ruler.iter_pin_names, for_each, place_pins, fold_left. unfold bind, ret.
  rewrite (place_from_step rid rp x rlen pmax h Hrp).
  erewrite (place_from_step rid rp x rlen pmid).
  2:{ rewrite ruler_at_upd_same by exact Hin.
      rewrite place_pin_keeps by exact Hplaced. exact Hrp. }
  erewrite (place_from_step rid rp x rlen pmin).
  2:{ rewrite upd_ruler_at_compose, ruler_at_upd_same by exact Hin.
      rewrite !place_pin_keeps; [exact Hrp | exact Hplaced |].
      now rewrite place_pin_keeps. }
  now rewrite !upd_ruler_at_compose.
Qed.

(** [LinearRuler.solve_placement] from an explicit length and the single
    placed pin. *)
Lemma ruler_solve_from_length rid rp x rlen h :
  set_iter_ok set_iter ->
  _ruler_length (ruler_at h rid) = Some rlen ->
  Ruler.anchorable_names Ruler.placed (ruler_at h rid) = [rp] ->
  figpos (Ruler.get_pin rp (ruler_at h rid)) = Some x ->
  ruler_solve_placement set_iter rid h
  = (Ok tt, upd_ruler_at rid (place_pins rp x rlen) h).
Proof.
  intros Hs Hlen Hnames Hrp.
  assert (Hpl : ruler_is_placeable (ruler_at h rid) = true).
  { apply placeable_count.
    unfold Spec.explicit_length_slot, Spec.anchorable_pins, Spec.pin_counts.
    rewrite Hlen.
    destruct rp; simpl in Hrp; rewrite Hrp;
      repeat match goal with |- context [figpos ?p] => destruct (figpos p) end;
      repeat match goal with |- context [figpos_ref ?p] => destruct (figpos_ref p) end;
      simpl; lia. }
  unfold ruler_solve_placement. unfold_monad. rewrite Hpl. cbn [negb].
  unfold get_ruler_length. rewrite Hlen, Hnames, (set_iter_singleton _ Hs).
  now apply place_from_all.
Qed.

(** A ruler without reference-constrained pins is solved by its local
    solve alone. *)
Lemma solve_ruler_locally fuel rid h h' path :
  NRuler rid ∉ path ->
  Ruler.is_placed (ruler_at h rid) = false ->
  Ruler.anchorable_names Ruler.placeable (ruler_at h rid) = [] ->
  ruler_solve_placement set_iter rid h = (Ok tt, h') ->
  solve_placement_resursive set_iter (S fuel) (NRuler rid) (mkSolver h path)
  = (Ok tt, mkSolver h' path).
Proof.
  intros Hnot Hpl Hdeps Hsolve. simpl. unfold solve_body. unfold_monad.
  cbv beta iota delta [st_heap dep_path].
  rewrite bool_decide_eq_false_2 by exact Hnot.
  cbv beta iota delta [st_heap dep_path is_placed get_dependencies
                         ruler_get_dependencies path_append].
  rewrite Hpl. cbv beta iota delta [st_heap dep_path negb].
  rewrite Hdeps. cbn [map for_each]. unfold ret.
  cbv beta iota delta [st_heap dep_path].
  rewrite Hpl. cbn [negb]. unfold on_heap, zoom, solve_placement.
  cbv beta iota delta [st_heap dep_path].
  rewrite Hsolve. unfold path_pop. cbv beta iota delta [st_heap dep_path].
  now rewrite removelast_last.
Qed.

End RulerSolve.

(** ** A single frame placed at a corner and sized *)

Section SingleFrame.

Variable set_iter : RulerId -> list PinName -> list PinName.

Lemma solve_frame_by_rulers fuel f h0 h1 h2 path :
  NFrame f ∉ path ->
  frame_is_placed h0 f = false ->
  solve_placement_resursive set_iter fuel (NRuler (f, h_ruler))
    (mkSolver h0 (path ++ [NFrame f]))
  = (Ok tt, mkSolver h1 (path ++ [NFrame f])) ->
  solve_placement_resursive set_iter fuel (NRuler (f, v_ruler))
    (mkSolver h1 (path ++ [NFrame f]))
  = (Ok tt, mkSolver h2 (path ++ [NFrame f])) ->
  frame_is_placed h2 f = true ->
  solve_placement_resursive set_iter (S fuel) (NFrame f) (mkSolver h0 path)
  = (Ok tt, mkSolver h2 path).
Proof.
  intros Hnot Hpl0 Hh Hv Hpl2. simpl. unfold solve_body. unfold_monad.
  cbv beta iota delta [st_heap dep_path].
  rewrite bool_decide_eq_false_2 by exact Hnot.
  cbv beta iota delta [st_heap dep_path is_placed get_dependencies path_append].
  rewrite Hpl0. cbv beta iota delta [st_heap dep_path negb].
  unfold frame_get_dependencies. cbn [map for_each]. unfold bind, ret.
  rewrite Hh, Hv. cbv beta iota delta [st_heap dep_path].
  rewrite Hpl2. cbv beta iota delta [negb path_pop st_heap dep_path].
  now rewrite removelast_last.
Qed.

(** C1, as amended: a frame with [bottomleft] put at (0, 0) and the size
    set to 4 by 2.5, whatever its name, its parent and the rest of the
    heap: the frame's own [solve_placement_resursive] returns, and then
    [topright] is at (4.0, 2.5) and [center] at (2.0, 1.25).  This is
    the solve of the frame, not [place_all_frames] of a layout. *)
Theorem single_frame_solved (fuel : nat) (h : Heap) (nm : string)
    (par : option FrameId) :
  set_iter_ok set_iter ->
  Element.valid_name nm = true ->
  2 <= fuel ->
  exists h',
    (f <- new_frame nm par ;;
     set_placement f "bottomleft" (Py.Tuple [0%float; 0%float]) ;;
     set_size f (Some 4%float) (Some 2.5%float) ;;
     solve set_iter fuel (NFrame f) ;;
     ret f) h = (Ok (length h), h')
    /\ get_placement h' (length h) "topright" = Ok (Some 4%float, Some 2.5%float)
    /\ get_placement h' (length h) "center" = Ok (Some 2%float, Some 1.25%float).
Proof.
  intros Hs Hnm Hfuel. destruct fuel as [| [| fuel]]; try lia.
  unfold new_frame, set_placement, set_size, set_width, set_height, set_ruler_length,
    pins_by_anchor, get_placement.
  rewrite Hnm. unfold_monad. cbv beta iota zeta delta [negb].
  rewrite !pins_bottomleft, !pins_topright, !pins_center. cbn.
  rewrite !upd_pin_at_last, !upd_ruler_at_last. cbn.
  set (fr := mkFrame nm par _ _).
  set (f := length h).
  pose (h1 := upd_ruler_at (f, h_ruler) (place_pins pmin 0%float 4%float) (h ++ [fr])).
  pose (h2 := upd_ruler_at (f, v_ruler) (place_pins pmin 0%float 2.5%float) h1).
  assert (Hrun : solve_placement_resursive set_iter (S (S fuel)) (NFrame f)
                   (mkSolver (h ++ [fr]) [])
                 = (Ok tt, mkSolver h2 [])).
  { apply (solve_frame_by_rulers (S fuel) f (h ++ [fr]) h1 h2 []).
    - apply not_elem_of_nil.
    - unfold frame_is_placed, frame_get_dependencies. simpl.
      unfold f. rewrite !ruler_at_last. reflexivity.
    - apply solve_ruler_locally.
      + intros Hx. apply list_elem_of_singleton in Hx. discriminate.
      + unfold f. rewrite ruler_at_last. reflexivity.
      + unfold f. rewrite ruler_at_last. reflexivity.
      + apply ruler_solve_from_length; [exact Hs | | |];
          unfold f; rewrite ruler_at_last; reflexivity.
    - apply solve_ruler_locally.
      + intros Hx. apply list_elem_of_singleton in Hx. discriminate.
      + unfold h1, f. rewrite upd_ruler_at_last, ruler_at_last. reflexivity.
      + unfold h1, f. rewrite upd_ruler_at_last, ruler_at_last. reflexivity.
      + apply ruler_solve_from_length; [exact Hs | | |];
          unfold h1, f; rewrite upd_ruler_at_last, ruler_at_last; reflexivity.
    - unfold frame_is_placed, frame_get_dependencies, h2, h1, f. simpl.
      rewrite !upd_ruler_at_last, !ruler_at_last. reflexivity. }
  exists h2. unfold solve, zoom. rewrite Hrun. cbv beta iota delta [st_heap].
  split; [reflexivity |].
  unfold h2, h1, f. rewrite !upd_ruler_at_last, !pin_at_last.
  split; reflexivity.
Qed.

End SingleFrame.

(** ** Automatic sizing of the canvas *)

Lemma readonly_ret {S A} (a : A) : readonly (ret a : M S A).
Proof. intros s. reflexivity. Qed.

Lemma readonly_raise {S A} (e : exn) : readonly (raise e : M S A).
Proof. intros s. reflexivity. Qed.

Lemma readonly_gets {S A} (f : S -> A) : readonly (gets f).
Proof. intros s. reflexivity. Qed.

Lemma readonly_bind {S A B} (m : M S A) (k : A -> M S B) :
  readonly m -> (forall a, readonly (k a)) -> readonly (bind m k).
Proof.
  intros Hm Hk s. unfold bind. specialize (Hm s).
  destruct (m s) as [[a | e |] s1]; simpl in *; subst; [apply Hk | reflexivity ..].
Qed.

Lemma readonly_for_each {S A} (l : list A) (body : A -> M S unit) :
  (forall x, readonly (body x)) -> readonly (for_each l body).
Proof.
  intros Hb. induction l as [| x l IH]; simpl; [apply readonly_ret |].
  apply readonly_bind; [apply Hb | intros _; exact IH].
Qed.

Lemma readonly_global_name n : readonly (Element.global_name n).
Proof. intros h. unfold Element.global_name. now destruct (Element.node_global_name h n). Qed.

Lemma readonly_pin_verify p : readonly (pin_verify_placement p).
Proof.
  unfold pin_verify_placement. apply readonly_bind; [apply readonly_gets |].
  intros self. destruct (figpos_ref self); [| apply readonly_ret].
  apply readonly_bind; [apply readonly_gets |]. intros rpin.
  destruct (figpos self); [| apply readonly_raise].
  destruct (figpos rpin); [| apply readonly_raise].
  destruct (negb _); [| apply readonly_ret].
  repeat (apply readonly_bind; [apply readonly_global_name | intros _]).
  apply readonly_raise.
Qed.

Lemma readonly_ruler_verify rid : readonly (ruler_verify_placement rid).
Proof.
  unfold ruler_verify_placement.
  apply readonly_bind; [apply readonly_for_each; intros; apply readonly_pin_verify |].
  intros _. apply readonly_bind; [apply readonly_gets |]. intros r.
  destruct (figpos (pmax_pin r)); [| apply readonly_raise].
  destruct (figpos (pmin_pin r)); [| apply readonly_raise].
  destruct (figpos (pmid_pin r)); [| apply readonly_raise].
  destruct (negb _).
  - apply readonly_bind; [| intros; apply readonly_raise].
    apply readonly_for_each. intros n.
    apply readonly_bind; [apply readonly_global_name | intros; apply readonly_ret].
  - destruct (Py.lt _ _); [| apply readonly_ret].
    apply readonly_bind; [| intros; apply readonly_raise].
    apply readonly_for_each. intros n.
    apply readonly_bind; [apply readonly_global_name | intros; apply readonly_ret].
Qed.

Lemma readonly_frame_verify f : readonly (frame_verify_placement f).
Proof.
  unfold frame_verify_placement. apply readonly_for_each.
  intros rid. apply readonly_ruler_verify.
Qed.

(** *** The ruler after the interpolation *)

Lemma place_pins_placed rp x rlen r : Ruler.is_placed (place_pins rp x rlen r) = true.
Proof.
  destruct r as [[p1 r1 o1] [p2 r2 o2] [p3 r3 o3] len].
  destruct p1, p2, p3; reflexivity.
Qed.

Lemma place_pins_length rp x rlen r :
  _ruler_length (place_pins rp x rlen r) = _ruler_length r.
Proof.
  destruct r as [[p1 r1 o1] [p2 r2 o2] [p3 r3 o3] len].
  destruct p1, p2, p3; reflexivity.
Qed.

Lemma place_pins_ref rp x rlen r n :
  figpos_ref (Ruler.get_pin n (place_pins rp x rlen r)) = figpos_ref (Ruler.get_pin n r)
  /\ figpos_offset (Ruler.get_pin n (place_pins rp x rlen r))
     = figpos_offset (Ruler.get_pin n r).
Proof.
  destruct r as [[p1 r1 o1] [p2 r2 o2] [p3 r3 o3] len].
  destruct p1, p2, p3, n; split; reflexivity.
Qed.

Lemma place_pins_keeps rp x rlen r n :
  Pin.is_placed (Ruler.get_pin n r) = true ->
  Ruler.get_pin n (place_pins rp x rlen r) = Ruler.get_pin n r.
Proof.
  destruct r as [[p1 r1 o1] [p2 r2 o2] [p3 r3 o3] len].
  destruct p1, p2, p3, n; intros H; try reflexivity; discriminate.
Qed.


Lemma place_pins_with_length rp x rlen v r :
  _ruler_length r = None ->
  Ruler.with_length None (place_pins rp x rlen (Ruler.with_length v r))
  = place_pins rp x rlen r.
Proof.
  destruct r as [[p1 r1 o1] [p2 r2 o2] [p3 r3 o3] len]. simpl. intros ->.
  destruct p1, p2, p3; reflexivity.
Qed.

(** *** The resolved length *)

Lemma max3_not_negative u l : Py.lt (Py.max3 u l Py.zero) Py.zero = false.
Proof.
  unfold Py.max3. generalize (Py.max2 u l). intros m.
  unfold Py.max2, Py.gt, Py.lt.
  destruct (PrimFloat.ltb m Py.zero) eqn:E; [reflexivity | exact E].
Qed.

Lemma calc_inclusive_inv pp rpos lo hi len :
  _calc_inclusive_rlen pp rpos lo hi = Ok len ->
  exists x, pp = Some x /\ Py.eq x Py.zero = true /\ Py.lt len Py.zero = false.
Proof.
  unfold _calc_inclusive_rlen. destruct pp as [x |]; [| discriminate].
  destruct (Py.eq x Py.zero) eqn:Ex; [| discriminate]. cbn [negb].
  intros E. exists x. split; [reflexivity |]. split; [exact Ex |].
  destruct (if Py.eq rpos 1%float then _ else _) as [u | |]; try discriminate.
  destruct (if Py.eq rpos 0%float then _ else _) as [l | |]; try discriminate.
  inversion E. apply max3_not_negative.
Qed.



(** A ruler that is not placeable although one of its pins is placed has
    nothing else: no length, no other pin placed or referring. *)
Lemma not_placeable_shape r rp x :
  ruler_is_placeable r = false ->
  figpos (Ruler.get_pin rp r) = Some x ->
  _ruler_length r = None
  /\ Ruler.anchorable_names Ruler.placed r = [rp]
  /\ (forall n, n ∈ Ruler.anchorable_names Ruler.placeable r ->
        Pin.is_placed (Ruler.get_pin n r) = true).
Proof.
  destruct r as [[p1 r1 o1] [p2 r2 o2] [p3 r3 o3] len].
  unfold ruler_is_placeable, Ruler.anchorable_names, Ruler.cond,
    Pin.is_placed, Pin.is_placeable.
  intros Hnp Hrp.
  destruct rp, p1, r1, p2, r2, p3, r3, len; simpl in *; try discriminate;
    (split; [reflexivity |]; split; [reflexivity |]);
    intros n Hn; repeat (apply elem_of_cons in Hn as [-> | Hn]; [reflexivity |]);
    inversion Hn.
Qed.

Section CanvasSizing.

Variable set_iter : RulerId -> list PinName -> list PinName.

Lemma solve_placed fuel self h path :
  self ∉ path ->
  is_placed h self = true ->
  solve_placement_resursive set_iter (S fuel) self (mkSolver h path)
  = (Ok tt, mkSolver h path).
Proof.
  intros Hnot Hpl. simpl. unfold solve_body. unfold_monad.
  cbv beta iota delta [st_heap dep_path].
  rewrite bool_decide_eq_false_2 by exact Hnot.
  cbv beta iota delta [st_heap dep_path]. now rewrite Hpl.
Qed.

Lemma solve_placed_pins fuel rid (names : list PinName) h path :
  (forall n, NPin (pin_of rid n) ∉ path) ->
  (forall n, n ∈ names -> Pin.is_placed (Ruler.get_pin n (ruler_at h rid)) = true) ->
  for_each (map (fun n => NPin (pin_of rid n)) names)
    (solve_placement_resursive set_iter (S fuel)) (mkSolver h path)
  = (Ok tt, mkSolver h path).
Proof.
  intros Hnot. induction names as [| n names IH]; intros Hpl; [reflexivity |].
  cbn [map for_each]. unfold bind.
  rewrite solve_placed.
  - apply IH. intros m Hm. apply Hpl. now right.
  - apply Hnot.
  - cbn [is_placed]. rewrite pin_at_of. apply Hpl. left.
Qed.

(** A ruler whose reference-constrained pins are all placed already is
    solved by its local solve. *)
Lemma solve_ruler_with_placed_deps fuel rid h h' path :
  NRuler rid ∉ path ->
  (forall n, NPin (pin_of rid n) ∉ path) ->
  Ruler.is_placed (ruler_at h rid) = false ->
  (forall n, n ∈ Ruler.anchorable_names Ruler.placeable (ruler_at h rid) ->
     Pin.is_placed (Ruler.get_pin n (ruler_at h rid)) = true) ->
  ruler_solve_placement set_iter rid h = (Ok tt, h') ->
  solve_placement_resursive set_iter (S (S fuel)) (NRuler rid) (mkSolver h path)
  = (Ok tt, mkSolver h' path).
Proof.
  intros Hnot Hpins Hpl Hdeps Hsolve.
  change (solve_body set_iter (solve_placement_resursive set_iter (S fuel))
            (NRuler rid) (mkSolver h path) = (Ok tt, mkSolver h' path)).
  unfold solve_body. unfold_monad.
  cbv beta iota delta [st_heap dep_path].
  rewrite bool_decide_eq_false_2 by exact Hnot.
  cbv beta iota delta [st_heap dep_path is_placed get_dependencies
                         ruler_get_dependencies path_append].
  rewrite Hpl. cbv beta iota delta [st_heap dep_path negb].
  rewrite solve_placed_pins.
  - cbv beta iota delta [st_heap dep_path]. rewrite Hpl. cbn [negb].
    unfold on_heap, zoom, solve_placement.
    cbv beta iota delta [st_heap dep_path].
    rewrite Hsolve. unfold path_pop. cbv beta iota delta [st_heap dep_path].
    now rewrite removelast_last.
  - intros n Hn. apply elem_of_app in Hn as [Hn | Hn]; [now apply (Hpins n) |].
    apply list_elem_of_singleton in Hn. discriminate.
  - exact Hdeps.
Qed.

Lemma origin_pin_shape lc a p :
  origin_pin lc a = Ok p -> p = pin_of (canvas_frame lc, a) (pin_name p).
Proof.
  unfold origin_pin, get_ruler_pins_by_anchor_name.
  destruct (assoc _ _) as [[ph pv] |]; [| discriminate].
  destruct a; intros [= <-]; reflexivity.
Qed.

Lemma auto_rlen_inv lc a h len :
  auto_rlen lc a h = Ok len ->
  exists n x,
    origin_pin lc a = Ok (pin_of (canvas_frame lc, a) n)
    /\ figpos (Ruler.get_pin n (ruler_at h (canvas_frame lc, a))) = Some x
    /\ Py.eq x Py.zero = true
    /\ Py.lt len Py.zero = false.
Proof.
  unfold auto_rlen. destruct (origin_pin lc a) as [p | |] eqn:Ep; try discriminate.
  destruct (py_min _) as [lo | |]; try discriminate.
  destruct (py_max _) as [hi | |]; try discriminate.
  intros E. apply calc_inclusive_inv in E as (x & Ex & Hx & Hlen).
  pose proof (origin_pin_shape lc a p Ep) as Hp.
  exists (pin_name p), x. rewrite <- Hp. split; [reflexivity |].
  rewrite <- pin_at_of, <- Hp. auto.
Qed.

(** The last branch of [_solve_canvas_ruler_placement], once the length
    [len] has been computed: the pins without a position are interpolated
    from the origin pin with [len], the length slot is unset again, and a
    warning is added when [len] is 0. *)
Lemma auto_size_effect fuel lc dim a w len n x :
  set_iter_ok set_iter ->
  Ruler.is_placed (ruler_at (heap w) (canvas_frame lc, a)) = false ->
  ruler_is_placeable (ruler_at (heap w) (canvas_frame lc, a)) = false ->
  auto_rlen lc a (heap w) = Ok len ->
  origin_pin lc a = Ok (pin_of (canvas_frame lc, a) n) ->
  figpos (Ruler.get_pin n (ruler_at (heap w) (canvas_frame lc, a))) = Some x ->
  auto_size set_iter (S (S fuel)) lc dim a w
  = (Ok tt,
     mkWorld (upd_ruler_at (canvas_frame lc, a) (place_pins n x len) (heap w))
       (warnings w ++ (if Py.eq len Py.zero then [size_warning dim] else []))).
Proof.
  intros Hs Hpl Hnp Hlen Hop Hx.
  set (rid := (canvas_frame lc, a)) in *.
  destruct (auto_rlen_inv lc a (heap w) len Hlen) as (_ & _ & _ & _ & _ & Hneg).
  destruct (not_placeable_shape _ n x Hnp Hx) as (Hnone & Hplaced & Hdeps).
  pose proof (placed_pin_in_heap (heap w) rid n x Hx) as Hin.
  set (h1 := upd_ruler_at rid (Ruler.with_length (Some len)) (heap w)).
  assert (Hr1 : ruler_at h1 rid = Ruler.with_length (Some len) (ruler_at (heap w) rid)).
  { unfold h1. now rewrite ruler_at_upd_same. }
  assert (Hsolve : solve set_iter (S (S fuel)) (NRuler rid) h1
                   = (Ok tt, upd_ruler_at rid (place_pins n x len) h1)).
  { unfold solve, zoom.
    rewrite (solve_ruler_with_placed_deps fuel rid h1
               (upd_ruler_at rid (place_pins n x len) h1) []).
    - reflexivity.
    - apply not_elem_of_nil.
    - intros m. apply not_elem_of_nil.
    - rewrite Hr1. exact Hpl.
    - rewrite Hr1. exact Hdeps.
    - apply ruler_solve_from_length; [exact Hs | | |]; rewrite Hr1;
        [reflexivity | exact Hplaced | exact Hx]. }
  assert (Hfinal : upd_ruler_at rid (Ruler.with_length None)
                     (upd_ruler_at rid (place_pins n x len) h1)
                   = upd_ruler_at rid (place_pins n x len) (heap w)).
  { unfold h1. rewrite !upd_ruler_at_compose. apply upd_ruler_at_ext.
    now apply place_pins_with_length. }
  set (ws := warnings w ++ (if Py.eq len Py.zero then [size_warning dim] else [])).
  unfold auto_size. fold rid.
  rewrite (bind_Ok _ _ w len w) by (unfold_monad; now rewrite Hlen).
  rewrite (bind_Ok _ _ w tt (mkWorld (heap w) ws)).
  2:{ unfold ws, warn, modify, ret. destruct (Py.eq len Py.zero); [reflexivity |].
      rewrite app_nil_r. now destruct w. }
  rewrite (bind_Ok _ _ _ tt (mkWorld h1 ws)).
  2:{ unfold in_heap, zoom, set_ruler_length, modify. cbn [heap warnings].
      now rewrite Hneg. }
  rewrite (bind_Ok _ _ _ tt (mkWorld (upd_ruler_at rid (place_pins n x len) h1) ws)).
  2:{ unfold in_heap, zoom. cbn [heap warnings]. now rewrite Hsolve. }
  unfold in_heap, zoom, clear_ruler_length, set_ruler_length, modify.
  cbn [heap warnings]. now rewrite Hfinal.
Qed.

Lemma canvas_ruler_effect fuel lc dim a w len n x :
  set_iter_ok set_iter ->
  axis_of_dim dim = Some a ->
  Ruler.is_placed (ruler_at (heap w) (canvas_frame lc, a)) = false ->
  ruler_is_placeable (ruler_at (heap w) (canvas_frame lc, a)) = false ->
  auto_rlen lc a (heap w) = Ok len ->
  origin_pin lc a = Ok (pin_of (canvas_frame lc, a) n) ->
  figpos (Ruler.get_pin n (ruler_at (heap w) (canvas_frame lc, a))) = Some x ->
  let h' := upd_ruler_at (canvas_frame lc, a) (place_pins n x len) (heap w) in
  _solve_canvas_ruler_placement set_iter (S (S fuel)) lc dim w
  = (fst (ruler_verify_placement (canvas_frame lc, a) h'),
     mkWorld h'
       (warnings w ++ (if Py.eq len Py.zero then [size_warning dim] else []))).
Proof.
  intros Hs Hdim Hpl Hnp Hlen Hop Hx h'.
  unfold _solve_canvas_ruler_placement.
  rewrite (bind_Ok _ _ w a w).
  2:{ unfold axis_of_dim in Hdim.
      destruct (String.eqb dim "width"); [now inversion Hdim |].
      destruct (String.eqb dim "height"); [now inversion Hdim | discriminate]. }
  rewrite (bind_Ok _ _ w (ruler_at (heap w) (canvas_frame lc, a)) w) by reflexivity.
  rewrite Hpl, Hnp.
  rewrite (bind_Ok _ _ w tt _ (auto_size_effect fuel lc dim a w len n x
                                 Hs Hpl Hnp Hlen Hop Hx)).
  unfold in_heap, zoom. cbn [heap warnings]. fold h'.
  pose proof (readonly_ruler_verify (canvas_frame lc, a) h') as Hro.
  destruct (ruler_verify_placement (canvas_frame lc, a) h') as [r h'']. simpl in *.
  now subst.
Qed.

Lemma upd_ruler_at_name rid g h f :
  name (upd_ruler_at rid g h !!! f) = name (h !!! f)
  /\ parent (upd_ruler_at rid g h !!! f) = parent (h !!! f).
Proof.
  unfold upd_ruler_at. rewrite list_lookup_total_alter.
  destruct (decide _) as [[<- _] | _]; [| auto].
  now destruct (snd rid), (h !!! fst rid).
Qed.

(** C6: after the automatic resolution of a canvas ruler that was neither
    placed nor placeable, the ruler is placed and its explicit length is
    unset; the heap keeps its size, every other ruler and every name and
    parent are as before, and on this ruler the references, the offsets
    and the pins that had a position are as before.  The call returns
    unless the closing verification raises. *)
Theorem canvas_ruler_after_auto_sizing (fuel : nat) (lc : LayoutCreator)
    (dim : string) (a : Axis) (w : World) (len : float) :
  set_iter_ok set_iter ->
  2 <= fuel ->
  axis_of_dim dim = Some a ->
  Ruler.is_placed (ruler_at (heap w) (canvas_frame lc, a)) = false ->
  ruler_is_placeable (ruler_at (heap w) (canvas_frame lc, a)) = false ->
  auto_rlen lc a (heap w) = Ok len ->
  let rid := (canvas_frame lc, a) in
  let w' := snd (_solve_canvas_ruler_placement set_iter fuel lc dim w) in
  Ruler.is_placed (ruler_at (heap w') rid) = true
  /\ get_ruler_length set_iter false rid (ruler_at (heap w') rid) = Ok None
  /\ length (heap w') = length (heap w)
  /\ (forall rid', rid' <> rid -> ruler_at (heap w') rid' = ruler_at (heap w) rid')
  /\ (forall f, name (heap w' !!! f) = name (heap w !!! f)
                /\ parent (heap w' !!! f) = parent (heap w !!! f))
  /\ (forall n,
        figpos_ref (Ruler.get_pin n (ruler_at (heap w') rid))
        = figpos_ref (Ruler.get_pin n (ruler_at (heap w) rid))
        /\ figpos_offset (Ruler.get_pin n (ruler_at (heap w') rid))
           = figpos_offset (Ruler.get_pin n (ruler_at (heap w) rid)))
  /\ (forall n,
        Pin.is_placed (Ruler.get_pin n (ruler_at (heap w) rid)) = true ->
        Ruler.get_pin n (ruler_at (heap w') rid)
        = Ruler.get_pin n (ruler_at (heap w) rid))
  /\ fst (_solve_canvas_ruler_placement set_iter fuel lc dim w)
     = fst (ruler_verify_placement rid (heap w')).
Proof.
  intros Hs Hfuel Hdim Hpl Hnp Hlen rid w'.
  destruct fuel as [| [| fuel]]; try lia.
  destruct (auto_rlen_inv lc a (heap w) len Hlen) as (n & x & Hop & Hx & _ & _).
  pose proof (canvas_ruler_effect fuel lc dim a w len n x Hs Hdim Hpl Hnp Hlen Hop Hx)
    as E.
  cbv zeta in E. fold rid in E, Hx, Hpl, Hnp.
  pose proof (placed_pin_in_heap (heap w) rid n x Hx) as Hin.
  pose proof (not_placeable_shape _ n x Hnp Hx) as (Hnone & _ & _).
  unfold w'. rewrite E. cbn [fst snd heap].
  rewrite ruler_at_upd_same by exact Hin.
  repeat split.
  - apply place_pins_placed.
  - unfold get_ruler_length. now rewrite place_pins_length, Hnone.
  - apply length_upd_ruler_at.
  - intros rid' Hne. apply ruler_at_upd_other. congruence.
  - apply upd_ruler_at_name.
  - apply upd_ruler_at_name.
  - apply place_pins_ref.
  - apply place_pins_ref.
  - intros m Hm. now apply place_pins_keeps.
Qed.


End CanvasSizing.

(** ** Clearing and preparing *)

Lemma pins_by_anchor_table {S} f :
  map (fun a => @pins_by_anchor S f a) iter_anchor_names
  = map (fun kv => ret (mkPin f h_ruler (fst (snd kv)), mkPin f v_ruler (snd (snd kv))))
      anchors_table.
Proof. reflexivity. Qed.

Lemma for_each_map {S A B} (g : A -> B) (l : list A) (body : B -> M S unit) :
  for_each l (fun x => body (g x)) = for_each (map g l) body.
Proof. induction l as [| x l IH]; simpl; [reflexivity | now rewrite IH]. Qed.

(** [frame.clear_placement()] forgets the positions of the six pins. *)
Lemma clear_placement_all f h :
  clear_placement f None h = (Ok tt, alter erase_frame f h).
Proof.
  unfold clear_placement.
  rewrite (for_each_map (fun a => pins_by_anchor f a) iter_anchor_names
             (fun m => pins <- m ;;
                       modify (upd_pin_at (fst pins) Pin.clear_placement) ;;
                       modify (upd_pin_at (snd pins) Pin.clear_placement))).
  rewrite pins_by_anchor_table. unfold anchors_table.
  cbn [map for_each fst snd]. unfold_monad. cbv beta iota.
  cbn [fst snd]. rewrite !upd_pin_at_alter. f_equal.
  rewrite !list_alter_alter_eq. apply list_alter_ext; [| reflexivity].
  intros [nm par [p1 p2 p3 l1] [q1 q2 q3 l2]] _. reflexivity.
Qed.

Lemma set_origin_effect c orig h :
  set_placement c orig (Py.Tuple [0.0%float; 0.0%float]) h
  = match assoc (Py.lower orig) anchors_table with
    | None => (Raise ValueError, h)
    | Some (ph, pv) => (Ok tt, alter (origin_frame ph pv) c h)
    end.
Proof. apply set_placement_tuple. Qed.

Lemma for_each_clear l h :
  for_each l (fun f => clear_placement f None) h = (Ok tt, clear_frames l h).
Proof.
  revert h. induction l as [| f l IH]; intros h; [reflexivity |].
  cbn [for_each]. unfold bind. rewrite clear_placement_all. apply IH.
Qed.

Lemma prepare_effect lc h :
  prepare lc h
  = match assoc (Py.lower (origin lc)) anchors_table with
    | None => (Raise ValueError, alter erase_frame (canvas_frame lc) h)
    | Some (ph, pv) => (Ok tt, prepared lc ph pv h)
    end.
Proof.
  unfold prepare, bind. rewrite clear_placement_all, set_origin_effect.
  destruct (assoc _ _) as [[ph pv] |]; [| reflexivity].
  now rewrite for_each_clear.
Qed.

(** *** Frames under clearing *)

Lemma erase_frame_idem fr : erase_frame (erase_frame fr) = erase_frame fr.
Proof. destruct fr as [nm par [p1 p2 p3 l1] [q1 q2 q3 l2]]. reflexivity. Qed.


Lemma length_clear_frames l h : length (clear_frames l h) = length h.
Proof.
  revert h. induction l as [| f l IH]; intros h; [reflexivity |].
  unfold clear_frames in *. cbn [fold_left]. rewrite IH. apply length_alter.
Qed.

Lemma length_prepared lc ph pv h : length (prepared lc ph pv h) = length h.
Proof. unfold prepared. now rewrite length_clear_frames, !length_alter. Qed.

Lemma length_erase h : length (erase h) = length h.
Proof. apply length_map. Qed.

Lemma lookup_clear_frames l (h : Heap) j :
  clear_frames l h !! j
  = if decide (j ∈ l) then erase_frame <$> h !! j else h !! j.
Proof.
  revert h. induction l as [| f l IH]; intros h.
  - cbn. destruct (decide (j ∈ [])) as [Hin | _]; [inversion Hin | reflexivity].
  - unfold clear_frames in *. cbn [fold_left]. rewrite IH.
    rewrite list_lookup_alter.
    destruct (decide (j ∈ l)) as [Hl | Hl];
      destruct (decide (f = j)) as [-> | Hf];
      destruct (decide (j ∈ _ :: l)) as [Hc | Hc]; try reflexivity.
    + destruct (h !! j); simpl; [now rewrite erase_frame_idem | reflexivity].
    + exfalso. apply Hc. left.
    + exfalso. apply Hc. now right.
    + exfalso. apply Hc. left.
    + exfalso. apply elem_of_cons in Hc as [Hc | Hc]; [congruence | contradiction].
Qed.

Lemma lookup_prepared lc ph pv (h : Heap) j :
  prepared lc ph pv h !! j
  = (if decide (j ∈ iter_frames lc) then fmap erase_frame else id)
      ((if decide (canvas_frame lc = j)
        then fmap (fun fr => origin_frame ph pv (erase_frame fr)) else id) (h !! j)).
Proof.
  unfold prepared. rewrite lookup_clear_frames, list_alter_alter_eq, list_lookup_alter.
  destruct (decide (j ∈ iter_frames lc)), (decide (canvas_frame lc = j));
    subst; reflexivity.
Qed.

Lemma lookup_erase (h : Heap) j : erase h !! j = erase_frame <$> h !! j.
Proof. unfold erase. apply list_lookup_fmap. Qed.




(** ** Solving changes placements only *)

Lemma stable_ret {S T A} (obs : S -> T) (a : A) : stable obs (ret a).
Proof. intros s. reflexivity. Qed.

Lemma stable_raise {S T A} (obs : S -> T) (e : exn) : stable obs (raise e : M S A).
Proof. intros s. reflexivity. Qed.

Lemma stable_out_of_fuel {S T A} (obs : S -> T) : stable obs (out_of_fuel : M S A).
Proof. intros s. reflexivity. Qed.

Lemma stable_gets {S T A} (obs : S -> T) (f : S -> A) : stable obs (gets f).
Proof. intros s. reflexivity. Qed.

Lemma stable_modify {S T} (obs : S -> T) (f : S -> S) :
  (forall s, obs (f s) = obs s) -> stable obs (modify f).
Proof. intros Hf s. apply Hf. Qed.

Lemma stable_bind {S T A B} (obs : S -> T) (m : M S A) (k : A -> M S B) :
  stable obs m -> (forall a, stable obs (k a)) -> stable obs (bind m k).
Proof.
  intros Hm Hk s. unfold bind. specialize (Hm s).
  destruct (m s) as [[a | e |] s1]; simpl in *; [| exact Hm ..].
  rewrite <- Hm. apply Hk.
Qed.

Lemma stable_for_each {S T A} (obs : S -> T) (l : list A) (body : A -> M S unit) :
  (forall x, stable obs (body x)) -> stable obs (for_each l body).
Proof.
  intros Hb. induction l as [| x l IH]; simpl; [apply stable_ret |].
  apply stable_bind; [apply Hb | intros _; exact IH].
Qed.

Lemma stable_readonly {S T A} (obs : S -> T) (m : M S A) : readonly m -> stable obs m.
Proof. intros Hm s. now rewrite Hm. Qed.

Lemma stable_zoom {S S' T T' A} (obs : S -> T) (obs' : S' -> T')
    (get : S' -> S) (set : S -> S' -> S') (m : M S A) :
  (forall s t, obs s = obs (get t) -> obs' (set s t) = obs' t) ->
  stable obs m -> stable obs' (zoom get set m).
Proof.
  intros Hset Hm t. unfold zoom. specialize (Hm (get t)).
  destruct (m (get t)) as [r s']. simpl in *. now apply Hset.
Qed.

Lemma clear_after_set n v r :
  Ruler.clear_placement (Ruler.upd_pin n (Pin.set_placement v) r)
  = Ruler.clear_placement r.
Proof. destruct n, r; reflexivity. Qed.

Lemma erase_upd_ruler_at rid g h :
  (forall r, Ruler.clear_placement (g r) = Ruler.clear_placement r) ->
  erase (upd_ruler_at rid g h) = erase h.
Proof.
  intros Hg. apply list_eq. intros j. unfold upd_ruler_at.
  rewrite !lookup_erase, list_lookup_alter.
  destruct (decide (fst rid = j)) as [<- | _]; [| reflexivity].
  destruct (h !! fst rid) as [fr |]; [| reflexivity]. simpl. f_equal.
  unfold erase_frame. destruct (snd rid), fr; simpl; now rewrite Hg.
Qed.

Lemma erase_set_placement p v h :
  erase (upd_pin_at p (Pin.set_placement v) h) = erase h.
Proof. unfold upd_pin_at. apply erase_upd_ruler_at. intros r. apply clear_after_set. Qed.

Lemma keeps_pin_solve p : stable erase (pin_solve_placement p).
Proof.
  unfold pin_solve_placement. apply stable_bind; [apply stable_gets |]. intros self.
  destruct (figpos_ref self); [| apply stable_raise].
  apply stable_bind; [apply stable_gets |]. intros rpin.
  destruct (figpos rpin).
  - apply stable_modify. intros h. apply erase_set_placement.
  - repeat (apply stable_bind;
            [apply stable_readonly, readonly_global_name | intros _]).
    apply stable_raise.
Qed.

Lemma keeps_place_from rid rp rlen n : stable erase (place_from rid rp rlen n).
Proof.
  unfold place_from. apply stable_bind; [apply stable_gets |]. intros p.
  destruct (Pin.is_placed p); [apply stable_ret |].
  apply stable_bind; [apply stable_gets |]. intros rpin.
  destruct (figpos rpin); [| apply stable_raise].
  apply stable_modify. intros h. apply erase_set_placement.
Qed.

Section KeepsConstraints.

Variable set_iter : RulerId -> list PinName -> list PinName.

Lemma keeps_ruler_solve rid : stable erase (ruler_solve_placement set_iter rid).
Proof.
  unfold ruler_solve_placement. apply stable_bind; [apply stable_gets |]. intros r.
  destruct (negb _).
  - apply stable_bind; [apply stable_readonly, readonly_global_name |].
    intros _. apply stable_raise.
  - destruct (get_ruler_length set_iter true rid r) as [[rlen |] | e |];
      try apply stable_raise; [| apply stable_out_of_fuel].
    destruct (set_iter _ _); [apply stable_raise |].
    apply stable_for_each. intros n. apply keeps_place_from.
Qed.

Lemma keeps_solve_placement n : stable erase (solve_placement set_iter n).
Proof.
  destruct n as [f | rid | p]; simpl.
  - unfold frame_solve_placement. apply stable_for_each. intros rid.
    apply keeps_ruler_solve.
  - apply keeps_ruler_solve.
  - apply keeps_pin_solve.
Qed.

Lemma keeps_solve_body recur :
  (forall n, stable (fun st => erase (st_heap st)) (recur n)) ->
  forall self, stable (fun st => erase (st_heap st)) (solve_body set_iter recur self).
Proof.
  intros Hrec self. unfold solve_body.
  apply stable_bind; [apply stable_gets |]. intros path.
  destruct (bool_decide _).
  { apply stable_bind; [apply stable_gets |]. intros h.
    destruct (Element.global_names _ _); apply stable_raise. }
  apply stable_bind; [apply stable_gets |]. intros placed.
  destruct (negb placed); [| apply stable_ret].
  apply stable_bind; [now apply stable_modify |]. intros _.
  apply stable_bind; [apply stable_gets |]. intros deps.
  apply stable_bind; [apply stable_for_each; exact Hrec |]. intros _.
  apply stable_bind; [apply stable_gets |]. intros placed'.
  apply stable_bind; [| intros _; now apply stable_modify].
  destruct (negb placed'); [| apply stable_ret].
  unfold on_heap. apply (stable_zoom erase).
  - intros s t Hs. exact Hs.
  - apply keeps_solve_placement.
Qed.

Lemma keeps_solve_rec fuel self :
  stable (fun st => erase (st_heap st)) (solve_placement_resursive set_iter fuel self).
Proof.
  revert self. induction fuel as [| fuel IH]; intros self.
  - apply stable_out_of_fuel.
  - simpl. now apply keeps_solve_body.
Qed.

Lemma keeps_solve fuel self : stable erase (solve set_iter fuel self).
Proof.
  intros h. unfold solve, zoom.
  pose proof (keeps_solve_rec fuel self (mkSolver h [])) as H.
  destruct (solve_placement_resursive set_iter fuel self (mkSolver h [])) as [r st].
  exact H.
Qed.

End KeepsConstraints.

(** ** The solve pass does not depend on earlier warnings *)








Section Determinism.

Variable set_iter : RulerId -> list PinName -> list PinName.




Lemma in_heap_inv {A} (m : M Heap A) w r w' :
  in_heap m w = (r, w') ->
  exists h', m (heap w) = (r, h') /\ w' = mkWorld h' (warnings w).
Proof.
  unfold in_heap, zoom. destruct (m (heap w)) as [r0 h']. intros [= <- <-]. eauto.
Qed.

Lemma erase_with_length rid v h :
  erase (upd_ruler_at rid (Ruler.with_length v) h)
  = upd_ruler_at rid (Ruler.with_length v) (erase h).
Proof.
  apply list_eq. intros j. unfold upd_ruler_at.
  rewrite lookup_erase, !list_lookup_alter, !lookup_erase.
  destruct (decide (fst rid = j)) as [<- | _]; [| reflexivity].
  destruct (h !! fst rid) as [fr |]; [| reflexivity]. simpl. f_equal.
  destruct (snd rid), fr as [nm par [p1 p2 p3 l1] [q1 q2 q3 l2]]; reflexivity.
Qed.

Lemma ruler_at_erase h rid :
  ruler_at (erase h) rid = Ruler.clear_placement (ruler_at h rid).
Proof.
  unfold ruler_at. rewrite !list_lookup_total_alt, lookup_erase.
  destruct (h !! fst rid) as [fr |]; simpl; now destruct (snd rid).
Qed.

Lemma keeps_auto_size fuel lc dim a w w' :
  ruler_is_placeable (ruler_at (heap w) (canvas_frame lc, a)) = false ->
  auto_size set_iter fuel lc dim a w = (Ok tt, w') ->
  erase (heap w') = erase (heap w).
Proof.
  intros Hnp E. unfold auto_size in E.
  apply bind_inv_Ok in E as (len & w1 & E1 & E).
  apply bind_inv_Ok in E as ([] & w2 & E2 & E).
  apply bind_inv_Ok in E as ([] & w3 & E3 & E).
  apply bind_inv_Ok in E as ([] & w4 & E4 & E5).
  assert (Hlen : auto_rlen lc a (heap w) = Ok len /\ w1 = w).
  { unfold bind, gets, lift_outcome in E1.
    destruct (auto_rlen lc a (heap w)); inversion E1; now subst. }
  destruct Hlen as [Hlen ->].
  assert (H2 : heap w2 = heap w).
  { destruct (Py.eq len Py.zero); inversion E2; reflexivity. }
  apply in_heap_inv in E3 as (h3 & E3 & ->).
  apply in_heap_inv in E4 as (h4 & E4 & ->).
  apply in_heap_inv in E5 as (h5 & E5 & ->).
  cbn [heap] in *.
  assert (H3 : h3 = upd_ruler_at (canvas_frame lc, a) (Ruler.with_length (Some len))
                      (heap w)).
  { unfold set_ruler_length in E3. rewrite H2 in E3.
    destruct (Py.lt len Py.zero); inversion E3; reflexivity. }
  assert (H4 : erase h4 = erase h3).
  { pose proof (keeps_solve set_iter fuel (NRuler (canvas_frame lc, a)) h3) as H.
    now rewrite E4 in H. }
  assert (H5 : h5 = upd_ruler_at (canvas_frame lc, a) (Ruler.with_length None) h4).
  { now inversion E5. }
  destruct (auto_rlen_inv lc a (heap w) len Hlen) as (n & x & _ & Hx & _ & _).
  destruct (not_placeable_shape _ n x Hnp Hx) as (Hnone & _ & _).
  rewrite H5, erase_with_length, H4, H3, erase_with_length, upd_ruler_at_compose.
  apply upd_ruler_at_id. rewrite ruler_at_erase.
  destruct (ruler_at (heap w) (canvas_frame lc, a)) as [p1 p2 p3 l]. simpl in *.
  now subst.
Qed.

Lemma keeps_canvas fuel lc dim w w' :
  _solve_canvas_ruler_placement set_iter fuel lc dim w = (Ok tt, w') ->
  erase (heap w') = erase (heap w).
Proof.
  intros E. unfold _solve_canvas_ruler_placement in E.
  apply bind_inv_Ok in E as (a & w0 & Ea & E).
  assert (w0 = w) as ->.
  { destruct (String.eqb dim "width"); [now inversion Ea |].
    destruct (String.eqb dim "height"); now inversion Ea. }
  apply bind_inv_Ok in E as (r & w1 & Er & E).
  unfold gets in Er. injection Er as <- <-.
  apply bind_inv_Ok in E as ([] & w2 & Eb & Ev).
  apply in_heap_inv in Ev as (h' & Ev & ->). cbn [heap].
  pose proof (readonly_ruler_verify (canvas_frame lc, a) (heap w2)) as Hro.
  rewrite Ev in Hro. simpl in Hro. subst h'.
  destruct (Ruler.is_placed _); [now inversion Eb |].
  destruct (ruler_is_placeable _) eqn:Hnp.
  - apply in_heap_inv in Eb as (h' & Eb & ->). cbn [heap].
    pose proof (keeps_solve set_iter fuel (NRuler (canvas_frame lc, a)) (heap w)) as H.
    now rewrite Eb in H.
  - now apply (keeps_auto_size fuel lc dim a).
Qed.

Lemma keeps_in_heap {A} (m : M Heap A) :
  stable erase m -> stable (fun w => erase (heap w)) (in_heap m).
Proof.
  intros Hm. unfold in_heap. apply (stable_zoom erase); [| exact Hm].
  intros s t Hs. exact Hs.
Qed.

Lemma keeps_solve_all fuel lc w w' :
  solve_all set_iter fuel lc w = (Ok tt, w') ->
  erase (heap w') = erase (heap w).
Proof.
  intros E. unfold solve_all in E.
  apply bind_inv_Ok in E as ([] & w1 & E1 & E).
  apply bind_inv_Ok in E as ([] & w2 & E2 & E).
  apply bind_inv_Ok in E as ([] & w3 & E3 & E4).
  apply keeps_canvas in E3, E4. rewrite E4, E3.
  assert (H1 : erase (heap w1) = erase (heap w)).
  { pose proof (stable_for_each (fun w => erase (heap w)) (iter_frames lc)
                  (fun f => in_heap (solve set_iter fuel (NFrame f)))) as H.
    specialize (H (fun f => keeps_in_heap _ (keeps_solve set_iter fuel (NFrame f))) w).
    now rewrite E1 in H. }
  assert (H2 : erase (heap w2) = erase (heap w1)).
  { pose proof (stable_for_each (fun w => erase (heap w)) (iter_frames lc)
                  (fun f => in_heap (frame_verify_placement f))) as H.
    specialize (H (fun f => keeps_in_heap _
                     (stable_readonly erase _ (readonly_frame_verify f))) w1).
    now rewrite E2 in H. }
  now rewrite H2, H1.
Qed.

Lemma for_each_in_heap {A} (l : list A) (body : A -> M Heap unit) w :
  for_each l (fun x => in_heap (body x)) w = in_heap (for_each l body) w.
Proof.
  revert w. induction l as [| x l IH]; intros w; [now destruct w |].
  cbn [for_each]. unfold bind, in_heap, zoom in *.
  destruct (body x (heap w)) as [[[] | e |] h1]; try reflexivity.
  rewrite IH. reflexivity.
Qed.

(** [place_all_frames] is the preparation followed by the solving. *)
Lemma place_all_frames_effect fuel lc w :
  place_all_frames set_iter fuel lc w
  = match assoc (Py.lower (origin lc)) anchors_table with
    | None =>
      (Raise ValueError,
       mkWorld (alter erase_frame (canvas_frame lc) (heap w)) (warnings w))
    | Some (ph, pv) =>
      solve_all set_iter fuel lc (mkWorld (prepared lc ph pv (heap w)) (warnings w))
    end.
Proof.
  unfold place_all_frames.
  rewrite (bind_Ok _ _ w tt
             (mkWorld (alter erase_frame (canvas_frame lc) (heap w)) (warnings w))).
  2:{ unfold in_heap, zoom. now rewrite clear_placement_all. }
  unfold bind at 1. unfold in_heap at 1, zoom. cbn [heap warnings].
  rewrite set_origin_effect.
  destruct (assoc _ _) as [[ph pv] |]; [| reflexivity].
  unfold bind at 1. rewrite for_each_in_heap. unfold in_heap at 1, zoom.
  cbn [heap warnings]. rewrite for_each_clear. reflexivity.
Qed.






End Determinism.

(** ** The solver terminates *)








Section Termination.

Variable set_iter : RulerId -> list PinName -> list PinName.





End Termination.

(** ** The push and pop discipline of the path *)

Section Discipline.

Variable set_iter : RulerId -> list PinName -> list PinName.


End Discipline.

(** ** Instances *)

Lemma insertion_order_ok : set_iter_ok Examples.insertion_order.
Proof. intros r l. reflexivity. Qed.

(** C10 at the horizontal ruler of a frame that is anchored to the canvas
    and sized, before any solve. *)
Lemma solve_placement_without_placed_pin_witness :
  ruler_is_placeable (ruler_at Examples.one_frame_heap (1, h_ruler)) = true
  /\ ruler_solve_placement Examples.insertion_order (1, h_ruler) Examples.one_frame_heap
     = (Raise ValueError, Examples.one_frame_heap)
  /\ is_placement_error ValueError = false
  /\ calc_ruler_length Examples.insertion_order (1, h_ruler)
       (ruler_at Examples.one_frame_heap (1, h_ruler)) = Ok Py.zero
  /\ (forall rid' h',
        fst (ruler_solve_placement Examples.insertion_order rid' h')
        <> Raise DependencyUnplacedError).
Proof.
  apply (solve_placement_without_placed_pin Examples.insertion_order
           insertion_order_ok Examples.one_frame_heap (1, h_ruler) 4%float).
  - reflexivity.
  - exists pmin. reflexivity.
  - intros []; reflexivity.
Defined.



(** C1 on a frame named "A" in an empty heap. *)
Lemma single_frame_solved_witness :
  exists h',
    (f <- new_frame "A" None ;;
     set_placement f "bottomleft" (Py.Tuple [0%float; 0%float]) ;;
     set_size f (Some 4%float) (Some 2.5%float) ;;
     solve Examples.insertion_order 2 (NFrame f) ;;
     ret f) [] = (Ok 0, h')
    /\ get_placement h' 0 "topright" = Ok (Some 4%float, Some 2.5%float)
    /\ get_placement h' 0 "center" = Ok (Some 2%float, Some 1.25%float).
Proof.
  apply (single_frame_solved Examples.insertion_order 2 [] "A" None).
  - exact insertion_order_ok.
  - reflexivity.
  - lia.
Defined.



(** C6 on the same layout. *)
Lemma canvas_ruler_after_auto_sizing_witness :
  Ruler.is_placed
    (ruler_at (heap (snd (_solve_canvas_ruler_placement Examples.insertion_order 2
                            Examples.one_frame_layout "width"
                            (mkWorld Examples.one_frame_solved []))))
       (0, h_ruler)) = true
  /\ get_ruler_length Examples.insertion_order false (0, h_ruler)
       (ruler_at (heap (snd (_solve_canvas_ruler_placement Examples.insertion_order 2
                               Examples.one_frame_layout "width"
                               (mkWorld Examples.one_frame_solved []))))
          (0, h_ruler)) = Ok None.
Proof.
  pose proof (canvas_ruler_after_auto_sizing Examples.insertion_order 2
                Examples.one_frame_layout "width" h_ruler
                (mkWorld Examples.one_frame_solved []) 5%float
                insertion_order_ok (le_n 2) eq_refl eq_refl eq_refl eq_refl) as H.
  cbv zeta in H. destruct H as (H1 & H2 & _).
  split; [exact H1 | exact H2].
Defined.


(** C1 as it was stated fails: the frame "A" is added to a layout of the
    default arguments, its [bottomleft] is put at (0, 0) and its size is
    set to 4 by 2.5.  [place_all_frames] clears the placements of the
    registered frames before it solves, so that each ruler of the frame
    is left with its length only: the pass raises
    [PlacementUnsolvableError], and [topright] and [center] have no
    position. *)
Lemma single_frame_pass_counterexample :
  (r <- add_frame Examples.default_layout "A" LayoutAxesFrame ;;
   set_placement (fst r) "bottomleft" (Py.Tuple [0%float; 0%float]) ;;
   set_size (fst r) (Some 4%float) (Some 2.5%float) ;;
   ret r) Examples.canvas_only
  = (Ok (1, Examples.one_frame_layout), Examples.direct_heap)
  /\ get_placement Examples.direct_heap 1 "bottomleft" = Ok (Some 0%float, Some 0%float)
  /\ get_size Examples.insertion_order Examples.direct_heap 1
     = Ok (Some 4%float, Some 2.5%float)
  /\ fst (place_all_frames Examples.insertion_order 5 Examples.one_frame_layout
            (mkWorld Examples.direct_heap []))
     = Raise PlacementUnsolvableError
  /\ get_placement
       (heap (snd (place_all_frames Examples.insertion_order 5
                     Examples.one_frame_layout (mkWorld Examples.direct_heap []))))
       1 "topright"
     = Ok (None, None)
  /\ get_placement
       (heap (snd (place_all_frames Examples.insertion_order 5
                     Examples.one_frame_layout (mkWorld Examples.direct_heap []))))
       1 "center"
     = Ok (None, None).
Proof. repeat split; vm_compute; reflexivity. Qed.

(** The canvas itself is the frame of C1 when the layout is created with
    the size 4 by 2.5: its origin is placed by [place_all_frames]. *)
Lemma canvas_of_fixed_size_solved :
  exists w,
    place_all_frames Examples.insertion_order 5 Examples.default_layout
      (mkWorld Examples.sized_canvas []) = (Ok tt, w)
    /\ get_placement (heap w) 0 "topright" = Ok (Some 4%float, Some 2.5%float)
    /\ get_placement (heap w) 0 "center" = Ok (Some 2%float, Some 1.25%float).
Proof.
  exists (snd (place_all_frames Examples.insertion_order 5 Examples.default_layout
                 (mkWorld Examples.sized_canvas []))).
  split; [vm_compute; reflexivity |]. split; vm_compute; reflexivity.
Qed.

(** * Further properties of the solver *)

(** ** Pins under updates of the heap *)

Lemma get_upd_pin_same n g r :
  Ruler.get_pin n (Ruler.upd_pin n g r) = g (Ruler.get_pin n r).
Proof. now destruct n. Qed.

Lemma get_upd_pin_other n m g r :
  n <> m -> Ruler.get_pin m (Ruler.upd_pin n g r) = Ruler.get_pin m r.
Proof. destruct n, m; intros; try reflexivity; contradiction. Qed.

Lemma alter_outside {A} (g : A -> A) (i : nat) (l : list A) :
  length l <= i -> alter g i l = l.
Proof.
  intros Hi. apply list_eq. intros j. rewrite list_lookup_alter.
  destruct (decide (i = j)) as [<- | _]; [| reflexivity].
  now rewrite (lookup_ge_None_2 l i) by lia.
Qed.

Lemma upd_ruler_at_outside rid g h : length h <= fst rid -> upd_ruler_at rid g h = h.
Proof. intros Hi. unfold upd_ruler_at. now apply alter_outside. Qed.

Lemma pin_ruler_of rid n : pin_ruler (pin_of rid n) = rid.
Proof. now destruct rid. Qed.

Lemma pin_of_pin_ruler p : pin_of (pin_ruler p) (pin_name p) = p.
Proof. now destruct p. Qed.

Lemma pin_at_upd_same p g h :
  pin_frame p < length h -> pin_at (upd_pin_at p g h) p = g (pin_at h p).
Proof.
  intros Hi. unfold pin_at, upd_pin_at.
  rewrite ruler_at_upd_same by exact Hi. apply get_upd_pin_same.
Qed.

Lemma pin_at_upd_other p q g h :
  p <> q -> pin_at (upd_pin_at p g h) q = pin_at h q.
Proof.
  intros Hne. unfold pin_at, upd_pin_at.
  destruct (decide (pin_ruler p = pin_ruler q)) as [E | E].
  - destruct (decide (fst (pin_ruler p) < length h)) as [Hi | Hi].
    + rewrite <- E, ruler_at_upd_same by exact Hi.
      apply get_upd_pin_other. intros En. apply Hne.
      rewrite <- (pin_of_pin_ruler p), <- (pin_of_pin_ruler q). congruence.
    + now rewrite upd_ruler_at_outside by lia.
  - now rewrite ruler_at_upd_other.
Qed.

Lemma ruler_at_upd_pin_other p g h rid :
  pin_ruler p <> rid -> ruler_at (upd_pin_at p g h) rid = ruler_at h rid.
Proof. intros Hne. unfold upd_pin_at. now apply ruler_at_upd_other. Qed.

(** A pin that refers to another or has a position is a pin of the
    heap. *)
Lemma ref_pin_in_heap h p q :
  figpos_ref (pin_at h p) = Some q -> pin_frame p < length h.
Proof.
  intros E. destruct (decide (pin_frame p < length h)) as [Hi | Hi]; [exact Hi |].
  unfold pin_at in E. rewrite ruler_at_outside in E by (simpl; lia).
  now destruct (pin_name p).
Qed.

Lemma placed_in_heap h p x : figpos (pin_at h p) = Some x -> pin_frame p < length h.
Proof. intros E. unfold pin_at in E. now apply placed_pin_in_heap in E. Qed.

(** ** Placed pins stay where they are *)

Lemma keeps_placed_refl h : keeps_placed h h.
Proof. intros p x E. exact E. Qed.

Lemma keeps_placed_trans h1 h2 h3 :
  keeps_placed h1 h2 -> keeps_placed h2 h3 -> keeps_placed h1 h3.
Proof. intros H12 H23 p x E. apply H23, H12, E. Qed.

Lemma keeps_placed_set p v h :
  figpos (pin_at h p) = None -> keeps_placed h (upd_pin_at p (Pin.set_placement v) h).
Proof.
  intros Hn q x Hq. rewrite pin_at_upd_other; [exact Hq |]. intros ->. congruence.
Qed.

Lemma keeps_placed_with_length rid v h :
  keeps_placed h (upd_ruler_at rid (Ruler.with_length v) h).
Proof.
  intros q x Hq. unfold pin_at in *.
  destruct (decide (rid = pin_ruler q)) as [-> | Hne].
  - pose proof (placed_pin_in_heap _ _ _ _ Hq) as Hi.
    rewrite ruler_at_upd_same by exact Hi.
    destruct (ruler_at h (pin_ruler q)), (pin_name q); exact Hq.
  - now rewrite ruler_at_upd_other.
Qed.

Lemma keeps_placed_bind {S A B} (get : S -> Heap) (m : M S A) (k : A -> M S B) s :
  keeps_placed (get s) (get (snd (m s))) ->
  (forall a s1, m s = (Ok a, s1) -> keeps_placed (get s1) (get (snd (k a s1)))) ->
  keeps_placed (get s) (get (snd (bind m k s))).
Proof.
  intros Hm Hk. unfold bind. destruct (m s) as [[a | e |] s1] eqn:E; simpl in *;
    [| exact Hm ..].
  apply (keeps_placed_trans _ (get s1)); [exact Hm | now apply Hk].
Qed.

Lemma advances_bind {S A B} (get : S -> Heap) (m : M S A) (k : A -> M S B) :
  advances get m -> (forall a, advances get (k a)) -> advances get (bind m k).
Proof.
  intros Hm Hk s. apply keeps_placed_bind; [apply Hm |]. intros a s1 _. apply Hk.
Qed.

Lemma advances_for_each {S A} (get : S -> Heap) (l : list A) (body : A -> M S unit) :
  (forall x, advances get (body x)) -> advances get (for_each l body).
Proof.
  intros Hb. induction l as [| x l IH]; simpl.
  - intros s. apply keeps_placed_refl.
  - apply advances_bind; [apply Hb | intros _; exact IH].
Qed.

Lemma advances_readonly {S A} (get : S -> Heap) (m : M S A) :
  readonly m -> advances get m.
Proof. intros Hm s. rewrite Hm. apply keeps_placed_refl. Qed.

Lemma advances_in_heap {A} (m : M Heap A) :
  advances (fun h => h) m -> advances heap (in_heap m).
Proof.
  intros Hm w. unfold in_heap, zoom. specialize (Hm (heap w)).
  now destruct (m (heap w)).
Qed.

Lemma advances_place_from rid rp rlen n :
  advances (fun h => h) (place_from rid rp rlen n).
Proof.
  intros h. unfold place_from. unfold_monad.
  destruct (Pin.is_placed (pin_at h (pin_of rid n))) eqn:En;
    [apply keeps_placed_refl |].
  destruct (figpos (pin_at h (pin_of rid rp))); [| apply keeps_placed_refl].
  cbn [snd]. apply keeps_placed_set.
  unfold Pin.is_placed in En. now destruct (figpos (pin_at h (pin_of rid n))).
Qed.

Section Monotone.

Variable set_iter : RulerId -> list PinName -> list PinName.

Lemma advances_ruler_solve rid :
  advances (fun h => h) (ruler_solve_placement set_iter rid).
Proof.
  unfold ruler_solve_placement.
  apply advances_bind; [apply advances_readonly, readonly_gets |]. intros r.
  destruct (negb _).
  - apply advances_readonly.
    apply readonly_bind; [apply readonly_global_name | intros; apply readonly_raise].
  - destruct (get_ruler_length set_iter true rid r) as [[rlen |] | e |];
      try (apply advances_readonly, readonly_raise).
    + destruct (set_iter _ _); [apply advances_readonly, readonly_raise |].
      apply advances_for_each. intros n. apply advances_place_from.
    + intros h. apply keeps_placed_refl.
Qed.

Lemma advances_frame_solve f :
  advances (fun h => h) (frame_solve_placement set_iter f).
Proof.
  unfold frame_solve_placement. apply advances_for_each.
  intros rid. apply advances_ruler_solve.
Qed.

(** The local solve of a pin overwrites its position: it is harmless
    where the solver calls it, on a pin without one. *)
Lemma keeps_placed_pin_solve p h :
  figpos (pin_at h p) = None -> keeps_placed h (snd (pin_solve_placement p h)).
Proof.
  intros Hn. unfold pin_solve_placement. unfold_monad.
  destruct (figpos_ref (pin_at h p)) as [ref |]; [| apply keeps_placed_refl].
  destruct (figpos (pin_at h ref)).
  - cbn [snd]. now apply keeps_placed_set.
  - unfold Element.global_name.
    repeat (destruct (Element.node_global_name _ _); cbn [snd]);
      apply keeps_placed_refl.
Qed.

Lemma keeps_placed_solve_placement n h :
  is_placed h n = false -> keeps_placed h (snd (solve_placement set_iter n h)).
Proof.
  destruct n as [f | rid | p]; simpl; intros Hn.
  - apply advances_frame_solve.
  - apply advances_ruler_solve.
  - apply keeps_placed_pin_solve. unfold Pin.is_placed in Hn.
    now destruct (figpos (pin_at h p)).
Qed.

Lemma advances_solve_body recur :
  (forall n, advances st_heap (recur n)) ->
  forall self, advances st_heap (solve_body set_iter recur self).
Proof.
  intros Hrec self st. unfold solve_body.
  apply keeps_placed_bind; [apply keeps_placed_refl |].
  intros path s0 E. unfold gets in E. injection E as <- <-.
  destruct (bool_decide _).
  { unfold_monad. destruct (Element.global_names _ _); apply keeps_placed_refl. }
  apply keeps_placed_bind; [apply keeps_placed_refl |].
  intros placed s0 E. unfold gets in E. injection E as <- <-.
  destruct (negb (is_placed (st_heap st) self)); [| apply keeps_placed_refl].
  apply keeps_placed_bind; [apply keeps_placed_refl |].
  intros [] s1 E. unfold modify in E. injection E as <-.
  apply keeps_placed_bind; [apply keeps_placed_refl |].
  intros deps s2 E. unfold gets in E. injection E as <- <-.
  apply keeps_placed_bind; [apply advances_for_each, Hrec |].
  intros [] s3 _.
  apply keeps_placed_bind; [apply keeps_placed_refl |].
  intros placed' s4 E. unfold gets in E. injection E as <- <-.
  apply keeps_placed_bind; [| intros [] s5 _; apply keeps_placed_refl].
  destruct (negb (is_placed (st_heap s3) self)) eqn:Hp; [| apply keeps_placed_refl].
  apply negb_true_iff in Hp. unfold on_heap, zoom.
  pose proof (keeps_placed_solve_placement self (st_heap s3) Hp) as H.
  now destruct (solve_placement set_iter self (st_heap s3)).
Qed.

Lemma advances_solve_rec fuel self :
  advances st_heap (solve_placement_resursive set_iter fuel self).
Proof.
  revert self. induction fuel as [| fuel IH]; intros self.
  - intros st. apply keeps_placed_refl.
  - simpl. now apply advances_solve_body.
Qed.

Lemma advances_solve fuel self : advances (fun h => h) (solve set_iter fuel self).
Proof.
  intros h. unfold solve, zoom.
  pose proof (advances_solve_rec fuel self (mkSolver h [])) as H.
  now destruct (solve_placement_resursive set_iter fuel self (mkSolver h [])).
Qed.

End Monotone.

(** ** What stays placed *)

Lemma ruler_placed_pins r :
  Ruler.is_placed r = true <-> forall n, Pin.is_placed (Ruler.get_pin n r) = true.
Proof.
  unfold Ruler.is_placed, Ruler.iter_pin_names. simpl. split.
  - intros H n. apply andb_prop in H as [H1 H]. apply andb_prop in H as [H2 H].
    apply andb_prop in H as [H3 _]. now destruct n.
  - intros H. pose proof (H pmax) as H1. pose proof (H pmid) as H2.
    pose proof (H pmin) as H3. simpl in H1, H2, H3. now rewrite H1, H2, H3.
Qed.

Lemma keeps_placed_pin h h' p :
  keeps_placed h h' -> Pin.is_placed (pin_at h p) = true ->
  Pin.is_placed (pin_at h' p) = true.
Proof.
  intros Hk Hp. unfold Pin.is_placed in *.
  destruct (figpos (pin_at h p)) as [x |] eqn:E; [| discriminate].
  now rewrite (Hk p x E).
Qed.

Lemma keeps_placed_ruler h h' rid :
  keeps_placed h h' -> Ruler.is_placed (ruler_at h rid) = true ->
  Ruler.is_placed (ruler_at h' rid) = true.
Proof.
  intros Hk Hp. apply ruler_placed_pins. intros n.
  rewrite <- pin_at_of. apply (keeps_placed_pin h); [exact Hk |].
  rewrite pin_at_of. now apply ruler_placed_pins.
Qed.

Lemma frame_placed_rulers h f :
  frame_is_placed h f = true
  <-> forall a, Ruler.is_placed (ruler_at h (f, a)) = true.
Proof.
  unfold frame_is_placed, frame_get_dependencies. simpl. split.
  - intros H a. apply andb_prop in H as [H1 H]. apply andb_prop in H as [H2 _].
    now destruct a.
  - intros H. now rewrite (H h_ruler), (H v_ruler).
Qed.

Lemma keeps_placed_node h h' n :
  keeps_placed h h' -> is_placed h n = true -> is_placed h' n = true.
Proof.
  intros Hk. destruct n as [f | rid | p]; simpl.
  - intros H. apply frame_placed_rulers. intros a.
    apply (keeps_placed_ruler h); [exact Hk |]. now apply frame_placed_rulers.
  - now apply keeps_placed_ruler.
  - now apply keeps_placed_pin.
Qed.

(** ** A local solve that returns has placed the element *)

Lemma pin_solve_places p h h' :
  pin_solve_placement p h = (Ok tt, h') -> Pin.is_placed (pin_at h' p) = true.
Proof.
  unfold pin_solve_placement. unfold_monad.
  destruct (figpos_ref (pin_at h p)) as [ref |] eqn:Er; [| discriminate].
  destruct (figpos (pin_at h ref)).
  - intros [= <-]. rewrite pin_at_upd_same by (now apply (ref_pin_in_heap h p ref)).
    reflexivity.
  - unfold Element.global_name.
    repeat (destruct (Element.node_global_name _ _); try discriminate).
Qed.

Lemma place_from_places rid rp rlen n h h' :
  place_from rid rp rlen n h = (Ok tt, h') ->
  Pin.is_placed (Ruler.get_pin n (ruler_at h' rid)) = true
  /\ (forall rid', rid' <> rid -> ruler_at h' rid' = ruler_at h rid').
Proof.
  unfold place_from. unfold_monad. cbv beta. rewrite !pin_at_of.
  destruct (Pin.is_placed (Ruler.get_pin n (ruler_at h rid))) eqn:En.
  - intros [= <-]. now split.
  - rewrite !pin_at_of.
    destruct (figpos (Ruler.get_pin rp (ruler_at h rid))) as [x |] eqn:Ex;
      [| discriminate].
    intros [= <-]. rewrite upd_pin_at_of. split.
    + rewrite ruler_at_upd_same by (now apply (placed_pin_in_heap h rid rp x)).
      now rewrite get_upd_pin_same.
    + intros rid' Hne. apply ruler_at_upd_other. congruence.
Qed.

Lemma place_loop_places rid rp rlen h h' :
  for_each Ruler.iter_pin_names (place_from rid rp rlen) h = (Ok tt, h') ->
  Ruler.is_placed (ruler_at h' rid) = true
  /\ (forall rid', rid' <> rid -> ruler_at h' rid' = ruler_at h rid').
Proof.
  unfold Ruler.iter_pin_names. cbn [for_each]. intros E.
  apply bind_inv_Ok in E as ([] & h1 & E1 & E).
  apply bind_inv_Ok in E as ([] & h2 & E2 & E).
  apply bind_inv_Ok in E as ([] & h3 & E3 & E).
  unfold ret in E. injection E as <-.
  pose proof (advances_place_from rid rp rlen pmid h1) as K2.
  pose proof (advances_place_from rid rp rlen pmin h2) as K3.
  rewrite E2 in K2. rewrite E3 in K3. cbn [snd] in K2, K3.
  apply place_from_places in E1 as [P1 O1].
  apply place_from_places in E2 as [P2 O2].
  apply place_from_places in E3 as [P3 O3].
  split.
  - apply ruler_placed_pins. intros n. rewrite <- pin_at_of. destruct n.
    + apply (keeps_placed_pin h2); [exact K3 |].
      apply (keeps_placed_pin h1); [exact K2 |]. now rewrite pin_at_of.
    + apply (keeps_placed_pin h2); [exact K3 |]. now rewrite pin_at_of.
    + now rewrite pin_at_of.
  - intros rid' Hne. now rewrite O3, O2, O1.
Qed.

Section Solved.

Variable set_iter : RulerId -> list PinName -> list PinName.

Local Abbreviation solve_rec := (solve_placement_resursive set_iter).

Lemma ruler_solve_places rid h h' :
  ruler_solve_placement set_iter rid h = (Ok tt, h') ->
  Ruler.is_placed (ruler_at h' rid) = true
  /\ (forall rid', rid' <> rid -> ruler_at h' rid' = ruler_at h rid').
Proof.
  unfold ruler_solve_placement. unfold_monad.
  destruct (negb _).
  { unfold Element.global_name. destruct (Element.node_global_name _ _); discriminate. }
  destruct (get_ruler_length set_iter true rid (ruler_at h rid)) as [[rlen |] | e |];
    try discriminate.
  destruct (set_iter _ _) as [| rp l]; [discriminate |].
  apply place_loop_places.
Qed.

Lemma frame_solve_places f h h' :
  frame_solve_placement set_iter f h = (Ok tt, h') -> frame_is_placed h' f = true.
Proof.
  unfold frame_solve_placement, frame_get_dependencies. cbn [for_each]. intros E.
  apply bind_inv_Ok in E as ([] & h1 & E1 & E).
  apply bind_inv_Ok in E as ([] & h2 & E2 & E).
  unfold ret in E. injection E as <-.
  apply ruler_solve_places in E1 as [P1 _].
  apply ruler_solve_places in E2 as [P2 O2].
  apply frame_placed_rulers. intros [].
  - rewrite O2 by discriminate. exact P1.
  - exact P2.
Qed.

Lemma solve_placement_places n h h' :
  solve_placement set_iter n h = (Ok tt, h') -> is_placed h' n = true.
Proof.
  destruct n as [f | rid | p]; simpl; intros E.
  - now apply frame_solve_places in E.
  - now apply ruler_solve_places in E.
  - now apply pin_solve_places in E.
Qed.

Lemma solve_rec_places fuel self st st' :
  solve_rec fuel self st = (Ok tt, st') -> is_placed (st_heap st') self = true.
Proof.
  destruct fuel as [| fuel]; [discriminate |]. simpl. unfold solve_body. intros E.
  apply bind_inv_Ok in E as (path & s0 & E0 & E).
  unfold gets in E0. injection E0 as <- <-.
  destruct (bool_decide _).
  { unfold_monad. destruct (Element.global_names _ _); discriminate. }
  apply bind_inv_Ok in E as (placed & s0 & E0 & E).
  unfold gets in E0. injection E0 as <- <-.
  destruct (is_placed (st_heap st) self) eqn:Hp; cbn [negb] in E.
  { unfold ret in E. injection E as <-. exact Hp. }
  apply bind_inv_Ok in E as ([] & s1 & E1 & E).
  apply bind_inv_Ok in E as (deps & s2 & E2 & E).
  apply bind_inv_Ok in E as ([] & s3 & E3 & E).
  apply bind_inv_Ok in E as (placed' & s4 & E4 & E).
  unfold gets in E4. injection E4 as <- <-.
  apply bind_inv_Ok in E as ([] & s5 & E5 & E).
  unfold modify in E. injection E as <-.
  unfold path_pop. cbn [st_heap].
  destruct (is_placed (st_heap s3) self) eqn:Hp3; cbn [negb] in E5.
  - unfold ret in E5. injection E5 as <-. exact Hp3.
  - unfold on_heap, zoom in E5.
    destruct (solve_placement set_iter self (st_heap s3)) as [r h'] eqn:Es.
    injection E5 as -> <-. cbn [st_heap]. now apply solve_placement_places in Es.
Qed.

Lemma solve_places fuel self h h' :
  solve set_iter fuel self h = (Ok tt, h') -> is_placed h' self = true.
Proof.
  unfold solve, zoom.
  destruct (solve_rec fuel self (mkSolver h [])) as [r st'] eqn:E.
  intros [= -> <-]. now apply (solve_rec_places fuel self _ _ E).
Qed.

(** X1: a call of [solve_placement_resursive] that returns leaves the
    element placed, whatever the path it was called with: a pin has a
    position, a ruler has its three pins placed, a frame has both its
    rulers placed. *)
Theorem solved_element_is_placed (fuel : nat) (self : Node) (st st' : SolverState) :
  solve_placement_resursive set_iter fuel self st = (Ok tt, st') ->
  is_placed (st_heap st') self = true
  /\ dep_path st' = dep_path st.
Proof.
  intros E. split.
  - now apply (solve_rec_places fuel self st).
  - now apply (dep_path_effect set_iter fuel self st st' (Ok tt) E).
Qed.

End Solved.

(** ** What solving leaves untouched *)

Lemma pin_at_erase_ref h p :
  figpos_ref (pin_at (erase h) p) = figpos_ref (pin_at h p)
  /\ figpos_offset (pin_at (erase h) p) = figpos_offset (pin_at h p).
Proof.
  unfold pin_at. rewrite ruler_at_erase.
  destruct (ruler_at h (pin_ruler p)) as [p1 p2 p3 l]. now destruct (pin_name p).
Qed.

Lemma same_constraints_pin h h' p :
  erase h' = erase h ->
  figpos_ref (pin_at h' p) = figpos_ref (pin_at h p)
  /\ figpos_offset (pin_at h' p) = figpos_offset (pin_at h p).
Proof.
  intros E. destruct (pin_at_erase_ref h p) as [R O].
  destruct (pin_at_erase_ref h' p) as [R' O']. rewrite E in R', O'.
  split; congruence.
Qed.

Lemma same_constraints_length h h' rid :
  erase h' = erase h -> _ruler_length (ruler_at h' rid) = _ruler_length (ruler_at h rid).
Proof.
  intros E.
  assert (H : forall g, _ruler_length (ruler_at (erase g) rid)
                        = _ruler_length (ruler_at g rid)).
  { intros g. rewrite ruler_at_erase. now destruct (ruler_at g rid). }
  rewrite <- (H h'), E. apply H.
Qed.

Lemma same_constraints_size h h' : erase h' = erase h -> length h' = length h.
Proof. intros E. now rewrite <- (length_erase h'), E, length_erase. Qed.

Lemma same_constraints_name h h' f :
  erase h' = erase h ->
  name (h' !!! f) = name (h !!! f) /\ parent (h' !!! f) = parent (h !!! f).
Proof.
  intros E.
  assert (H : forall g : Heap, name (erase g !!! f) = name (g !!! f)
                               /\ parent (erase g !!! f) = parent (g !!! f)).
  { intros g. rewrite !list_lookup_total_alt, lookup_erase.
    destruct (g !! f) as [fr |]; simpl; [now destruct fr | now split]. }
  destruct (H h) as [N P]. destruct (H h') as [N' P']. rewrite E in N', P'.
  split; congruence.
Qed.

Section OnlyPositions.

Variable set_iter : RulerId -> list PinName -> list PinName.

(** X2: whatever it returns or raises, [solve_placement_resursive] only
    gives positions to pins that had none: a pin that has a position
    keeps it, and no reference, offset, explicit length, name or parent
    is changed, nor the number of objects. *)
Theorem solver_only_adds_positions (fuel : nat) (self : Node) (st : SolverState) :
  let h := st_heap st in
  let h' := st_heap (snd (solve_placement_resursive set_iter fuel self st)) in
  (forall p x, figpos (pin_at h p) = Some x -> figpos (pin_at h' p) = Some x)
  /\ (forall p, figpos_ref (pin_at h' p) = figpos_ref (pin_at h p)
                /\ figpos_offset (pin_at h' p) = figpos_offset (pin_at h p))
  /\ (forall rid, _ruler_length (ruler_at h' rid) = _ruler_length (ruler_at h rid))
  /\ length h' = length h
  /\ (forall f, name (h' !!! f) = name (h !!! f)
                /\ parent (h' !!! f) = parent (h !!! f)).
Proof.
  intros h h'.
  pose proof (keeps_solve_rec set_iter fuel self st) as E. fold h h' in E.
  split; [exact (advances_solve_rec set_iter fuel self st) |].
  split; [intros p; now apply same_constraints_pin |].
  split; [intros rid; now apply same_constraints_length |].
  split; [now apply same_constraints_size |].
  intros f. now apply same_constraints_name.
Qed.

End OnlyPositions.

(** ** What a verification that returns has checked *)

Lemma pin_verify_complies p h :
  fst (pin_verify_placement p h) = Ok tt <-> pin_complies h p.
Proof.
  unfold pin_verify_placement, pin_complies. unfold_monad.
  destruct (figpos_ref (pin_at h p)) as [ref |]; cbn [fst].
  2:{ split; [intros _ q Hq; discriminate | reflexivity]. }
  destruct (figpos (pin_at h p)) as [pos |].
  2:{ split; [discriminate |]. intros H.
      destruct (H ref eq_refl) as (x & y & Hx & _). discriminate. }
  destruct (figpos (pin_at h ref)) as [rpos |] eqn:Eref.
  2:{ split; [discriminate |]. intros H.
      destruct (H ref eq_refl) as (x & y & _ & Hy & _). congruence. }
  destruct (Py.isclose (PrimFloat.sub pos rpos) (figpos_offset (pin_at h p))) eqn:Hc;
    cbn [negb].
  - split; [| reflexivity]. intros _ q [= <-]. now exists pos, rpos.
  - split.
    + unfold Element.global_name.
      repeat (destruct (Element.node_global_name _ _); try discriminate).
    + intros H. destruct (H ref eq_refl) as (x & y & [= <-] & Hy & Hxy).
      rewrite Eref in Hy. injection Hy as <-. congruence.
Qed.

Lemma for_each_readonly_returns {A} (l : list A) (body : A -> M Heap unit) h :
  (forall x, readonly (body x)) ->
  fst (for_each l body h) = Ok tt <-> (forall x, In x l -> fst (body x h) = Ok tt).
Proof.
  intros Hro. induction l as [| x l IH]; cbn [for_each].
  - split; [intros _ y [] | reflexivity].
  - unfold bind. pose proof (Hro x h) as Hx.
    destruct (body x h) as [[[] | e |] h1] eqn:E; cbn [snd] in Hx; subst.
    + rewrite IH. split.
      * intros H y [<- | Hy]; [now rewrite E | now apply H].
      * intros H y Hy. apply H. now right.
    + split; [discriminate |]. intros H. specialize (H x (or_introl eq_refl)).
      now rewrite E in H.
    + split; [discriminate |]. intros H. specialize (H x (or_introl eq_refl)).
      now rewrite E in H.
Qed.

Lemma names_then_raise_fails (l : list PinName) rid (e : exn) h :
  fst ((for_each l (fun n => Element.global_name (NPin (pin_of rid n)) ;; ret tt) ;;
        (raise e : M Heap unit)) h) <> Ok tt.
Proof.
  unfold bind at 1.
  destruct (for_each l _ h) as [[[] | e' |] h1]; discriminate.
Qed.

Lemma ruler_verify_complies rid h :
  fst (ruler_verify_placement rid h) = Ok tt <-> ruler_complies h rid.
Proof.
  unfold ruler_verify_placement, ruler_complies.
  set (pins := for_each Ruler.iter_pin_names
                 (fun n => pin_verify_placement (pin_of rid n))).
  assert (Hpins : fst (pins h) = Ok tt <-> forall n, pin_complies h (pin_of rid n)).
  { unfold pins. rewrite for_each_readonly_returns
      by (intros n; apply readonly_pin_verify).
    split.
    - intros H n. apply pin_verify_complies, H. destruct n; simpl; auto.
    - intros H n _. now apply pin_verify_complies. }
  assert (Hro : snd (pins h) = h).
  { apply readonly_for_each. intros n. apply readonly_pin_verify. }
  unfold bind at 1. destruct (pins h) as [[[] | e |] h1]; cbn [fst snd] in *; subst h1.
  2,3: (split; [discriminate | intros [H _]; apply Hpins in H; discriminate]).
  unfold bind at 1, gets.
  destruct (figpos (pmax_pin (ruler_at h rid))) as [xmax |].
  2:{ split; [discriminate |]. intros (_ & a & b & c & H & _). discriminate. }
  destruct (figpos (pmin_pin (ruler_at h rid))) as [xmin |].
  2:{ split; [discriminate |]. intros (_ & a & b & c & _ & _ & H & _). discriminate. }
  destruct (figpos (pmid_pin (ruler_at h rid))) as [xmid |].
  2:{ split; [discriminate |]. intros (_ & a & b & c & _ & H & _). discriminate. }
  destruct (Py.isclose (PrimFloat.add xmax xmin) (PrimFloat.mul xmid 2)) eqn:Hc;
    cbn [negb].
  - destruct (Py.lt xmax xmin) eqn:Hl.
    + split; [intros H; now apply names_then_raise_fails in H |].
      intros (_ & a & b & c & [= <-] & _ & [= <-] & _ & H). congruence.
    + split; [| reflexivity]. intros _. split; [now apply Hpins |].
      now exists xmax, xmid, xmin.
  - split; [intros H; now apply names_then_raise_fails in H |].
    intros (_ & a & b & c & [= <-] & [= <-] & [= <-] & H & _). congruence.
Qed.

Lemma frame_verify_complies f h :
  fst (frame_verify_placement f h) = Ok tt
  <-> forall a, ruler_complies h (f, a).
Proof.
  unfold frame_verify_placement, frame_get_dependencies.
  rewrite for_each_readonly_returns by (intros rid; apply readonly_ruler_verify).
  split.
  - intros H a. apply ruler_verify_complies, H. destruct a; simpl; auto.
  - intros H rid [<- | [<- | []]]; now apply ruler_verify_complies.
Qed.

(** X3: [verify_placement] changes nothing, on a pin, a ruler or a
    frame, whatever it raises; and on a ruler it returns exactly when
    the three pins have positions, every pin with a reference is, within
    the tolerance of [math.isclose], at the offset from its placed
    reference, the middle pin is in the middle and the maximum is not
    below the minimum. *)
Theorem verify_placement_checks_only (h : Heap) :
  (forall n, snd (verify_placement n h) = h)
  /\ (forall rid, ruler_verify_placement rid h = (Ok tt, h) <-> ruler_complies h rid)
  /\ (forall f, frame_verify_placement f h = (Ok tt, h)
                <-> forall a, ruler_complies h (f, a)).
Proof.
  split; [| split].
  - intros [f | rid | p]; simpl.
    + apply readonly_frame_verify.
    + apply readonly_ruler_verify.
    + apply readonly_pin_verify.
  - intros rid. rewrite <- ruler_verify_complies.
    pose proof (readonly_ruler_verify rid h) as Hro.
    destruct (ruler_verify_placement rid h) as [r h1]. cbn [fst snd] in *. subst h1.
    split; [now intros [= ->] | now intros ->].
  - intros f. rewrite <- frame_verify_complies.
    pose proof (readonly_frame_verify f h) as Hro.
    destruct (frame_verify_placement f h) as [r h1]. cbn [fst snd] in *. subst h1.
    split; [now intros [= ->] | now intros ->].
Qed.

(** ** Compliance survives later solving *)

Lemma pin_complies_later h h' p :
  erase h' = erase h -> keeps_placed h h' -> pin_complies h p -> pin_complies h' p.
Proof.
  intros E K H q Hq. destruct (same_constraints_pin h h' p E) as [R O].
  rewrite R in Hq. destruct (H q Hq) as (x & y & Hx & Hy & Hc).
  exists x, y. rewrite O. auto.
Qed.

Lemma ruler_complies_later h h' rid :
  erase h' = erase h -> keeps_placed h h' -> ruler_complies h rid ->
  ruler_complies h' rid.
Proof.
  intros E K [Hp (xmax & xmid & xmin & H1 & H2 & H3 & Hc & Hl)]. split.
  - intros n. now apply (pin_complies_later h).
  - exists xmax, xmid, xmin.
    pose proof (K (pin_of rid pmax) xmax) as K1.
    pose proof (K (pin_of rid pmid) xmid) as K2.
    pose proof (K (pin_of rid pmin) xmin) as K3.
    rewrite !pin_at_of in K1, K2, K3. simpl in K1, K2, K3. auto.
Qed.

(** ** The state after a solve pass *)

Section AfterThePass.

Variable set_iter : RulerId -> list PinName -> list PinName.

Lemma advances_auto_size fuel lc dim a :
  advances heap (auto_size set_iter fuel lc dim a).
Proof.
  unfold auto_size. apply advances_bind.
  { apply advances_readonly. apply readonly_bind; [apply readonly_gets |].
    intros h. destruct (auto_rlen lc a h); intros w; reflexivity. }
  intros rlen. apply advances_bind.
  { destruct (Py.eq rlen Py.zero); intros w; apply keeps_placed_refl. }
  intros _. apply advances_bind.
  { apply advances_in_heap. intros h. unfold set_ruler_length.
    destruct (Py.lt rlen Py.zero); [apply keeps_placed_refl |].
    apply keeps_placed_with_length. }
  intros _. apply advances_bind; [apply advances_in_heap, advances_solve |].
  intros _. apply advances_in_heap. intros h. apply keeps_placed_with_length.
Qed.

Lemma advances_canvas fuel lc dim :
  advances heap (_solve_canvas_ruler_placement set_iter fuel lc dim).
Proof.
  unfold _solve_canvas_ruler_placement. apply advances_bind.
  { apply advances_readonly.
    destruct (String.eqb dim "width"); [apply readonly_ret |].
    destruct (String.eqb dim "height"); [apply readonly_ret | apply readonly_raise]. }
  intros a. apply advances_bind; [apply advances_readonly, readonly_gets |].
  intros r. apply advances_bind.
  - destruct (Ruler.is_placed r); [intros w; apply keeps_placed_refl |].
    destruct (ruler_is_placeable r);
      [apply advances_in_heap, advances_solve | apply advances_auto_size].
  - intros _. apply advances_in_heap, advances_readonly, readonly_ruler_verify.
Qed.

Lemma with_length_placed v r :
  Ruler.is_placed (Ruler.with_length v r) = Ruler.is_placed r.
Proof. now destruct r. Qed.

(** A canvas ruler is placed and complies when its resolution returns. *)
Lemma canvas_ruler_settled fuel lc dim w w' :
  _solve_canvas_ruler_placement set_iter fuel lc dim w = (Ok tt, w') ->
  exists a,
    axis_of_dim dim = Some a
    /\ Ruler.is_placed (ruler_at (heap w') (canvas_frame lc, a)) = true
    /\ ruler_complies (heap w') (canvas_frame lc, a).
Proof.
  intros E. unfold _solve_canvas_ruler_placement in E.
  apply bind_inv_Ok in E as (a & w0 & Ea & E).
  assert (Hdim : axis_of_dim dim = Some a /\ w0 = w).
  { unfold axis_of_dim. destruct (String.eqb dim "width"); [now inversion Ea |].
    destruct (String.eqb dim "height"); now inversion Ea. }
  destruct Hdim as [Hdim ->]. exists a. split; [exact Hdim |].
  apply bind_inv_Ok in E as (r & w1 & Er & E).
  unfold gets in Er. injection Er as <- <-.
  apply bind_inv_Ok in E as ([] & w2 & Eb & Ev).
  apply in_heap_inv in Ev as (h' & Ev & ->). cbn [heap].
  pose proof (readonly_ruler_verify (canvas_frame lc, a) (heap w2)) as Hro.
  rewrite Ev in Hro. cbn [snd] in Hro. subst h'.
  split.
  2:{ apply ruler_verify_complies. now rewrite Ev. }
  destruct (Ruler.is_placed (ruler_at (heap w) (canvas_frame lc, a))) eqn:Hp.
  { unfold ret in Eb. now injection Eb as <-. }
  destruct (ruler_is_placeable _).
  - apply in_heap_inv in Eb as (h' & Eb & ->). cbn [heap].
    now apply (solve_places set_iter fuel (NRuler (canvas_frame lc, a))) in Eb.
  - unfold auto_size in Eb.
    apply bind_inv_Ok in Eb as (len & w3 & _ & Eb).
    apply bind_inv_Ok in Eb as ([] & w4 & _ & Eb).
    apply bind_inv_Ok in Eb as ([] & w5 & _ & Eb).
    apply bind_inv_Ok in Eb as ([] & w6 & E6 & E7).
    apply in_heap_inv in E6 as (h6 & E6 & ->).
    apply in_heap_inv in E7 as (h7 & E7 & ->). cbn [heap] in *.
    apply (solve_places set_iter fuel (NRuler (canvas_frame lc, a))) in E6.
    unfold clear_ruler_length, set_ruler_length, modify in E7. injection E7 as <-.
    cbn [is_placed] in E6.
    rewrite ruler_at_upd_same, with_length_placed; [exact E6 |].
    destruct (decide (fst (canvas_frame lc, a) < length h6)) as [Hi | Hi];
      [exact Hi |].
    rewrite ruler_at_outside in E6 by lia. discriminate.
Qed.

(** After the loop that solves the frames, each of them is placed. *)
Lemma frames_solved fuel (l : list FrameId) w w' :
  for_each l (fun f => in_heap (solve set_iter fuel (NFrame f))) w = (Ok tt, w') ->
  forall f, In f l -> frame_is_placed (heap w') f = true.
Proof.
  revert w. induction l as [| g l IH]; intros w E f Hf; [destruct Hf |].
  cbn [for_each] in E. apply bind_inv_Ok in E as ([] & w1 & E1 & E).
  destruct Hf as [<- | Hf]; [| now apply (IH w1)].
  apply in_heap_inv in E1 as (h1 & E1 & ->).
  apply (solve_places set_iter fuel (NFrame g)) in E1.
  pose proof (advances_for_each heap l
                (fun f => in_heap (solve set_iter fuel (NFrame f)))
                (fun f => advances_in_heap _ (advances_solve set_iter fuel (NFrame f)))
                (mkWorld h1 (warnings w))) as K.
  rewrite E in K. cbn [snd heap] in K.
  now apply (keeps_placed_node h1 (heap w') (NFrame g)).
Qed.

(** After the loop that verifies the frames, each of them complies. *)
Lemma frames_verified (l : list FrameId) w w' :
  for_each l (fun f => in_heap (frame_verify_placement f)) w = (Ok tt, w') ->
  heap w' = heap w
  /\ forall f a, In f l -> ruler_complies (heap w) (f, a).
Proof.
  rewrite for_each_in_heap. intros E.
  apply in_heap_inv in E as (h' & E & ->). cbn [heap].
  pose proof (readonly_for_each l frame_verify_placement readonly_frame_verify (heap w))
    as Hro.
  rewrite E in Hro. cbn [snd] in Hro. subst h'. split; [reflexivity |].
  intros f a Hf.
  assert (H : fst (for_each l frame_verify_placement (heap w)) = Ok tt)
    by now rewrite E.
  rewrite for_each_readonly_returns in H by apply readonly_frame_verify.
  now apply frame_verify_complies, H.
Qed.

Lemma pass_settles fuel lc w w' :
  place_all_frames set_iter fuel lc w = (Ok tt, w') ->
  forall f a, f = canvas_frame lc \/ In f (iter_frames lc) ->
    Ruler.is_placed (ruler_at (heap w') (f, a)) = true
    /\ ruler_complies (heap w') (f, a).
Proof.
  intros E f a Hf.
  rewrite place_all_frames_effect in E.
  destruct (assoc _ _) as [[ph pv] |]; [| discriminate].
  unfold solve_all in E.
  apply bind_inv_Ok in E as ([] & w1 & E1 & E).
  apply bind_inv_Ok in E as ([] & w2 & E2 & E).
  apply bind_inv_Ok in E as ([] & w3 & E3 & E4).
  pose proof (frames_solved fuel _ _ _ E1) as Hsolved.
  apply frames_verified in E2 as [H2 Hverified].
  pose proof (keeps_canvas set_iter fuel lc _ _ _ E3) as Ke3.
  pose proof (keeps_canvas set_iter fuel lc _ _ _ E4) as Ke4.
  pose proof (advances_canvas fuel lc "width" w2) as K3.
  pose proof (advances_canvas fuel lc "height" w3) as K4.
  rewrite E3 in K3. rewrite E4 in K4. cbn [snd] in K3, K4.
  apply canvas_ruler_settled in E3 as (a3 & Ha3 & P3 & C3).
  apply canvas_ruler_settled in E4 as (a4 & Ha4 & P4 & C4).
  injection Ha3 as <-. injection Ha4 as <-.
  destruct Hf as [-> | Hf].
  - destruct a.
    + split; [now apply (keeps_placed_ruler (heap w3)) |].
      now apply (ruler_complies_later (heap w3)).
    + now split.
  - rewrite <- H2 in Hverified. split.
    + apply (keeps_placed_ruler (heap w3)); [exact K4 |].
      apply (keeps_placed_ruler (heap w2)); [exact K3 |].
      rewrite H2. now apply frame_placed_rulers, Hsolved.
    + apply (ruler_complies_later (heap w3)); [exact Ke4 | exact K4 |].
      apply (ruler_complies_later (heap w2)); [exact Ke3 | exact K3 |].
      now apply Hverified.
Qed.

(** X4: when [place_all_frames] returns, the canvas and every registered
    frame are placed on both axes and verify: [verify_placement] on any
    of their rulers returns in the final state, so that every pin with a
    reference is at its offset from the reference within the tolerance,
    the middle pins are in the middle, and no ruler has its maximum
    below its minimum. *)
Theorem pass_leaves_the_layout_placed (fuel : nat) (lc : LayoutCreator) (w w' : World) :
  place_all_frames set_iter fuel lc w = (Ok tt, w') ->
  forall f a, f = canvas_frame lc \/ In f (iter_frames lc) ->
    Ruler.is_placed (ruler_at (heap w') (f, a)) = true
    /\ ruler_verify_placement (f, a) (heap w') = (Ok tt, heap w')
    /\ ruler_complies (heap w') (f, a).
Proof.
  intros E f a Hf. destruct (pass_settles fuel lc w w' E f a Hf) as [Hp Hc].
  split; [exact Hp |]. split; [| exact Hc].
  apply ruler_verify_complies in Hc.
  pose proof (readonly_ruler_verify (f, a) (heap w')) as Hro.
  destruct (ruler_verify_placement (f, a) (heap w')) as [r h1].
  cbn [fst snd] in *. now subst.
Qed.

End AfterThePass.

(** * Further properties of frames *)

(** ** Anchors *)

Lemma pin_at_upd_cases p g h q :
  pin_at (upd_pin_at p g h) q = pin_at h q
  \/ (q = p /\ pin_frame p < length h /\ pin_at (upd_pin_at p g h) q = g (pin_at h p)).
Proof.
  destruct (decide (p = q)) as [<- | Hne].
  - destruct (decide (pin_frame p < length h)) as [Hi | Hi].
    + right. split; [reflexivity |]. split; [exact Hi |]. now apply pin_at_upd_same.
    + left. unfold upd_pin_at. now rewrite upd_ruler_at_outside by (simpl; lia).
  - left. now apply pin_at_upd_other.
Qed.

Lemma figpos_upd_ref p r o h q :
  figpos (pin_at (upd_pin_at p (Pin.set_placement_ref r o) h) q) = figpos (pin_at h q).
Proof.
  destruct (pin_at_upd_cases p (Pin.set_placement_ref r o) h q) as [-> | (-> & _ & ->)];
    reflexivity.
Qed.

Lemma ref_upd_placement p v h q :
  figpos_ref (pin_at (upd_pin_at p (Pin.set_placement v) h) q) = figpos_ref (pin_at h q)
  /\ figpos_offset (pin_at (upd_pin_at p (Pin.set_placement v) h) q)
     = figpos_offset (pin_at h q).
Proof.
  destruct (pin_at_upd_cases p (Pin.set_placement v) h q) as [-> | (-> & _ & ->)];
    split; reflexivity.
Qed.

Lemma length_slot_upd_pin p g h rid :
  _ruler_length (ruler_at (upd_pin_at p g h) rid) = _ruler_length (ruler_at h rid).
Proof.
  unfold upd_pin_at. destruct (decide (pin_ruler p = rid)) as [<- | Hne].
  - destruct (decide (fst (pin_ruler p) < length h)) as [Hi | Hi].
    + rewrite ruler_at_upd_same by exact Hi.
      now destruct (pin_name p), (ruler_at h (pin_ruler p)).
    + now rewrite upd_ruler_at_outside by lia.
  - now rewrite ruler_at_upd_other.
Qed.

Lemma pins_by_anchor_inv {S} f anchor (s s' : S) ps :
  pins_by_anchor f anchor s = (Ok ps, s') ->
  s' = s
  /\ exists ph pv,
       assoc (Py.lower anchor) anchors_table = Some (ph, pv)
       /\ ps = (mkPin f h_ruler ph, mkPin f v_ruler pv).
Proof.
  unfold pins_by_anchor, get_ruler_pins_by_anchor_name.
  destruct (assoc _ _) as [[ph pv] |]; [| discriminate].
  intros [= <- <-]. split; [reflexivity |]. now exists ph, pv.
Qed.

(** What a call of [set_anchor] that returns has done. *)
Lemma set_anchor_inv f anchor ref_frame ref_anchor offsets h h' :
  set_anchor f anchor ref_frame ref_anchor offsets h = (Ok tt, h') ->
  exists rf ph pv qh qv dx dy,
    (ref_frame = Some rf \/ (ref_frame = None /\ parent (h !!! f) = Some rf))
    /\ ((offsets = None /\ dx = 0%float /\ dy = 0%float)
        \/ offsets = Some (Py.Tuple [dx; dy]) \/ offsets = Some (Py.List [dx; dy]))
    /\ assoc (Py.lower anchor) anchors_table = Some (ph, pv)
    /\ assoc (Py.lower (anchor_or anchor ref_anchor)) anchors_table = Some (qh, qv)
    /\ h' = upd_pin_at (mkPin f v_ruler pv)
              (Pin.set_placement_ref (Some (mkPin rf v_ruler qv)) dy)
              (upd_pin_at (mkPin f h_ruler ph)
                 (Pin.set_placement_ref (Some (mkPin rf h_ruler qh)) dx) h).
Proof.
  unfold set_anchor. intros E.
  apply bind_inv_Ok in E as (self & h0 & E0 & E).
  unfold gets in E0. injection E0 as <- <-.
  apply bind_inv_Ok in E as (rf & h0 & Erf & E).
  assert (Hrf : h0 = h
                /\ (ref_frame = Some rf
                    \/ (ref_frame = None /\ parent (h !!! f) = Some rf))).
  { destruct ref_frame as [r |].
    - unfold ret in Erf. injection Erf as <- <-. auto.
    - destruct (parent (h !!! f)) as [p |].
      + unfold ret in Erf. injection Erf as <- <-. auto.
      + unfold_monad. unfold Element.global_name in Erf.
        destruct (Element.node_global_name _ _); discriminate. }
  destruct Hrf as [-> Hrf].
  assert (Hoff : exists dx dy,
             ((offsets = None /\ dx = 0%float /\ dy = 0%float)
              \/ offsets = Some (Py.Tuple [dx; dy]) \/ offsets = Some (Py.List [dx; dy]))
             /\ (pins <- pins_by_anchor f anchor ;;
                 prefs <- pins_by_anchor rf (anchor_or anchor ref_anchor) ;;
                 modify (upd_pin_at (fst pins)
                           (Pin.set_placement_ref (Some (fst prefs)) dx)) ;;
                 modify (upd_pin_at (snd pins)
                           (Pin.set_placement_ref (Some (snd prefs)) dy))) h
                = (Ok tt, h')).
  { destruct offsets as [[[| dx [| dy [| z l]]] | [| dx [| dy [| z l]]] |] |];
      try discriminate; exists dx, dy || exists 0%float, 0%float; split; auto. }
  destruct Hoff as (dx & dy & Hoff & E'). clear E.
  apply bind_inv_Ok in E' as (pins & h1 & E1 & E).
  apply pins_by_anchor_inv in E1 as (-> & ph & pv & Hp & ->).
  apply bind_inv_Ok in E as (prefs & h1 & E1 & E).
  apply pins_by_anchor_inv in E1 as (-> & qh & qv & Hq & ->).
  unfold_monad. cbn [fst snd] in E. injection E as <-.
  exists rf, ph, pv, qh, qv, dx, dy. auto.
Qed.

(** X5: after a call of [set_anchor] that returns, [get_anchor] for the
    same anchor gives the two pins behind the reference anchor of the
    reference frame (the frame's parent when none is given, the same
    anchor when no reference anchor is given) and the two offsets (zero
    when none are given; a tuple and a list are both taken); no position
    and no explicit length has changed, and no pin of another frame. *)
Theorem set_anchor_then_get_anchor (h h' : Heap) (f : FrameId) (anchor : string)
    (ref_frame : option FrameId) (ref_anchor : option string)
    (offsets : option Py.value) :
  f < length h ->
  set_anchor f anchor ref_frame ref_anchor offsets h = (Ok tt, h') ->
  exists rf q1 q2 dx dy,
    (ref_frame = Some rf \/ (ref_frame = None /\ parent (h !!! f) = Some rf))
    /\ ((offsets = None /\ dx = 0%float /\ dy = 0%float)
        \/ offsets = Some (Py.Tuple [dx; dy]) \/ offsets = Some (Py.List [dx; dy]))
    /\ get_ruler_pins_by_anchor_name rf (anchor_or anchor ref_anchor) = Ok (q1, q2)
    /\ get_anchor h' f anchor = Ok ((Some q1, dx), (Some q2, dy))
    /\ (forall p, figpos (pin_at h' p) = figpos (pin_at h p))
    /\ (forall rid, _ruler_length (ruler_at h' rid) = _ruler_length (ruler_at h rid))
    /\ (forall p, pin_frame p <> f -> pin_at h' p = pin_at h p).
Proof.
  intros Hf E.
  apply set_anchor_inv in E as (rf & ph & pv & qh & qv & dx & dy & Hrf & Hoff & Hp & Hq & ->).
  exists rf, (mkPin rf h_ruler qh), (mkPin rf v_ruler qv), dx, dy.
  split; [exact Hrf |]. split; [exact Hoff |].
  split; [unfold get_ruler_pins_by_anchor_name; now rewrite Hq |].
  split.
  { unfold get_anchor, get_ruler_pins_by_anchor_name. rewrite Hp.
    rewrite pin_at_upd_other by discriminate.
    rewrite !pin_at_upd_same; [reflexivity | | exact Hf].
    unfold upd_pin_at. rewrite length_upd_ruler_at. exact Hf. }
  split; [intros p; now rewrite !figpos_upd_ref |].
  split; [intros rid; now rewrite !length_slot_upd_pin |].
  intros p Hp'. rewrite !pin_at_upd_other; [reflexivity | |];
    intros <-; now apply Hp'.
Qed.

Lemma alter_compose {A} (g1 g2 : A -> A) (i : nat) (l : list A) :
  alter g2 i (alter g1 i l) = alter (fun x => g2 (g1 x)) i l.
Proof. now rewrite list_alter_alter_eq. Qed.

(** X6: on an anchor that has no reference and a zero offset,
    [clear_anchor] after [set_anchor] restores the heap exactly. *)
Theorem clear_anchor_undoes_set_anchor (h h' : Heap) (f : FrameId) (anchor : string)
    (ref_frame : option FrameId) (ref_anchor : option string)
    (offsets : option Py.value) :
  get_anchor h f anchor = Ok ((None, 0%float), (None, 0%float)) ->
  set_anchor f anchor ref_frame ref_anchor offsets h = (Ok tt, h') ->
  clear_anchor f anchor h' = (Ok tt, h).
Proof.
  intros Hg E.
  apply set_anchor_inv in E as (rf & ph & pv & qh & qv & dx & dy & _ & _ & Hp & _ & ->).
  unfold get_anchor, get_ruler_pins_by_anchor_name in Hg. rewrite Hp in Hg.
  unfold clear_anchor, pins_by_anchor, get_ruler_pins_by_anchor_name. rewrite Hp.
  unfold_monad. cbn [fst snd]. f_equal.
  rewrite !upd_pin_at_alter, !alter_compose. apply alter_fixpoint.
  unfold pin_at, ruler_at, pin_ruler in Hg.
  cbn [pin_frame pin_axis pin_name fst snd Frame.get_ruler] in Hg.
  unfold pin_get_placement_ref in Hg.
  destruct (h !!! f) as [nm par [[a1 b1 c1] [a2 b2 c2] [a3 b3 c3] l1]
                                [[d1 e1 g1] [d2 e2 g2] [d3 e3 g3] l2]].
  destruct ph, pv; simpl in *; injection Hg as -> -> -> ->; reflexivity.
Qed.

(** ** Clearing positions *)

Lemma ruler_at_alter_erase f h rid :
  ruler_at (alter erase_frame f h) rid
  = if decide (fst rid = f) then Ruler.clear_placement (ruler_at h rid)
    else ruler_at h rid.
Proof.
  unfold ruler_at. destruct (decide (fst rid = f)) as [<- | Hne].
  - destruct (decide (fst rid < length h)) as [Hi | Hi].
    + rewrite list_lookup_total_alter_eq by exact Hi.
      destruct (snd rid), (h !!! fst rid); reflexivity.
    + rewrite alter_outside by lia.
      rewrite list_lookup_total_alt, (lookup_ge_None_2 h (fst rid)) by lia.
      now destruct (snd rid).
  - now rewrite list_lookup_total_alter_ne by congruence.
Qed.

Lemma get_pin_clear n r :
  Ruler.get_pin n (Ruler.clear_placement r)
  = Pin.clear_placement (Ruler.get_pin n r).
Proof. now destruct n, r. Qed.

Lemma pin_at_clear_placement p h q :
  figpos_ref (pin_at (upd_pin_at p Pin.clear_placement h) q) = figpos_ref (pin_at h q)
  /\ figpos_offset (pin_at (upd_pin_at p Pin.clear_placement h) q)
     = figpos_offset (pin_at h q).
Proof. apply ref_upd_placement. Qed.

Lemma figpos_cleared p h :
  figpos (pin_at (upd_pin_at p Pin.clear_placement h) p) = None.
Proof.
  destruct (pin_at_upd_cases p Pin.clear_placement h p) as [E | (_ & Hi & ->)];
    [| reflexivity].
  destruct (decide (pin_frame p < length h)) as [Hi | Hi].
  - now rewrite pin_at_upd_same.
  - rewrite E. unfold pin_at. rewrite ruler_at_outside by (simpl; lia).
    now destruct (pin_name p).
Qed.

(** X7: [clear_placement()] never raises: it forgets the position of the
    six pins of the frame and nothing else, keeping every reference,
    offset and explicit length, and every pin of the other frames.  With
    an anchor it forgets the positions of the two pins behind that
    anchor only, and for a name that is no anchor it raises [ValueError]
    and changes nothing. *)
Theorem clear_placement_forgets_positions (h : Heap) (f : FrameId) :
  (exists h',
     clear_placement f None h = (Ok tt, h')
     /\ (forall p, pin_frame p = f -> figpos (pin_at h' p) = None)
     /\ (forall p, pin_frame p <> f -> pin_at h' p = pin_at h p)
     /\ (forall p, figpos_ref (pin_at h' p) = figpos_ref (pin_at h p)
                   /\ figpos_offset (pin_at h' p) = figpos_offset (pin_at h p))
     /\ (forall rid, _ruler_length (ruler_at h' rid) = _ruler_length (ruler_at h rid)))
  /\ (forall anchor,
        match get_ruler_pins_by_anchor_name f anchor with
        | Ok (p1, p2) =>
          exists h',
            clear_placement f (Some anchor) h = (Ok tt, h')
            /\ figpos (pin_at h' p1) = None
            /\ figpos (pin_at h' p2) = None
            /\ (forall p, p <> p1 -> p <> p2 -> pin_at h' p = pin_at h p)
            /\ (forall p, figpos_ref (pin_at h' p) = figpos_ref (pin_at h p)
                          /\ figpos_offset (pin_at h' p) = figpos_offset (pin_at h p))
        | _ => clear_placement f (Some anchor) h = (Raise ValueError, h)
        end).
Proof.
  split.
  - exists (alter erase_frame f h). split; [apply clear_placement_all |].
    assert (Hpin : forall p,
               pin_at (alter erase_frame f h) p
               = if decide (pin_frame p = f) then Pin.clear_placement (pin_at h p)
                 else pin_at h p).
    { intros p. unfold pin_at. rewrite ruler_at_alter_erase.
      cbn [pin_ruler fst]. destruct (decide (pin_frame p = f)); [| reflexivity].
      apply get_pin_clear. }
    split; [| split; [| split]].
    + intros p Hp. rewrite Hpin. now destruct (decide (pin_frame p = f)).
    + intros p Hp. rewrite Hpin. now destruct (decide (pin_frame p = f)).
    + intros p. rewrite Hpin. now destruct (decide (pin_frame p = f)).
    + intros rid. rewrite ruler_at_alter_erase.
      destruct (decide (fst rid = f)); [| reflexivity]. now destruct (ruler_at h rid).
  - intros anchor. unfold clear_placement, pins_by_anchor. cbn [for_each].
    destruct (get_ruler_pins_by_anchor_name f anchor) as [[p1 p2] | e |] eqn:Ea.
    + unfold_monad. cbn [fst snd]. eexists. split; [reflexivity |].
      assert (Hne : p1 <> p2).
      { unfold get_ruler_pins_by_anchor_name in Ea.
        destruct (assoc _ _) as [[ph pv] |]; [| discriminate].
        injection Ea as <- <-. discriminate. }
      split; [| split; [| split]].
      * rewrite pin_at_upd_other by congruence. apply figpos_cleared.
      * apply figpos_cleared.
      * intros p H1 H2. rewrite !pin_at_upd_other by congruence. reflexivity.
      * intros p.
        destruct (pin_at_clear_placement p2 (upd_pin_at p1 Pin.clear_placement h) p)
          as [-> ->].
        apply pin_at_clear_placement.
    + unfold get_ruler_pins_by_anchor_name in Ea.
      destruct (assoc _ _) as [[ph pv] |]; [discriminate |].
      injection Ea as <-. reflexivity.
    + unfold get_ruler_pins_by_anchor_name in Ea.
      destruct (assoc _ _) as [[ph pv] |]; discriminate.
Qed.

(** ** Sizes *)

Lemma anchorable_names_NoDup flt r : List.NoDup (Ruler.anchorable_names flt r).
Proof.
  unfold Ruler.anchorable_names. apply List.NoDup_filter.
  unfold Ruler.iter_pin_names.
  repeat (constructor; [simpl; intuition discriminate |]). constructor.
Qed.

Lemma anchorable_names_placed n r :
  In n (Ruler.anchorable_names Ruler.placed r) ->
  exists x, figpos (Ruler.get_pin n r) = Some x.
Proof.
  unfold Ruler.anchorable_names. intros H. apply List.filter_In in H as [_ H].
  unfold Ruler.cond, Pin.is_placed in H.
  destruct (figpos (Ruler.get_pin n r)) as [x |]; [now exists x | discriminate].
Qed.

Section Sizes.

Variable set_iter : RulerId -> list PinName -> list PinName.

Lemma calc_ruler_length_total rid r :
  set_iter_ok set_iter -> exists v, calc_ruler_length set_iter rid r = Ok v.
Proof.
  intros set_iter_perm. unfold calc_ruler_length.
  destruct (length (Ruler.anchorable_names Ruler.placed r) <? 2)%nat eqn:Hlen;
    [now exists Py.zero |].
  apply Nat.ltb_ge in Hlen.
  pose proof (set_iter_perm rid (Ruler.anchorable_names Ruler.placed r)) as Hperm.
  pose proof (Permutation_length Hperm) as Hl.
  pose proof (Permutation_NoDup (Permutation_sym Hperm)
                (anchorable_names_NoDup Ruler.placed r)) as Hnd.
  destruct (set_iter rid _) as [| rp1 [| rp2 l]]; simpl in Hl; try lia.
  assert (H1 : exists x, figpos (Ruler.get_pin rp1 r) = Some x).
  { apply anchorable_names_placed. apply (Permutation_in _ Hperm). now left. }
  assert (H2 : exists x, figpos (Ruler.get_pin rp2 r) = Some x).
  { apply anchorable_names_placed. apply (Permutation_in _ Hperm). right. now left. }
  destruct H1 as [x1 ->]. destruct H2 as [x2 ->].
  assert (Hne : rp1 <> rp2).
  { intros ->. inversion Hnd as [| ? ? Hin _]. apply Hin. now left. }
  destruct rp1, rp2; try contradiction; eexists; reflexivity.
Qed.

(** X8: [get_ruler_length(allow_calculated = True)], and with it
    [get_width], [get_height], [get_size] and the canvas getters, always
    returns a number, never [None] and never an error: the explicit
    length when one is set, 0 when fewer than two pins are placed, and
    otherwise the quotient computed from two placed pins. *)
Theorem get_size_is_always_a_number (h : Heap) (f : FrameId) (lc : LayoutCreator) :
  set_iter_ok set_iter ->
  (exists w ht,
     get_width set_iter h f = Ok (Some w)
     /\ get_height set_iter h f = Ok (Some ht)
     /\ get_size set_iter h f = Ok (Some w, Some ht))
  /\ (exists w ht, get_canvas_size set_iter lc h = Ok (Some w, Some ht))
  /\ (forall rid r v,
        _ruler_length r = Some v -> get_ruler_length set_iter true rid r = Ok (Some v))
  /\ (forall rid r,
        _ruler_length r = None ->
        length (Ruler.anchorable_names Ruler.placed r) < 2 ->
        get_ruler_length set_iter true rid r = Ok (Some Py.zero)).
Proof.
  intros Hs.
  assert (Htotal : forall rid r, exists v, get_ruler_length set_iter true rid r = Ok (Some v)).
  { intros rid r. unfold get_ruler_length.
    destruct (_ruler_length r) as [v |]; [now exists v |].
    destruct (calc_ruler_length_total rid r Hs) as [v ->]. now exists v. }
  assert (Hsize : forall g, exists w ht,
             get_width set_iter h g = Ok (Some w)
             /\ get_height set_iter h g = Ok (Some ht)
             /\ get_size set_iter h g = Ok (Some w, Some ht)).
  { intros g. unfold get_size, get_width, get_height.
    destruct (Htotal (g, h_ruler) (ruler_at h (g, h_ruler))) as [w Hw].
    destruct (Htotal (g, v_ruler) (ruler_at h (g, v_ruler))) as [ht Hh].
    exists w, ht. rewrite Hw, Hh. auto. }
  split; [apply Hsize |]. split.
  - unfold get_canvas_size. destruct (Hsize (canvas_frame lc)) as (w & ht & _ & _ & E).
    now exists w, ht.
  - split.
    + intros rid r v Hv. unfold get_ruler_length. now rewrite Hv.
    + intros rid r Hn Hl. unfold get_ruler_length, calc_ruler_length. rewrite Hn.
      apply Nat.ltb_lt in Hl. now rewrite Hl.
Qed.

End Sizes.

Lemma ruler_at_with_length rid v h :
  fst rid < length h ->
  ruler_at (upd_ruler_at rid (Ruler.with_length v) h) rid
  = Ruler.with_length v (ruler_at h rid).
Proof. intros Hi. now apply ruler_at_upd_same. Qed.

Section SetSize.

Variable set_iter : RulerId -> list PinName -> list PinName.

(** X9: [set_size(width, height)] on a frame sets the two explicit
    lengths, which [get_size] then returns, when neither is negative.
    A negative width raises [ValueError] and changes nothing; a negative
    height raises [ValueError] after the width has been set: the call is
    not atomic.  A value that compares with nothing, as NaN does, is
    taken, since it is not below zero. *)
Theorem set_size_then_get_size (h : Heap) (f : FrameId) (width height : float) :
  f < length h ->
  (Py.lt width Py.zero = true ->
     set_size f (Some width) (Some height) h = (Raise ValueError, h))
  /\ (Py.lt width Py.zero = false -> Py.lt height Py.zero = true ->
        exists h',
          set_size f (Some width) (Some height) h = (Raise ValueError, h')
          /\ get_width set_iter h' f = Ok (Some width)
          /\ get_height set_iter h' f = get_height set_iter h f)
  /\ (Py.lt width Py.zero = false -> Py.lt height Py.zero = false ->
        exists h',
          set_size f (Some width) (Some height) h = (Ok tt, h')
          /\ get_size set_iter h' f = Ok (Some width, Some height)
          /\ (forall p, pin_at h' p = pin_at h p)).
Proof.
  intros Hf. unfold set_size, set_width, set_height, set_ruler_length.
  split; [| split].
  - intros Hw. unfold bind. now rewrite Hw.
  - intros Hw Hh. unfold bind, modify, raise. rewrite Hw, Hh.
    eexists. split; [reflexivity |]. split.
    + unfold get_width, get_ruler_length.
      rewrite ruler_at_with_length by exact Hf. reflexivity.
    + unfold get_height. now rewrite ruler_at_upd_other by discriminate.
  - intros Hw Hh. unfold bind, modify. rewrite Hw, Hh.
    eexists. split; [reflexivity |]. split.
    + unfold get_size, get_width, get_height, get_ruler_length, and_then.
      rewrite ruler_at_upd_other by discriminate.
      rewrite !ruler_at_with_length;
        [reflexivity | | ]; try rewrite length_upd_ruler_at; exact Hf.
    + intros p. unfold pin_at.
      assert (Hg : forall rid v g,
                 Ruler.get_pin (pin_name p)
                   (ruler_at (upd_ruler_at rid (Ruler.with_length v) g) (pin_ruler p))
                 = Ruler.get_pin (pin_name p) (ruler_at g (pin_ruler p))).
      { intros rid v g. destruct (decide (rid = pin_ruler p)) as [-> | Hne].
        - destruct (decide (fst (pin_ruler p) < length g)) as [Hi | Hi].
          + rewrite ruler_at_upd_same by exact Hi.
            now destruct (ruler_at g (pin_ruler p)), (pin_name p).
          + now rewrite upd_ruler_at_outside by lia.
        - now rewrite ruler_at_upd_other. }
      now rewrite !Hg.
Qed.

End SetSize.

(** * Further properties of the layout *)

(** ** The registry and the heap *)

Lemma registered_keys nm lc :
  registered nm lc = false -> ~ In nm (map fst (frames lc)).
Proof.
  unfold registered. induction (frames lc) as [| [k v] l IH]; simpl; [tauto |].
  intros H [-> | Hin].
  - now rewrite String.eqb_refl in H.
  - apply orb_false_iff in H as [_ H]. now apply IH.
Qed.

Lemma lookup_total_app_l (h : Heap) fr g : g < length h -> (h ++ [fr]) !!! g = h !!! g.
Proof.
  intros Hg. rewrite !list_lookup_total_alt. now rewrite lookup_app_l by exact Hg.
Qed.

(** X10: [add_frame] keeps the layout and the heap fitting together: a
    call that returns has made a new object at the end of the heap, with
    the canvas as its parent, and registered it under its name; the
    frames that were there are as they were, and the global name of the
    new frame is "canvas/" followed by its name. *)
Theorem add_frame_keeps_the_layout_ok (lc lc' : LayoutCreator) (nm : string)
    (cls : FrameClass) (h h' : Heap) (f : FrameId) :
  layout_ok lc h ->
  add_frame lc nm cls h = (Ok (f, lc'), h') ->
  layout_ok lc' h'
  /\ f = length h
  /\ h' = h ++ [Frame.init nm (Some (canvas_frame lc))]
  /\ iter_frames lc' = iter_frames lc ++ [f]
  /\ canvas_frame lc' = canvas_frame lc
  /\ Element.frame_global_name h' f = Some ("canvas/" ++ nm)%string.
Proof.
  intros (Hc & Hcn & Hcp & Hnd & Hfig & Hreg) E.
  unfold add_frame in E.
  destruct (registered nm lc) eqn:Er; [discriminate |].
  destruct (String.eqb nm "figure") eqn:Ef; [discriminate |].
  destruct cls; [| discriminate].
  unfold new_frame in E. unfold_monad.
  destruct (negb (Element.valid_name nm)); [discriminate |].
  injection E as <- <- <-.
  assert (Hcanvas : (h ++ [Frame.init nm (Some (canvas_frame lc))]) !!! canvas_frame lc
                    = h !!! canvas_frame lc)
    by now apply lookup_total_app_l.
  split; [| split; [reflexivity | split; [reflexivity | split; [| split]]]].
  - unfold layout_ok, register. cbn [canvas_frame frames].
    rewrite Hcanvas, length_app, map_app. cbn [length map fst].
    split; [lia |]. split; [exact Hcn |]. split; [exact Hcp |].
    split; [| split].
    + apply NoDup_app. split; [exact Hnd |]. split; [| apply NoDup_singleton].
      intros x Hx Hx'. apply list_elem_of_singleton in Hx'. subst x.
      apply (registered_keys nm lc Er). now apply list_elem_of_In.
    + intros Hin. apply in_app_or in Hin as [Hin | [Hin | []]]; [now apply Hfig |].
      subst nm. discriminate.
    + intros nm' f' Hin. apply in_app_or in Hin as [Hin | [Hin | []]].
      * destruct (Hreg nm' f' Hin) as (H1 & H2 & H3 & H4).
        rewrite lookup_total_app_l by exact H1. split; [lia |]. auto.
      * injection Hin as <- <-. rewrite lookup_total_last.
        split; [lia |]. split; [lia |]. split; reflexivity.
  - unfold iter_frames, register. cbn [frames]. now rewrite map_app.
  - reflexivity.
  - unfold Element.frame_global_name. rewrite length_app. cbn [length].
    replace (length h + 1) with (S (length h)) by lia.
    cbn [Element.frame_global_name_aux]. rewrite lookup_total_last.
    cbn [Frame.init parent name]. rewrite Hcanvas, Hcp, Hcn. reflexivity.
Qed.

(** X11: a [LayoutCreator] whose construction returns comes with a new
    canvas frame at the end of the heap, named "canvas", without parent
    and with the given size as explicit lengths, and with an empty
    registry: the layout and the heap fit together.  The construction
    raises [ValueError] when a given size is negative. *)
Theorem new_layout_is_ok (nm orig : string) (canvas_width canvas_height : option float)
    (lm rm tm bm : float) (h h' : Heap) (lc : LayoutCreator) :
  new_layout nm orig canvas_width canvas_height lm rm tm bm h = (Ok lc, h') ->
  layout_ok lc h'
  /\ lc = mkLayout nm orig lm rm tm bm (length h) []
  /\ h' = h ++ [mkFrame "canvas" None
                  (Ruler.with_length canvas_width Ruler.init)
                  (Ruler.with_length canvas_height Ruler.init)]
  /\ (forall v, canvas_width = Some v -> Py.lt v Py.zero = false)
  /\ (forall v, canvas_height = Some v -> Py.lt v Py.zero = false).
Proof.
  unfold new_layout, new_frame. cbn [Element.valid_name Py.contains_char negb].
  intros E. apply bind_inv_Ok in E as (c & h1 & E1 & E).
  change (((fun h0 : Heap => (Ok (length h0), h0 ++ [Frame.init "canvas" None])) h)
          = (Ok c, h1)) in E1.
  injection E1 as <- <-.
  apply bind_inv_Ok in E as ([] & h2 & E2 & E).
  unfold ret in E. injection E as <- <-.
  unfold set_size, set_width, set_height in E2.
  apply bind_inv_Ok in E2 as ([] & h3 & E3 & E4).
  assert (Hw : (forall v, canvas_width = Some v -> Py.lt v Py.zero = false)
               /\ h3 = upd_ruler_at (length h, h_ruler) (Ruler.with_length canvas_width)
                         (h ++ [Frame.init "canvas" None])).
  { unfold set_ruler_length in E3. destruct canvas_width as [v |].
    - destruct (Py.lt v Py.zero) eqn:Hv; [discriminate |].
      unfold modify in E3. injection E3 as <-. split; [| reflexivity].
      now intros v' [= <-].
    - unfold modify in E3. injection E3 as <-. split; [discriminate | reflexivity]. }
  destruct Hw as [Hw ->].
  assert (Hh : (forall v, canvas_height = Some v -> Py.lt v Py.zero = false)
               /\ h2 = upd_ruler_at (length h, v_ruler) (Ruler.with_length canvas_height)
                         (upd_ruler_at (length h, h_ruler)
                            (Ruler.with_length canvas_width)
                            (h ++ [Frame.init "canvas" None]))).
  { unfold set_ruler_length in E4. destruct canvas_height as [v |].
    - destruct (Py.lt v Py.zero) eqn:Hv; [discriminate |].
      unfold modify in E4. injection E4 as <-. split; [| reflexivity].
      now intros v' [= <-].
    - unfold modify in E4. injection E4 as <-. split; [discriminate | reflexivity]. }
  destruct Hh as [Hh ->].
  rewrite !upd_ruler_at_last. cbn [Frame.upd_ruler Frame.init name parent _h_ruler _v_ruler].
  split; [| auto].
  unfold layout_ok. cbn [canvas_frame frames map]. rewrite lookup_total_last, length_app.
  cbn [length name parent]. split; [lia |]. split; [reflexivity |].
  split; [reflexivity |]. split; [apply NoDup_nil_2 |]. split; [tauto |].
  intros nm' f' [].
Qed.

(** ** What a layout needs to be solvable *)

Lemma constraint_count_clear r :
  constraint_count (Ruler.clear_placement r) = constraint_count r.
Proof. now destruct r as [[p1 r1 o1] [p2 r2 o2] [p3 r3 o3] len]. Qed.

Lemma same_constraints_count h h' rid :
  erase h' = erase h ->
  constraint_count (ruler_at h' rid) = constraint_count (ruler_at h rid).
Proof.
  intros E. rewrite <- (constraint_count_clear (ruler_at h' rid)).
  rewrite <- (constraint_count_clear (ruler_at h rid)).
  now rewrite <- !ruler_at_erase, E.
Qed.

Lemma placeable_by_reference r :
  placed_by_reference r -> ruler_is_placeable r = (2 <=? constraint_count r)%nat.
Proof.
  destruct r as [[p1 r1 o1] [p2 r2 o2] [p3 r3 o3] len]. intros H.
  pose proof (H pmax) as H1. pose proof (H pmid) as H2. pose proof (H pmin) as H3.
  unfold ruler_is_placeable, constraint_count, Ruler.anchorable_names, Ruler.cond,
    Pin.is_placed, Pin.is_placeable in *. simpl in *.
  destruct p1, r1, p2, r2, p3, r3, len; simpl in *; try reflexivity;
    try (now specialize (H1 eq_refl)); try (now specialize (H2 eq_refl));
    now specialize (H3 eq_refl).
Qed.

Lemma placed_needs_three r :
  placed_by_reference r -> Ruler.is_placed r = true -> 3 <= constraint_count r.
Proof.
  destruct r as [[p1 r1 o1] [p2 r2 o2] [p3 r3 o3] len]. intros H Hpl.
  pose proof (H pmax) as H1. pose proof (H pmid) as H2. pose proof (H pmin) as H3.
  unfold Ruler.is_placed, constraint_count, Ruler.anchorable_names, Ruler.cond,
    Pin.is_placed, Pin.is_placeable in *. simpl in *.
  destruct p1, p2, p3; try discriminate.
  destruct r1, r2, r3; simpl; try lia; exfalso;
    first [ now specialize (H1 eq_refl) | now specialize (H2 eq_refl)
          | now specialize (H3 eq_refl) ].
Qed.

Lemma for_each_invariant {S A} (P : S -> Prop) (l : list A) (body : A -> M S unit) s s' :
  (forall x s1 s2, body x s1 = (Ok tt, s2) -> P s1 -> P s2) ->
  for_each l body s = (Ok tt, s') -> P s -> P s'.
Proof.
  intros Hb. revert s. induction l as [| x l IH]; intros s E Hs.
  - unfold for_each, ret in E. now injection E as <-.
  - cbn [for_each] in E. apply bind_inv_Ok in E as ([] & s1 & E1 & E).
    apply (IH s1 E). now apply (Hb x s).
Qed.

Lemma pin_solve_by_reference p h h' rid :
  pin_solve_placement p h = (Ok tt, h') ->
  placed_by_reference (ruler_at h rid) -> placed_by_reference (ruler_at h' rid).
Proof.
  unfold pin_solve_placement. unfold_monad.
  destruct (figpos_ref (pin_at h p)) as [ref |] eqn:Er; [| discriminate].
  destruct (figpos (pin_at h ref)) as [y |].
  2:{ unfold Element.global_name.
      repeat (destruct (Element.node_global_name _ _); try discriminate). }
  intros [= <-] H n. rewrite <- pin_at_of.
  destruct (pin_at_upd_cases p
              (Pin.set_placement (Some (PrimFloat.add y (figpos_offset (pin_at h p)))))
              h (pin_of rid n)) as [-> | (-> & _ & ->)].
  - rewrite pin_at_of. apply H.
  - intros _. unfold Pin.is_placeable, Pin.set_placement. cbn [figpos_ref].
    now rewrite Er.
Qed.

Section Unconstrained.

Variable set_iter : RulerId -> list PinName -> list PinName.

Local Abbreviation solve_rec := (solve_placement_resursive set_iter).

Lemma ruler_solve_needs_constraints rid h :
  constraint_count (ruler_at h rid) < 2 ->
  placed_by_reference (ruler_at h rid) ->
  fst (ruler_solve_placement set_iter rid h) <> Ok tt.
Proof.
  intros Hc Hp. unfold ruler_solve_placement. unfold_monad.
  rewrite (placeable_by_reference _ Hp).
  replace (2 <=? constraint_count (ruler_at h rid))%nat with false
    by (symmetry; apply Nat.leb_gt; lia).
  cbn [negb]. unfold Element.global_name.
  destruct (Element.node_global_name _ _); discriminate.
Qed.

Lemma ruler_solve_by_reference rid' h h' rid :
  constraint_count (ruler_at h rid) < 2 ->
  placed_by_reference (ruler_at h rid) ->
  ruler_solve_placement set_iter rid' h = (Ok tt, h') ->
  ruler_at h' rid = ruler_at h rid.
Proof.
  intros Hc Hp E. destruct (decide (rid = rid')) as [<- | Hne].
  - exfalso. apply (ruler_solve_needs_constraints rid h Hc Hp). now rewrite E.
  - apply ruler_solve_places in E as [_ Ho]. now apply Ho.
Qed.

Lemma solve_placement_by_reference n h h' rid :
  constraint_count (ruler_at h rid) < 2 ->
  placed_by_reference (ruler_at h rid) ->
  solve_placement set_iter n h = (Ok tt, h') ->
  placed_by_reference (ruler_at h' rid).
Proof.
  intros Hc Hp. destruct n as [f | rid' | p]; simpl; intros E.
  - unfold frame_solve_placement, frame_get_dependencies in E. cbn [for_each] in E.
    apply bind_inv_Ok in E as ([] & h1 & E1 & E).
    apply bind_inv_Ok in E as ([] & h2 & E2 & E).
    unfold ret in E. injection E as <-.
    pose proof (ruler_solve_by_reference _ _ _ _ Hc Hp E1) as R1.
    rewrite <- R1 in Hc, Hp.
    pose proof (ruler_solve_by_reference _ _ _ _ Hc Hp E2) as R2.
    now rewrite R2.
  - now rewrite (ruler_solve_by_reference _ _ _ _ Hc Hp E).
  - now apply (pin_solve_by_reference p h).
Qed.

(** On a ruler with fewer than two constraints, whatever the solver does
    when it returns, only pins with a reference have got a position. *)
Lemma solve_rec_by_reference rid fuel :
  forall self st st',
    constraint_count (ruler_at (st_heap st) rid) < 2 ->
    placed_by_reference (ruler_at (st_heap st) rid) ->
    solve_rec fuel self st = (Ok tt, st') ->
    constraint_count (ruler_at (st_heap st') rid) < 2
    /\ placed_by_reference (ruler_at (st_heap st') rid).
Proof.
  induction fuel as [| fuel IH]; intros self st st' Hc Hp E; [discriminate |].
  split.
  { pose proof (keeps_solve_rec set_iter (S fuel) self st) as K. rewrite E in K.
    cbn [snd] in K. now rewrite (same_constraints_count _ _ rid K). }
  simpl in E. unfold solve_body in E.
  apply bind_inv_Ok in E as (path & s0 & E0 & E).
  unfold gets in E0. injection E0 as <- <-.
  destruct (bool_decide _).
  { unfold_monad. destruct (Element.global_names _ _); discriminate. }
  apply bind_inv_Ok in E as (placed & s0 & E0 & E).
  unfold gets in E0. injection E0 as <- <-.
  destruct (is_placed (st_heap st) self); cbn [negb] in E.
  { unfold ret in E. now injection E as <-. }
  apply bind_inv_Ok in E as ([] & s1 & E1 & E).
  unfold modify in E1. injection E1 as <-.
  apply bind_inv_Ok in E as (deps & s2 & E2 & E).
  unfold gets in E2. injection E2 as <- <-.
  apply bind_inv_Ok in E as ([] & s3 & E3 & E).
  apply bind_inv_Ok in E as (placed' & s4 & E4 & E).
  unfold gets in E4. injection E4 as <- <-.
  apply bind_inv_Ok in E as ([] & s5 & E5 & E).
  unfold modify in E. injection E as <-.
  unfold path_pop. cbn [st_heap].
  assert (H3 : constraint_count (ruler_at (st_heap s3) rid) < 2
               /\ placed_by_reference (ruler_at (st_heap s3) rid)).
  { apply (for_each_invariant
             (fun s => constraint_count (ruler_at (st_heap s) rid) < 2
                       /\ placed_by_reference (ruler_at (st_heap s) rid))
             _ _ _ _ (fun x s1 s2 Ex Hs => IH x s1 s2 (proj1 Hs) (proj2 Hs) Ex) E3).
    now split. }
  destruct H3 as [Hc3 Hp3].
  destruct (is_placed (st_heap s3) self); cbn [negb] in E5.
  - unfold ret in E5. now injection E5 as <-.
  - unfold on_heap, zoom in E5.
    destruct (solve_placement set_iter self (st_heap s3)) as [r h'] eqn:Es.
    injection E5 as -> <-. cbn [st_heap].
    now apply (solve_placement_by_reference self (st_heap s3)).
Qed.

Lemma solve_by_reference rid fuel self h h' :
  constraint_count (ruler_at h rid) < 2 ->
  placed_by_reference (ruler_at h rid) ->
  solve set_iter fuel self h = (Ok tt, h') ->
  constraint_count (ruler_at h' rid) < 2 /\ placed_by_reference (ruler_at h' rid).
Proof.
  intros Hc Hp. unfold solve, zoom.
  destruct (solve_rec fuel self (mkSolver h [])) as [r st'] eqn:E.
  intros [= -> <-].
  exact (solve_rec_by_reference rid fuel self (mkSolver h []) st' Hc Hp E).
Qed.

Lemma ruler_at_prepared lc ph pv h f a :
  In f (iter_frames lc) ->
  (forall n, figpos (Ruler.get_pin n (ruler_at (prepared lc ph pv h) (f, a))) = None)
  /\ (f <> canvas_frame lc ->
      ruler_at (prepared lc ph pv h) (f, a) = Ruler.clear_placement (ruler_at h (f, a))).
Proof.
  intros Hf. apply list_elem_of_In in Hf. unfold ruler_at. cbn [fst snd].
  rewrite !list_lookup_total_alt, lookup_prepared.
  destruct (decide (f ∈ iter_frames lc)); [| contradiction].
  split.
  - intros n. destruct (decide (canvas_frame lc = f)); destruct (h !! f) as [fr |];
      simpl; destruct a, n; try reflexivity;
      destruct fr as [nm par [p1 p2 p3 l1] [q1 q2 q3 l2]]; destruct ph, pv; reflexivity.
  - intros Hne. destruct (decide (canvas_frame lc = f)); [congruence |].
    destruct (h !! f) as [fr |]; simpl; now destruct a.
Qed.

(** X12: a layout that [place_all_frames] can solve has, on each axis of
    every registered frame, at least two constraints: pins with a
    reference, or one such pin and an explicit length.  Positions do not
    count: the pass clears those of the registered frames before it
    solves, so that a frame placed with [set_placement] alone makes the
    pass raise. *)
Theorem solvable_layout_is_constrained (fuel : nat) (lc : LayoutCreator)
    (w w' : World) :
  place_all_frames set_iter fuel lc w = (Ok tt, w') ->
  forall f a, In f (iter_frames lc) ->
    2 <= constraint_count (ruler_at (heap w') (f, a))
    /\ (f <> canvas_frame lc -> 2 <= constraint_count (ruler_at (heap w) (f, a))).
Proof.
  intros E f a Hf. rewrite place_all_frames_effect in E.
  destruct (assoc _ _) as [[ph pv] |]; [| discriminate].
  set (hp := prepared lc ph pv (heap w)) in *.
  pose proof (keeps_solve_all set_iter fuel lc _ _ E) as K. cbn [heap] in K.
  destruct (ruler_at_prepared lc ph pv (heap w) f a Hf) as [Hnone Hclear].
  fold hp in Hnone, Hclear.
  assert (Hhp : 2 <= constraint_count (ruler_at hp (f, a))).
  { destruct (le_lt_dec 2 (constraint_count (ruler_at hp (f, a)))) as [Hle | Hlt];
      [exact Hle | exfalso].
    unfold solve_all in E. apply bind_inv_Ok in E as ([] & w1 & E1 & _).
    pose proof (frames_solved set_iter fuel _ _ _ E1 f Hf) as Hplaced.
    assert (H1 : constraint_count (ruler_at (heap w1) (f, a)) < 2
                 /\ placed_by_reference (ruler_at (heap w1) (f, a))).
    { refine (for_each_invariant
                (fun w0 => constraint_count (ruler_at (heap w0) (f, a)) < 2
                           /\ placed_by_reference (ruler_at (heap w0) (f, a)))
                _ _ _ _ _ E1 _).
      - intros g w2 w3 Eg [Hc2 Hp2].
        apply in_heap_inv in Eg as (h2 & Eg & ->). cbn [heap].
        now apply (solve_by_reference (f, a) fuel (NFrame g) (heap w2)).
      - cbn [heap]. split; [exact Hlt |]. intros n Hn.
        unfold Pin.is_placed in Hn. now rewrite Hnone in Hn. }
    destruct H1 as [Hc1 Hp1].
    pose proof (placed_needs_three _ Hp1
                  (proj1 (frame_placed_rulers (heap w1) f) Hplaced a)). lia. }
  split.
  - now rewrite (same_constraints_count _ _ (f, a) K).
  - intros Hne. rewrite (Hclear Hne), constraint_count_clear in Hhp. exact Hhp.
Qed.

(** X13: a layout without frames cannot size its canvas: when the
    horizontal canvas ruler has no explicit length and no reference,
    [place_all_frames] raises [ValueError], for an origin that is no
    anchor or else from the minimum taken over no frame, and it issues
    no warning. *)
Theorem empty_layout_needs_a_canvas_width (fuel : nat) (lc : LayoutCreator) (w : World) :
  iter_frames lc = [] ->
  _ruler_length (ruler_at (heap w) (canvas_frame lc, h_ruler)) = None ->
  (forall n,
     figpos_ref (Ruler.get_pin n (ruler_at (heap w) (canvas_frame lc, h_ruler))) = None) ->
  fst (place_all_frames set_iter fuel lc w) = Raise ValueError
  /\ warnings (snd (place_all_frames set_iter fuel lc w)) = warnings w.
Proof.
  intros Hempty Hlen Hrefs. rewrite place_all_frames_effect.
  destruct (assoc (Py.lower (origin lc)) anchors_table) as [[ph pv] |] eqn:Ho;
    [| now split].
  assert (Hr : exists r,
             ruler_at (prepared lc ph pv (heap w)) (canvas_frame lc, h_ruler) = r
             /\ Ruler.is_placed r = false /\ ruler_is_placeable r = false).
  { eexists. split; [reflexivity |].
    unfold prepared, ruler_at. rewrite Hempty. cbn [clear_frames fold_left fst snd].
    rewrite alter_compose, list_lookup_total_alt, list_lookup_alter_eq.
    unfold ruler_at in Hlen, Hrefs. cbn [fst snd] in Hlen, Hrefs.
    rewrite list_lookup_total_alt in Hlen, Hrefs.
    pose proof (Hrefs pmax) as R1. pose proof (Hrefs pmid) as R2.
    pose proof (Hrefs pmin) as R3.
    destruct (heap w !! canvas_frame lc) as [[nm par [[a1 b1 c1] [a2 b2 c2] [a3 b3 c3] l1] rv] |];
      simpl in *; [| now split].
    subst. destruct ph; split; reflexivity. }
  destruct Hr as (r & Hr & Hpl & Hnp).
  set (W := mkWorld (prepared lc ph pv (heap w)) (warnings w)).
  assert (Ew : _solve_canvas_ruler_placement set_iter fuel lc "width" W
               = (Raise ValueError, W)).
  { unfold _solve_canvas_ruler_placement.
    rewrite (bind_Ok _ _ W h_ruler W) by reflexivity.
    rewrite (bind_Ok _ _ W r W) by (unfold gets, W; cbn [heap]; now rewrite Hr).
    rewrite Hpl, Hnp. apply bind_Raise. unfold auto_size. apply bind_Raise.
    unfold bind, gets, lift_outcome, W. cbn [heap].
    unfold auto_rlen, origin_pin, get_ruler_pins_by_anchor_name.
    now rewrite Ho, Hempty. }
  unfold solve_all. rewrite Hempty. cbn [for_each].
  rewrite (bind_Ok _ _ W tt W) by reflexivity.
  rewrite (bind_Ok _ _ W tt W) by reflexivity.
  rewrite (bind_Raise _ _ W ValueError W Ew). now split.
Qed.

End Unconstrained.

(** * The figure layout *)

(** ** Names and parents through a solve pass *)

Lemma prepared_name lc ph pv (h : Heap) g :
  name (prepared lc ph pv h !!! g) = name (h !!! g)
  /\ parent (prepared lc ph pv h !!! g) = parent (h !!! g).
Proof.
  rewrite !list_lookup_total_alt, lookup_prepared.
  destruct (decide (g ∈ iter_frames lc)), (decide (canvas_frame lc = g));
    destruct (h !! g) as [[nm par rh rv] |]; simpl; split; reflexivity.
Qed.

Section Artists.

Variable set_iter : RulerId -> list PinName -> list PinName.

Lemma pass_keeps_names fuel lc w w' :
  place_all_frames set_iter fuel lc w = (Ok tt, w') ->
  length (heap w') = length (heap w)
  /\ forall g, name (heap w' !!! g) = name (heap w !!! g)
               /\ parent (heap w' !!! g) = parent (heap w !!! g).
Proof.
  intros E. rewrite place_all_frames_effect in E.
  destruct (assoc _ _) as [[ph pv] |]; [| discriminate].
  pose proof (keeps_solve_all set_iter fuel lc _ _ E) as K. cbn [heap] in K.
  split.
  - rewrite (same_constraints_size _ _ K). apply length_prepared.
  - intros g. destruct (same_constraints_name _ _ g K) as [N P].
    destruct (prepared_name lc ph pv (heap w) g) as [N' P']. split; congruence.
Qed.

Lemma pass_keeps_layout_ok fuel lc w w' :
  layout_ok lc (heap w) ->
  place_all_frames set_iter fuel lc w = (Ok tt, w') ->
  layout_ok lc (heap w').
Proof.
  intros (Hc & Hcn & Hcp & Hnd & Hfig & Hreg) E.
  destruct (pass_keeps_names fuel lc w w' E) as [Hl Hn].
  unfold layout_ok. rewrite Hl.
  destruct (Hn (canvas_frame lc)) as [-> ->].
  repeat (split; [assumption |]).
  intros nm f Hin. destruct (Hn f) as [-> ->]. now apply Hreg.
Qed.

Lemma placed_extent r :
  Ruler.is_placed r = true ->
  exists lo hi, figpos (pmin_pin r) = Some lo /\ figpos (pmax_pin r) = Some hi.
Proof.
  intros H. pose proof (proj1 (ruler_placed_pins r) H) as Hp.
  pose proof (Hp pmin) as H1. pose proof (Hp pmax) as H2.
  unfold Pin.is_placed in H1, H2. simpl in H1, H2.
  destruct (figpos (pmin_pin r)) as [lo |]; [| discriminate].
  destruct (figpos (pmax_pin r)) as [hi |]; [| discriminate].
  now exists lo, hi.
Qed.

(** The rectangle of a frame whose extents and whose parent's extents
    are all placed. *)
Lemma create_artist_placed h f c lm rm bm tm fl fr fb ft al ar ab at_ :
  parent (h !!! f) = Some c ->
  get_extent h c = (Some fl, Some fr, Some fb, Some ft) ->
  get_extent h f = (Some al, Some ar, Some ab, Some at_) ->
  let fwidth := PrimFloat.add (PrimFloat.add lm (PrimFloat.sub fr fl)) rm in
  let fheight := PrimFloat.add (PrimFloat.add bm (PrimFloat.sub ft fb)) tm in
  create_artist h f lm rm bm tm
  = if Py.eq fwidth Py.zero then Raise ZeroDivisionError
    else if Py.eq fheight Py.zero then Raise ZeroDivisionError
    else Ok [ PrimFloat.div (PrimFloat.add (PrimFloat.sub al fl) lm) fwidth;
              PrimFloat.div (PrimFloat.add (PrimFloat.sub ab fb) bm) fheight;
              PrimFloat.div (PrimFloat.sub ar al) fwidth;
              PrimFloat.div (PrimFloat.sub at_ ab) fheight ].
Proof.
  intros Hp Hc Hf fwidth fheight. unfold create_artist.
  rewrite Hp, Hc, Hf. cbn [number and_then]. unfold truediv. fold fwidth fheight.
  destruct (Py.eq fwidth Py.zero); [reflexivity |]. cbn [and_then].
  destruct (Py.eq fheight Py.zero); reflexivity.
Qed.

Lemma artist_after_the_pass fuel lc w w' f :
  layout_ok lc (heap w) ->
  place_all_frames set_iter fuel lc w = (Ok tt, w') ->
  In f (iter_frames lc) ->
  exists fl fr fb ft al ar ab at_,
    parent (heap w' !!! f) = Some (canvas_frame lc)
    /\ get_extent (heap w') (canvas_frame lc) = (Some fl, Some fr, Some fb, Some ft)
    /\ get_extent (heap w') f = (Some al, Some ar, Some ab, Some at_).
Proof.
  intros Hok E Hf.
  pose proof (pass_keeps_layout_ok fuel lc w w' Hok E) as (_ & _ & _ & _ & _ & Hreg).
  unfold iter_frames in Hf. apply in_map_iff in Hf as ([nm f'] & Hf' & Hin).
  cbn [snd] in Hf'. subst f'. destruct (Hreg nm f Hin) as (_ & _ & _ & Hpar).
  assert (Hreg' : In f (iter_frames lc)).
  { unfold iter_frames. apply in_map_iff. now exists (nm, f). }
  destruct (pass_settles set_iter fuel lc w w' E (canvas_frame lc) h_ruler
              (or_introl eq_refl)) as [C1 _].
  destruct (pass_settles set_iter fuel lc w w' E (canvas_frame lc) v_ruler
              (or_introl eq_refl)) as [C2 _].
  destruct (pass_settles set_iter fuel lc w w' E f h_ruler (or_intror Hreg'))
    as [F1 _].
  destruct (pass_settles set_iter fuel lc w w' E f v_ruler (or_intror Hreg'))
    as [F2 _].
  apply placed_extent in C1 as (fl & fr & C1l & C1r).
  apply placed_extent in C2 as (fb & ft & C2l & C2r).
  apply placed_extent in F1 as (al & ar & F1l & F1r).
  apply placed_extent in F2 as (ab & at_ & F2l & F2r).
  exists fl, fr, fb, ft, al, ar, ab, at_. split; [exact Hpar |].
  unfold get_extent. now rewrite C1l, C1r, C2l, C2r, F1l, F1r, F2l, F2r.
Qed.

(** X14: after a solve pass that returned, [create_artist] on a
    registered frame finds the eight extents it reads, of the canvas and
    of the frame, all placed: it raises neither [AttributeError] nor
    [TypeError].  It raises [ZeroDivisionError] when the width or the
    height of the figure, margins included, is zero, and otherwise makes
    the axes at the rectangle of the four quotients. *)
Theorem artists_after_the_pass (fuel : nat) (lc : LayoutCreator) (w w' : World)
    (f : FrameId) (lm rm bm tm : float) :
  layout_ok lc (heap w) ->
  place_all_frames set_iter fuel lc w = (Ok tt, w') ->
  In f (iter_frames lc) ->
  exists fl fr fb ft al ar ab at_,
    get_extent (heap w') (canvas_frame lc) = (Some fl, Some fr, Some fb, Some ft)
    /\ get_extent (heap w') f = (Some al, Some ar, Some ab, Some at_)
    /\ let fwidth := PrimFloat.add (PrimFloat.add lm (PrimFloat.sub fr fl)) rm in
       let fheight := PrimFloat.add (PrimFloat.add bm (PrimFloat.sub ft fb)) tm in
       create_artist (heap w') f lm rm bm tm
       = if Py.eq fwidth Py.zero then Raise ZeroDivisionError
         else if Py.eq fheight Py.zero then Raise ZeroDivisionError
         else Ok [ PrimFloat.div (PrimFloat.add (PrimFloat.sub al fl) lm) fwidth;
                   PrimFloat.div (PrimFloat.add (PrimFloat.sub ab fb) bm) fheight;
                   PrimFloat.div (PrimFloat.sub ar al) fwidth;
                   PrimFloat.div (PrimFloat.sub at_ ab) fheight ].
Proof.
  intros Hok E Hf.
  destruct (artist_after_the_pass fuel lc w w' f Hok E Hf)
    as (fl & fr & fb & ft & al & ar & ab & at_ & Hp & Hc & He).
  exists fl, fr, fb, ft, al, ar, ab, at_. split; [exact Hc |]. split; [exact He |].
  now apply (create_artist_placed _ _ (canvas_frame lc)).
Qed.

(** ** The dictionary and the figure *)

Lemma dict_set_fresh {B} (k : string) (v : B) (d : list (string * B)) :
  ~ In k (map fst d) -> dict_set k v d = d ++ [(k, v)].
Proof.
  induction d as [| [k' v'] d IH]; simpl; [reflexivity |]. intros H.
  destruct (String.eqb k k') eqn:E.
  - apply String.eqb_eq in E. subst. exfalso. apply H. now left.
  - rewrite IH; [reflexivity |]. intros Hin. apply H. now right.
Qed.

Lemma create_artists_built lc h (fs : list (string * FrameId)) :
  (forall nm f, In (nm, f) fs -> name (h !!! f) = nm) ->
  List.NoDup (map fst fs) ->
  forall d fig d' fig',
    (forall k, In k (map fst fs) -> ~ In k (map fst d)) ->
    create_artists lc h (map snd fs) d fig = (Built d', fig') ->
    exists rects,
      Forall2 (fun f rect =>
                 create_artist h f (left_margin lc) (right_margin lc)
                   (bottom_margin lc) (top_margin lc) = Ok rect)
        (map snd fs) rects
      /\ d' = d ++ combine (map fst fs) (map Axes rects)
      /\ fig' = mkFigure (n_children fig) (size_inches_calls fig)
                  (axes_added fig ++ rects).
Proof.
  induction fs as [| [nm f] fs IH]; intros Hname Hnd d fig d' fig' Hfresh E.
  - cbn [map create_artists] in E. injection E as <- <-. exists [].
    split; [constructor |]. cbn [map combine]. rewrite !app_nil_r.
    split; [reflexivity | now destruct fig].
  - cbn [map create_artists fst snd] in E.
    destruct (create_artist h f _ _ _ _) as [rect | e |] eqn:Ea; try discriminate.
    rewrite (Hname nm f (or_introl eq_refl)) in E.
    rewrite dict_set_fresh in E by (apply Hfresh; now left).
    inversion Hnd as [| ? ? Hnotin Hnd']; subst.
    apply IH in E as (rects & HF & -> & ->); [| | exact Hnd' |].
    + exists (rect :: rects). split; [now constructor |].
      cbn [map combine fst snd add_axes n_children size_inches_calls axes_added].
      rewrite <- !app_assoc. split; reflexivity.
    + intros nm' f' Hin. apply Hname. now right.
    + intros k Hk Hin. rewrite map_app in Hin. apply in_app_or in Hin as [Hin | Hin].
      * apply (Hfresh k); [now right | exact Hin].
      * cbn [map fst] in Hin. destruct Hin as [<- | []]. contradiction.
Qed.

Lemma create_artists_failed lc h (l : list FrameId) :
  forall d fig,
    match fst (create_artists lc h l d fig) with
    | Built _ => True
    | Failed e =>
      exists f e', In f l
        /\ create_artist h f (left_margin lc) (right_margin lc)
             (bottom_margin lc) (top_margin lc) = Raise e'
        /\ e = Placement e'
    | Exhausted =>
      exists f, In f l
        /\ create_artist h f (left_margin lc) (right_margin lc)
             (bottom_margin lc) (top_margin lc) = OutOfFuel
    end.
Proof.
  induction l as [| f l IH]; intros d fig; cbn [create_artists]; [exact I |].
  destruct (create_artist h f _ _ _ _) as [rect | e |] eqn:Ea; cbn [fst].
  - specialize (IH (dict_set (name (h !!! f)) (Axes rect) d) (add_axes rect fig)).
    destruct (fst (create_artists lc h l _ _)) as [d' | e |]; [exact I | |].
    + destruct IH as (g & e' & Hg & H1 & H2). exists g, e'. split; [now right | auto].
    + destruct IH as (g & Hg & H1). exists g. split; [now right | auto].
  - exists f, e. split; [now left | auto].
  - exists f. split; [now left | auto].
Qed.

Lemma get_size_total h f :
  set_iter_ok set_iter -> exists w ht, get_size set_iter h f = Ok (Some w, Some ht).
Proof.
  intros Hs.
  assert (Htotal : forall rid r, exists v,
             get_ruler_length set_iter true rid r = Ok (Some v)).
  { intros rid r. unfold get_ruler_length.
    destruct (_ruler_length r) as [v |]; [now exists v |].
    destruct (calc_ruler_length_total set_iter rid r Hs) as [v ->]. now exists v. }
  unfold get_size, get_width, get_height.
  destruct (Htotal (f, h_ruler) (ruler_at h (f, h_ruler))) as [w ->].
  destruct (Htotal (f, v_ruler) (ruler_at h (f, v_ruler))) as [ht ->].
  now exists w, ht.
Qed.

Lemma registry_keys lc h :
  layout_ok lc h ->
  map snd (frames lc) = iter_frames lc
  /\ List.NoDup (map fst (frames lc))
  /\ (forall nm f, In (nm, f) (frames lc) -> name (h !!! f) = nm)
  /\ (forall k, In k (map fst (frames lc)) ->
        ~ In k (map fst (dict_set "figure" TheFigure []))).
Proof.
  intros (_ & _ & _ & Hnd & Hfig & Hreg). split; [reflexivity |].
  split; [now apply NoDup_ListNoDup |]. split.
  - intros nm f Hin. now destruct (Hreg nm f Hin) as (_ & _ & H & _).
  - intros k Hk [<- | []]. contradiction.
Qed.

(** What [create_figure_layout] does once the figure is accepted and the
    pass has returned. *)
Lemma figure_layout_after_pass fuel lc fresh fig force w w' g :
  set_iter_ok set_iter ->
  layout_ok lc (heap w) ->
  _get_figure fresh fig force = Built g ->
  place_all_frames set_iter fuel lc w = (Ok tt, w') ->
  exists cw ch,
    get_canvas_size set_iter lc (heap w') = Ok (Some cw, Some ch)
    /\ create_figure_layout set_iter fuel lc fresh fig force w
       = (fst (create_artists lc (heap w') (iter_frames lc)
                 (dict_set "figure" TheFigure [])
                 (set_size_inches
                    (PrimFloat.add (PrimFloat.add (left_margin lc) cw) (right_margin lc))
                    (PrimFloat.add (bottom_margin lc) ch) (top_margin lc) g)),
          mkStage w'
            (snd (create_artists lc (heap w') (iter_frames lc)
                    (dict_set "figure" TheFigure [])
                    (set_size_inches
                       (PrimFloat.add (PrimFloat.add (left_margin lc) cw)
                          (right_margin lc))
                       (PrimFloat.add (bottom_margin lc) ch) (top_margin lc) g)))).
Proof.
  intros Hs Hok Hg E.
  destruct (get_size_total (heap w') (canvas_frame lc) Hs) as (cw & ch & Hsize).
  exists cw, ch. split; [exact Hsize |].
  unfold create_figure_layout. rewrite Hg, E. unfold _update_figure_size.
  assert (Hpl : frame_is_placed (heap w') (canvas_frame lc) = true).
  { apply frame_placed_rulers. intros a.
    now destruct (pass_settles set_iter fuel lc w w' E (canvas_frame lc) a
                    (or_introl eq_refl)). }
  rewrite Hpl, Hsize. cbn [negb number].
  now destruct (create_artists _ _ _ _ _).
Qed.

(** X15: the errors of [create_figure_layout] on a layout that fits its
    heap.  A figure that has not exactly one child is refused with
    [NonEmptyFigureError] unless [force] is set, before anything is
    placed or drawn.  Otherwise the call raises what [place_all_frames]
    raises, with the figure untouched; when the pass returns, the only
    error left is [ZeroDivisionError], from a figure of zero width or
    height: [ElementNotPlacedError] is never raised. *)
Theorem figure_layout_errors (fuel : nat) (lc : LayoutCreator) (fresh : Figure)
    (fig : option Figure) (force : bool) (w : World) :
  set_iter_ok set_iter ->
  layout_ok lc (heap w) ->
  let before := match fig with None => fresh | Some g => g end in
  let r := create_figure_layout set_iter fuel lc fresh fig force w in
  let pass := place_all_frames set_iter fuel lc w in
  ((n_children before <> 1 /\ force = false) ->
     r = (Failed NonEmptyFigureError, mkStage w before))
  /\ match fst r with
     | Failed NonEmptyFigureError =>
       n_children before <> 1 /\ force = false /\ snd r = mkStage w before
     | Failed ElementNotPlacedError => False
     | Failed (Placement e) =>
       world (snd r) = snd pass
       /\ ((fst pass = Raise e /\ figure (snd r) = before)
           \/ (fst pass = Ok tt /\ e = ZeroDivisionError))
     | Exhausted => fst pass = OutOfFuel /\ snd r = mkStage (snd pass) before
     | Built d => fst pass = Ok tt /\ world (snd r) = snd pass
     end.
Proof.
  intros Hs Hok before r pass.
  assert (Hget : _get_figure fresh fig force
                 = if negb ((n_children before =? 1)%nat || force)
                   then Failed NonEmptyFigureError else Built before).
  { unfold _get_figure, _is_figure_empty, before. now destruct fig. }
  destruct (negb ((n_children before =? 1)%nat || force)) eqn:Hne.
  - assert (Hr : r = (Failed NonEmptyFigureError, mkStage w before)).
    { unfold r, create_figure_layout. rewrite Hget. now destruct fig. }
    apply negb_true_iff, orb_false_iff in Hne as [Hn Hforce].
    apply Nat.eqb_neq in Hn.
    split; [intros _; exact Hr |]. rewrite Hr. cbn [fst snd]. auto.
  - split.
    { intros [Hn ->]. apply Nat.eqb_neq in Hn. rewrite Hn in Hne. discriminate. }
    destruct (place_all_frames set_iter fuel lc w) as [[[] | e |] w'] eqn:E.
    + destruct (figure_layout_after_pass fuel lc fresh fig force w w' before
                  Hs Hok Hget E) as (cw & ch & _ & Hr).
      unfold r, pass. rewrite Hr. cbn [fst snd world figure].
      pose proof (create_artists_failed lc (heap w') (iter_frames lc)
                    (dict_set "figure" TheFigure [])
                    (set_size_inches
                       (PrimFloat.add (PrimFloat.add (left_margin lc) cw)
                          (right_margin lc))
                       (PrimFloat.add (bottom_margin lc) ch) (top_margin lc) before))
        as Hfail.
      destruct (fst (create_artists _ _ _ _ _)) as [d | e |].
      * now split.
      * destruct Hfail as (f & e' & Hf & Ha & ->).
        split; [reflexivity |]. right. split; [reflexivity |].
        destruct (artist_after_the_pass fuel lc w w' f Hok E Hf)
          as (fl & fr & fb & ft & al & ar & ab & at_ & Hp & Hc & He).
        rewrite (create_artist_placed _ _ _ _ _ _ _ _ _ _ _ _ _ _ _ Hp Hc He) in Ha.
        cbv zeta in Ha.
        destruct (Py.eq _ Py.zero); [now injection Ha as <- |].
        destruct (Py.eq _ Py.zero); [now injection Ha as <- | discriminate].
      * destruct Hfail as (f & Hf & Ha).
        destruct (artist_after_the_pass fuel lc w w' f Hok E Hf)
          as (fl & fr & fb & ft & al & ar & ab & at_ & Hp & Hc & He).
        rewrite (create_artist_placed _ _ _ _ _ _ _ _ _ _ _ _ _ _ _ Hp Hc He) in Ha.
        cbv zeta in Ha.
        destruct (Py.eq _ Py.zero); [discriminate |].
        destruct (Py.eq _ Py.zero); discriminate.
    + unfold r, create_figure_layout, pass. rewrite Hget, E. cbn [fst snd world figure].
      split; [reflexivity |]. left. now split.
    + unfold r, create_figure_layout, pass. rewrite Hget, E. cbn [fst snd].
      split; [reflexivity |]. unfold before. now destruct fig.
Qed.

(** X16: what [create_figure_layout] returns and leaves on the figure.
    The dictionary holds the figure under "figure", then one artist per
    registered frame under the frame's name, in the order of
    registration.  The figure has been asked once for a size, with the
    width [left_margin + canvas width + right_margin], the height
    [bottom_margin + canvas height], and [top_margin] as the third
    argument; it has got one axes per registered frame, at the rectangle
    [create_artist] computes, whose height fractions are taken of
    [bottom_margin + canvas height + top_margin]. *)
Theorem figure_layout_built (fuel : nat) (lc : LayoutCreator) (fresh : Figure)
    (fig : option Figure) (force : bool) (w : World)
    (d : list (string * layout_item)) (st : Stage) :
  set_iter_ok set_iter ->
  layout_ok lc (heap w) ->
  create_figure_layout set_iter fuel lc fresh fig force w = (Built d, st) ->
  let before := match fig with None => fresh | Some g => g end in
  exists cw ch rects,
    place_all_frames set_iter fuel lc w = (Ok tt, world st)
    /\ get_canvas_size set_iter lc (heap (world st)) = Ok (Some cw, Some ch)
    /\ Forall2 (fun f rect =>
                  create_artist (heap (world st)) f (left_margin lc) (right_margin lc)
                    (bottom_margin lc) (top_margin lc) = Ok rect)
         (iter_frames lc) rects
    /\ d = ("figure", TheFigure) :: combine (map fst (frames lc)) (map Axes rects)
    /\ figure st
       = mkFigure (n_children before)
           (size_inches_calls before
            ++ [(PrimFloat.add (PrimFloat.add (left_margin lc) cw) (right_margin lc),
                 PrimFloat.add (bottom_margin lc) ch,
                 top_margin lc)])
           (axes_added before ++ rects).
Proof.
  intros Hs Hok E before.
  assert (Hget : _get_figure fresh fig force
                 = if negb ((n_children before =? 1)%nat || force)
                   then Failed NonEmptyFigureError else Built before).
  { unfold _get_figure, _is_figure_empty, before. now destruct fig. }
  destruct (negb ((n_children before =? 1)%nat || force)).
  { unfold create_figure_layout in E. rewrite Hget in E. discriminate. }
  destruct (place_all_frames set_iter fuel lc w) as [[[] | e |] w'] eqn:Ep.
  2,3: (unfold create_figure_layout in E; rewrite Hget, Ep in E; discriminate).
  destruct (figure_layout_after_pass fuel lc fresh fig force w w' before
              Hs Hok Hget Ep) as (cw & ch & Hsize & Hr).
  rewrite Hr in E.
  pose proof (pass_keeps_layout_ok fuel lc w w' Hok Ep) as Hok'.
  destruct (registry_keys lc (heap w') Hok') as (Hsnd & Hnd & Hname & Hfresh).
  destruct (create_artists lc (heap w') (iter_frames lc) _ _) as [r fig'] eqn:Ec.
  cbn [fst snd] in E. injection E as -> <-. cbn [world figure].
  rewrite <- Hsnd in Ec.
  apply (create_artists_built lc (heap w') (frames lc) Hname Hnd) in Ec
    as (rects & HF & -> & ->); [| exact Hfresh].
  exists cw, ch, rects. rewrite Hsnd in HF. auto.
Qed.

End Artists.

(** ** Instances of the further properties *)

(** X1 on the frame of the one-frame layout, once the pass has prepared
    the heap. *)
Lemma solved_element_is_placed_witness :
  is_placed
    (st_heap (snd (solve_placement_resursive Examples.insertion_order 5 (NFrame 1)
                     (mkSolver Cases.one_frame_prepared []))))
    (NFrame 1) = true
  /\ dep_path (snd (solve_placement_resursive Examples.insertion_order 5 (NFrame 1)
                      (mkSolver Cases.one_frame_prepared []))) = [].
Proof.
  apply (solved_element_is_placed Examples.insertion_order 5 (NFrame 1)
           (mkSolver Cases.one_frame_prepared [])
           (snd (solve_placement_resursive Examples.insertion_order 5 (NFrame 1)
                   (mkSolver Cases.one_frame_prepared [])))).
  vm_compute. reflexivity.
Defined.

(** X4 on the one-frame layout. *)
Lemma pass_leaves_the_layout_placed_witness :
  Ruler.is_placed
    (ruler_at (heap (snd (place_all_frames Examples.insertion_order 5
                            Examples.one_frame_layout
                            (mkWorld Examples.one_frame_heap []))))
       (1, h_ruler)) = true
  /\ ruler_complies
       (heap (snd (place_all_frames Examples.insertion_order 5
                     Examples.one_frame_layout
                     (mkWorld Examples.one_frame_heap []))))
       (1, h_ruler).
Proof.
  assert (E : place_all_frames Examples.insertion_order 5 Examples.one_frame_layout
                (mkWorld Examples.one_frame_heap [])
              = (Ok tt,
                 snd (place_all_frames Examples.insertion_order 5
                        Examples.one_frame_layout
                        (mkWorld Examples.one_frame_heap [])))).
  { vm_compute. reflexivity. }
  destruct (pass_leaves_the_layout_placed Examples.insertion_order 5
              Examples.one_frame_layout (mkWorld Examples.one_frame_heap []) _ E
              1 h_ruler (or_intror (or_introl eq_refl))) as (H1 & _ & H3).
  split; [exact H1 | exact H3].
Defined.

(** X5 on the frame of the one-frame layout, anchored a second time. *)
Lemma set_anchor_then_get_anchor_witness :
  exists rf q1 q2 dx dy,
    (Some 0 = Some rf
     \/ (Some 0 = None /\ parent (Examples.one_frame_heap !!! 1) = Some rf))
    /\ ((Some (Py.List [2%float; 3%float]) = None /\ dx = 0%float /\ dy = 0%float)
        \/ Some (Py.List [2%float; 3%float]) = Some (Py.Tuple [dx; dy])
        \/ Some (Py.List [2%float; 3%float]) = Some (Py.List [dx; dy]))
    /\ get_ruler_pins_by_anchor_name rf (anchor_or "TopRight" None) = Ok (q1, q2)
    /\ get_anchor
         (snd (set_anchor 1 "TopRight" (Some 0) None
                 (Some (Py.List [2%float; 3%float])) Examples.one_frame_heap))
         1 "TopRight" = Ok ((Some q1, dx), (Some q2, dy))
    /\ (forall p,
          figpos (pin_at
                    (snd (set_anchor 1 "TopRight" (Some 0) None
                            (Some (Py.List [2%float; 3%float]))
                            Examples.one_frame_heap)) p)
          = figpos (pin_at Examples.one_frame_heap p))
    /\ (forall rid,
          _ruler_length
            (ruler_at (snd (set_anchor 1 "TopRight" (Some 0) None
                              (Some (Py.List [2%float; 3%float]))
                              Examples.one_frame_heap)) rid)
          = _ruler_length (ruler_at Examples.one_frame_heap rid))
    /\ (forall p, pin_frame p <> 1 ->
          pin_at (snd (set_anchor 1 "TopRight" (Some 0) None
                         (Some (Py.List [2%float; 3%float]))
                         Examples.one_frame_heap)) p
          = pin_at Examples.one_frame_heap p).
Proof.
  apply (set_anchor_then_get_anchor Examples.one_frame_heap).
  - simpl. lia.
  - vm_compute. reflexivity.
Defined.

(** X6 on a frame with nothing set. *)
Lemma clear_anchor_undoes_set_anchor_witness :
  clear_anchor 0 "left"
    (snd (set_anchor 0 "left" (Some 0) (Some "right") None Examples.bare_frame))
  = (Ok tt, Examples.bare_frame).
Proof.
  apply (clear_anchor_undoes_set_anchor Examples.bare_frame _ 0 "left"
           (Some 0) (Some "right") None).
  - reflexivity.
  - vm_compute. reflexivity.
Defined.

(** X8 with sets iterated in insertion order. *)
Lemma get_size_is_always_a_number_witness :
  exists w ht,
    get_size Examples.insertion_order Examples.one_frame_solved 1 = Ok (Some w, Some ht).
Proof.
  destruct (get_size_is_always_a_number Examples.insertion_order
              Examples.one_frame_solved 1 Examples.one_frame_layout
              insertion_order_ok) as ((w & ht & _ & _ & H) & _).
  exists w, ht. exact H.
Defined.

(** X9 on a frame with nothing set. *)
Lemma set_size_then_get_size_witness :
  exists h',
    set_size 0 (Some 4%float) (Some 2.5%float) Examples.bare_frame = (Ok tt, h')
    /\ get_size Examples.insertion_order h' 0 = Ok (Some 4%float, Some 2.5%float).
Proof.
  destruct (set_size_then_get_size Examples.insertion_order Examples.bare_frame 0
              4%float 2.5%float) as (_ & _ & H).
  - simpl. lia.
  - destruct (H eq_refl eq_refl) as (h' & H1 & H2 & _). exists h'. now split.
Defined.

(** X10 on the first frame added to a new layout. *)
Lemma add_frame_keeps_the_layout_ok_witness :
  layout_ok (register "A" 1 Examples.default_layout)
    (Examples.canvas_only ++ [Frame.init "A" (Some 0)])
  /\ Element.frame_global_name (Examples.canvas_only ++ [Frame.init "A" (Some 0)]) 1
     = Some "canvas/A".
Proof.
  assert (Hok : layout_ok Examples.default_layout Examples.canvas_only).
  { unfold layout_ok. simpl. split; [lia |]. split; [reflexivity |].
    split; [reflexivity |]. split; [apply NoDup_nil_2 |]. split; [tauto |].
    intros nm f []. }
  destruct (add_frame_keeps_the_layout_ok Examples.default_layout
              (register "A" 1 Examples.default_layout) "A" LayoutAxesFrame
              Examples.canvas_only (Examples.canvas_only ++ [Frame.init "A" (Some 0)])
              1 Hok eq_refl) as (H1 & _ & _ & _ & _ & H6).
  split; [exact H1 | exact H6].
Defined.

(** X11 on [LayoutCreator(canvas_width = 4, canvas_height = 2.5)] in an
    empty heap. *)
Lemma new_layout_is_ok_witness :
  layout_ok Examples.default_layout Examples.sized_canvas.
Proof.
  apply (new_layout_is_ok "unnamed-layout" "bottomleft" (Some 4%float) (Some 2.5%float)
           0.5%float 0.5%float 0.5%float 0.5%float [] Examples.sized_canvas
           Examples.default_layout).
  reflexivity.
Defined.

(** X12 on the one-frame layout. *)
Lemma solvable_layout_is_constrained_witness :
  2 <= constraint_count (ruler_at Examples.one_frame_heap (1, h_ruler)).
Proof.
  assert (E : place_all_frames Examples.insertion_order 5 Examples.one_frame_layout
                (mkWorld Examples.one_frame_heap [])
              = (Ok tt,
                 snd (place_all_frames Examples.insertion_order 5
                        Examples.one_frame_layout
                        (mkWorld Examples.one_frame_heap [])))).
  { vm_compute. reflexivity. }
  destruct (solvable_layout_is_constrained Examples.insertion_order 5
              Examples.one_frame_layout (mkWorld Examples.one_frame_heap []) _ E
              1 h_ruler (or_introl eq_refl)) as [_ H].
  apply H. discriminate.
Defined.

(** X13 on a new layout of the default arguments. *)
Lemma empty_layout_needs_a_canvas_width_witness :
  fst (place_all_frames Examples.insertion_order 5 Examples.default_layout
         (mkWorld Examples.canvas_only [])) = Raise ValueError
  /\ warnings (snd (place_all_frames Examples.insertion_order 5 Examples.default_layout
                      (mkWorld Examples.canvas_only []))) = [].
Proof.
  apply (empty_layout_needs_a_canvas_width Examples.insertion_order 5
           Examples.default_layout (mkWorld Examples.canvas_only [])).
  - reflexivity.
  - reflexivity.
  - intros []; reflexivity.
Defined.

Lemma one_frame_layout_ok : layout_ok Examples.one_frame_layout Examples.one_frame_heap.
Proof.
  unfold layout_ok. simpl. split; [lia |]. split; [reflexivity |].
  split; [reflexivity |]. split; [apply NoDup_singleton |].
  split; [intros [H | []]; discriminate |].
  intros nm f [[= <- <-] | []]. split; [lia |]. split; [lia |]. now split.
Qed.

Lemma one_frame_pass :
  place_all_frames Examples.insertion_order 5 Examples.one_frame_layout
    (mkWorld Examples.one_frame_heap [])
  = (Ok tt,
     snd (place_all_frames Examples.insertion_order 5 Examples.one_frame_layout
            (mkWorld Examples.one_frame_heap []))).
Proof. vm_compute. reflexivity. Qed.

(** X14 on the one-frame layout, with the default margins. *)
Lemma artists_after_the_pass_witness :
  exists rect,
    create_artist
      (heap (snd (place_all_frames Examples.insertion_order 5 Examples.one_frame_layout
                    (mkWorld Examples.one_frame_heap []))))
      1 0.5%float 0.5%float 0.5%float 0.5%float
    = Ok rect.
Proof.
  destruct (artists_after_the_pass Examples.insertion_order 5 Examples.one_frame_layout
              (mkWorld Examples.one_frame_heap []) _ 1
              0.5%float 0.5%float 0.5%float 0.5%float
              one_frame_layout_ok one_frame_pass (or_introl eq_refl))
    as (fl & fr & fb & ft & al & ar & ab & at_ & _ & _ & H).
  eexists. vm_compute. reflexivity.
Defined.

(** X15 on the one-frame layout and a figure that is not empty. *)
Lemma figure_layout_errors_witness :
  create_figure_layout Examples.insertion_order 5 Examples.one_frame_layout
    Cases.new_figure (Some Cases.used_figure) false (mkWorld Examples.one_frame_heap [])
  = (Failed NonEmptyFigureError,
     mkStage (mkWorld Examples.one_frame_heap []) Cases.used_figure).
Proof.
  destruct (figure_layout_errors Examples.insertion_order 5 Examples.one_frame_layout
              Cases.new_figure (Some Cases.used_figure) false
              (mkWorld Examples.one_frame_heap [])
              insertion_order_ok one_frame_layout_ok) as [H _].
  apply H. split; [discriminate | reflexivity].
Defined.

Lemma one_frame_built :
  create_figure_layout Examples.insertion_order 5 Examples.one_frame_layout
      Cases.new_figure None false (mkWorld Examples.one_frame_heap [])
  = (Built (match fst (create_figure_layout Examples.insertion_order 5 Examples.one_frame_layout
      Cases.new_figure None false (mkWorld Examples.one_frame_heap [])) with Built d => d | _ => [] end),
     snd (create_figure_layout Examples.insertion_order 5 Examples.one_frame_layout
      Cases.new_figure None false (mkWorld Examples.one_frame_heap []))).
Proof. vm_compute. reflexivity. Qed.

(** X16 on the one-frame layout and a new figure. *)
Lemma figure_layout_built_witness :
  exists cw ch rects,
    fst (create_figure_layout Examples.insertion_order 5 Examples.one_frame_layout
           Cases.new_figure None false (mkWorld Examples.one_frame_heap []))
    = Built (("figure", TheFigure) :: combine ["A"] (map Axes rects))
    /\ figure (snd (create_figure_layout Examples.insertion_order 5
                      Examples.one_frame_layout Cases.new_figure None false
                      (mkWorld Examples.one_frame_heap [])))
       = mkFigure 1 [(PrimFloat.add (PrimFloat.add 0.5 cw) 0.5,
                      PrimFloat.add 0.5 ch, 0.5%float)] rects.
Proof.
  destruct (figure_layout_built Examples.insertion_order 5 Examples.one_frame_layout
              Cases.new_figure None false (mkWorld Examples.one_frame_heap [])
              (match fst (create_figure_layout Examples.insertion_order 5
                            Examples.one_frame_layout Cases.new_figure None false
                            (mkWorld Examples.one_frame_heap []))
               with Built d => d | _ => [] end)
              (snd (create_figure_layout Examples.insertion_order 5
                      Examples.one_frame_layout Cases.new_figure None false
                      (mkWorld Examples.one_frame_heap [])))
              insertion_order_ok one_frame_layout_ok one_frame_built)
    as (cw & ch & rects & _ & _ & _ & Hd & Hfig).
  exists cw, ch, rects. split; [| exact Hfig].
  rewrite one_frame_built at 1. cbn [fst]. now rewrite Hd.
Defined.
